(** * rss2pdf: the extraction, cleaning and assembly pipeline of rss_to_pdf.py

    A shallow embedding of [RSSToPDFConverter] (src/rss_to_pdf.py) and the
    properties its specification states about it.

    Python strings are sequences of Unicode code points: a string is a
    [list N].  The parts of the interpreter's Unicode database the code
    consults outside ASCII (which code points are alphanumeric, decimal
    digits, cased, and how they lower-case) are a parameter, [unicode_db];
    on ASCII everything is written out. *)

From Stdlib Require Import NArith ZArith List Bool Lia Ascii String DecimalString.
From stdpp Require Import base option list gmap.

#[local] Set Warnings "-register-all".

Local Open Scope N_scope.

(** ** Strings *)

Definition str (s : string) : list N :=
  List.map N_of_ascii (list_ascii_of_string s).

Definition nl : N := 10.
Definition tab : N := 9.
Definition space : N := 32.
Definition dquote : N := 34.
Definition squote : N := 39.
Definition backslash : N := 92.
Definition bang : N := 33.
Definition bullet : N := 8226.

Definition str_eqb (a b : list N) : bool := bool_decide (a = b).

(** [s.startswith(p)] *)
Fixpoint startswith (p s : list N) : bool :=
  match p, s with
  | [], _ => true
  | _ :: _, [] => false
  | a :: p', b :: s' => (a =? b) && startswith p' s'
  end.

(** [p in s] for strings. *)
Fixpoint occurs (p s : list N) : bool :=
  startswith p s ||
  match s with
  | [] => false
  | _ :: s' => occurs p s'
  end.

(** [s.replace(old, new)]: the occurrences of [old] from the left, not
    overlapping.  [skip] counts the characters of an occurrence still to be
    passed over. *)
Fixpoint replace_from (old new s : list N) (skip : nat) : list N :=
  match s with
  | [] => []
  | c :: s' =>
      match skip with
      | S n => replace_from old new s' n
      | O =>
          if startswith old s
          then new ++ replace_from old new s' (Nat.pred (length old))
          else c :: replace_from old new s' 0
      end
  end.

Definition replace (old new s : list N) : list N :=
  match old with
  | [] => new ++ flat_map (fun c => c :: new) s
  | _ :: _ => replace_from old new s 0
  end.

(** ** Character classes *)

Definition in_range (lo hi c : N) : bool := (lo <=? c) && (c <=? hi).

(** What [str.isspace] and the pattern [\s] accept. *)
Definition is_space (c : N) : bool :=
  in_range 9 13 c || in_range 28 32 c || (c =? 133) || (c =? 160) ||
  (c =? 5760) || in_range 8192 8202 c || (c =? 8232) || (c =? 8233) ||
  (c =? 8239) || (c =? 8287) || (c =? 12288).

Definition is_ascii_upper (c : N) : bool := in_range 65 90 c.
Definition is_ascii_lower (c : N) : bool := in_range 97 122 c.
Definition is_ascii_digit (c : N) : bool := in_range 48 57 c.
Definition is_ascii_alpha (c : N) : bool := is_ascii_upper c || is_ascii_lower c.

(** The interpreter's Unicode tables, consulted for code points from 128 on. *)
Record unicode_db := UnicodeDb {
  uni_alnum : N -> bool;
  uni_decimal : N -> bool;
  uni_islower : N -> bool;
  uni_isupper : N -> bool;
  uni_istitle : N -> bool;
  (* the lower-case mapping of a code point between what stands before and
     after it (the final sigma looks at both) *)
  uni_lower : list N -> N -> list N -> list N
}.

(** A database that knows no letter, digit or case outside ASCII. *)
Definition ascii_db : unicode_db :=
  UnicodeDb (fun _ => false) (fun _ => false) (fun _ => false)
            (fun _ => false) (fun _ => false) (fun _ c _ => [c]).

Definition is_ascii (c : N) : bool := c <? 128.

(** [\d] *)
Definition is_digit (db : unicode_db) (c : N) : bool :=
  if is_ascii c then is_ascii_digit c else uni_decimal db c.

(** [\w] *)
Definition is_word (db : unicode_db) (c : N) : bool :=
  if is_ascii c
  then is_ascii_alpha c || is_ascii_digit c || (c =? 95)
  else uni_alnum db c.

(** [.] without DOTALL *)
Definition not_newline (c : N) : bool := negb (c =? nl).
Definition any_char (c : N) : bool := true.
Definition one_of (l : list N) (c : N) : bool := existsb (N.eqb c) l.
Definition is_char (a c : N) : bool := a =? c.

(** [s.lower()] *)
Definition lower_char (db : unicode_db) (before : list N) (c : N)
    (after : list N) : list N :=
  if is_ascii c
  then [if is_ascii_upper c then c + 32 else c]
  else uni_lower db before c after.

Fixpoint lower_from (db : unicode_db) (before s : list N) : list N :=
  match s with
  | [] => []
  | c :: s' => lower_char db before c s' ++ lower_from db (before ++ [c]) s'
  end.

Definition lower (db : unicode_db) (s : list N) : list N := lower_from db [] s.

(** [s.lstrip()], [s.rstrip()], [s.strip()] *)
Fixpoint lstrip (s : list N) : list N :=
  match s with
  | [] => []
  | c :: s' => if is_space c then lstrip s' else s
  end.

Definition rstrip (s : list N) : list N := rev (lstrip (rev s)).

Definition strip (s : list N) : list N := rstrip (lstrip s).

(** [sep.join(parts)] *)
Fixpoint join {A} (sep : list A) (parts : list (list A)) : list A :=
  match parts with
  | [] => []
  | [p] => p
  | p :: rest => p ++ sep ++ join sep rest
  end.

(** [s.split(sep)] for a separator that is not empty: cut at the
    occurrences of [sep] from the left, not overlapping. *)
Definition cons_head (c : N) (parts : list (list N)) : list (list N) :=
  match parts with
  | [] => [[c]]
  | l :: ls => (c :: l) :: ls
  end.

Fixpoint split_from (sep s : list N) (skip : nat) : list (list N) :=
  match s with
  | [] => [[]]
  | c :: s' =>
      match skip with
      | S n => split_from sep s' n
      | O =>
          if startswith sep s
          then [] :: split_from sep s' (Nat.pred (length sep))
          else cons_head c (split_from sep s' 0)
      end
  end.

Definition split (sep s : list N) : list (list N) := split_from sep s 0.

(** ** Regular expressions

    The patterns of the program, with the matching order of Python's [re]:
    leftmost, alternatives and repetitions tried in their order of
    preference, backtracking into them on failure.  Every repetition in the
    program's patterns is over a single character class ([Rep]); the only
    optional group is [Opt]. *)

Inductive regex :=
| Eps
| Cls (p : N -> bool)
| Seq (r1 r2 : regex)
| Alt (r1 r2 : regex)
| Rep (greedy : bool) (lo : nat) (hi : option nat) (p : N -> bool)
| Opt (r : regex)
| Grp (n : nat) (r : regex)
| Bol    (* ^ under MULTILINE *)
| Bos    (* ^ *)
| Eos.   (* $ *)

(** Where a match stands: the character before, the text ahead, and the
    groups closed so far. *)
Record mstate := MState {
  m_prev : option N;
  m_rest : list N;
  m_caps : list (nat * list N)
}.

Definition hi_allows (hi : option nat) : bool :=
  match hi with Some O => false | _ => true end.

(** [p{lo,hi}] (greedy) and [p{lo,hi}?] (lazy), then [k]. *)
Fixpoint rep {R} (greedy : bool) (p : N -> bool) (lo : nat) (hi : option nat)
    (prev : option N) (s : list N) (k : option N -> list N -> option R)
    : option R :=
  let stop (_ : unit) := match lo with O => k prev s | S _ => None end in
  let more (_ : unit) :=
    match s with
    | c :: s' =>
        if p c && hi_allows hi
        then rep greedy p (Nat.pred lo) (option_map Nat.pred hi) (Some c) s' k
        else None
    | [] => None
    end in
  if greedy
  then match more tt with Some x => Some x | None => stop tt end
  else match stop tt with Some x => Some x | None => more tt end.

Definition at_line_start (prev : option N) : bool :=
  match prev with None => true | Some c => c =? nl end.

Definition at_end (s : list N) : bool :=
  match s with [] => true | [c] => c =? nl | _ => false end.

Definition consumed (st st' : mstate) : list N :=
  take (length (m_rest st) - length (m_rest st')) (m_rest st).

Fixpoint rmatch (r : regex) (st : mstate) (k : mstate -> option mstate)
    : option mstate :=
  match r with
  | Eps => k st
  | Cls p =>
      match m_rest st with
      | c :: s' => if p c then k (MState (Some c) s' (m_caps st)) else None
      | [] => None
      end
  | Seq r1 r2 => rmatch r1 st (fun st1 => rmatch r2 st1 k)
  | Alt r1 r2 =>
      match rmatch r1 st k with Some x => Some x | None => rmatch r2 st k end
  | Rep g lo hi p =>
      rep g p lo hi (m_prev st) (m_rest st)
          (fun pv s' => k (MState pv s' (m_caps st)))
  | Opt r1 =>
      match rmatch r1 st k with Some x => Some x | None => k st end
  | Grp n r1 =>
      rmatch r1 st
        (fun st1 => k (MState (m_prev st1) (m_rest st1)
                              ((n, consumed st st1) :: m_caps st1)))
  | Bol => if at_line_start (m_prev st) then k st else None
  | Bos => match m_prev st with None => k st | Some _ => None end
  | Eos => if at_end (m_rest st) then k st else None
  end.

(** The literal text [s] as a pattern. *)
Fixpoint Lit (s : list N) : regex :=
  match s with
  | [] => Eps
  | c :: s' => Seq (Cls (is_char c)) (Lit s')
  end.

Definition Star (p : N -> bool) : regex := Rep true 0 None p.
Definition Plus (p : N -> bool) : regex := Rep true 1 None p.
Definition LazyStar (p : N -> bool) : regex := Rep false 0 None p.

(** The text of group [n] ([m.group(n)], or [
] in a replacement): the
    empty text when the group took no part in the match. *)
Fixpoint group (n : nat) (caps : list (nat * list N)) : list N :=
  match caps with
  | [] => []
  | (m, t) :: rest => if Nat.eqb n m then t else group n rest
  end.

(** A match of [r] that starts right here: its length and groups. *)
Definition match_at (r : regex) (prev : option N) (s : list N)
    : option (nat * list (nat * list N)) :=
  match rmatch r (MState prev s []) Some with
  | Some st' => Some ((length s - length (m_rest st'))%nat, m_caps st')
  | None => None
  end.

(** [re.match(r, s)] *)
Definition re_match (r : regex) (s : list N) := match_at r None s.

(** [re.search(r, s)]: the groups of the leftmost match. *)
Fixpoint search_from (r : regex) (prev : option N) (s : list N)
    : option (list (nat * list N)) :=
  match match_at r prev s with
  | Some (_, caps) => Some caps
  | None =>
      match s with
      | [] => None
      | c :: s' => search_from r (Some c) s'
      end
  end.

Definition re_search (r : regex) (s : list N) := search_from r None s.

(** [re.sub(r, repl, s)]: the matches from the left, not overlapping, each
    replaced by [repl] of its groups; [skip] counts the characters of a
    match still to be passed over.  An empty match would put [repl] before
    the character it stands at; no pattern of the program has one. *)
Fixpoint sub_from (r : regex) (repl : list (nat * list N) -> list N)
    (prev : option N) (s : list N) (skip : nat) : list N :=
  match s with
  | [] =>
      match skip, match_at r prev [] with
      | O, Some (_, caps) => repl caps
      | _, _ => []
      end
  | c :: s' =>
      match skip with
      | S n => sub_from r repl (Some c) s' n
      | O =>
          match match_at r prev s with
          | Some (S n, caps) => repl caps ++ sub_from r repl (Some c) s' n
          | Some (O, caps) => repl caps ++ c :: sub_from r repl (Some c) s' 0
          | None => c :: sub_from r repl (Some c) s' 0
          end
      end
  end.

Definition re_sub (r : regex) (repl : list (nat * list N) -> list N)
    (s : list N) : list N :=
  sub_from r repl None s 0.

(** A replacement without group references. *)
Definition const_repl (t : list N) : list (nat * list N) -> list N :=
  fun _ => t.

(** ** Text Normalizer: [clean_text] *)

(** The entity replacements of [clean_text], in the order they are made. *)
Definition html_entities : list (list N * list N) :=
  [ (str "&quot;", [dquote]);
    (str "&ldquo;", [dquote]);
    (str "&rdquo;", [dquote]);
    (str "&lsquo;", [squote]);
    (str "&rsquo;", [squote]);
    (str "&apos;", [squote]);
    (str "&amp;", str "&");
    (str "&lt;", str "<");
    (str "&gt;", str ">");
    (str "&nbsp;", str " ") ].

(** The escape replacements, in the order they are made. *)
Definition escapes : list (list N * list N) :=
  [ ([backslash; dquote], [dquote]);
    ([backslash; squote], [squote]);
    ([backslash; backslash], [backslash]);
    (backslash :: str ".", str ".");
    (backslash :: str ",", str ",");
    (backslash :: str "!", str "!");
    (backslash :: str "?", str "?") ].

(** [text = text.replace(old, new)] for each pair of the table in turn. *)
Definition replace_all (table : list (list N * list N)) (s : list N) : list N :=
  fold_left (fun t '(old, new) => replace old new t) table s.

Definition is_printable (c : N) : bool :=
  in_range 32 126 c || (c =? nl) || (c =? tab).

(** [[^\x20-\x7E\n\t]] *)
Definition re_unprintable : regex := Cls (fun c => negb (is_printable c)).

(** [\s+!+\s+] *)
Definition re_lone_bangs : regex :=
  Seq (Plus is_space) (Seq (Plus (is_char bang)) (Plus is_space)).

(** [!{2,}] *)
Definition re_bangs : regex := Rep true 2 None (is_char bang).

(** [[^\w\s\.\,\!\?\-\(\)]] *)
Definition is_symbol (db : unicode_db) (c : N) : bool :=
  negb (is_word db c || is_space c || one_of (str ".,!?-()") c).

(** [\s+[^\w\s\.\,\!\?\-\(\)]+\s+] *)
Definition re_lone_symbols (db : unicode_db) : regex :=
  Seq (Plus is_space) (Seq (Plus (is_symbol db)) (Plus is_space)).

(** [\s+] *)
Definition re_spaces : regex := Plus is_space.

Definition clean_text (db : unicode_db) (text : list N) : list N :=
  match text with
  | [] => []
  | _ :: _ =>
      let text := replace_all html_entities text in
      let text := replace_all escapes text in
      let text := replace [backslash] [] text in
      let text := re_sub re_unprintable (const_repl []) text in
      let text := re_sub re_lone_bangs (const_repl (str " ")) text in
      let text := re_sub re_bangs (const_repl (str "!")) text in
      let text := re_sub (re_lone_symbols db) (const_repl (str " ")) text in
      let text := re_sub re_spaces (const_repl (str " ")) text in
      strip text
  end.

(** ** Markdown Cleaner: [clean_markdown_content] *)

(** [open(.*?)close], the text between as group 1. *)
Definition re_wrapped (open close : list N) : regex :=
  Seq (Lit open) (Seq (Grp 1 (LazyStar not_newline)) (Lit close)).

(** A link, [\[ ( [^\]]* ) \] \( [^)]* \)] (written here with blanks between
    its parts), the link text as group 1. *)
Definition re_link : regex :=
  Seq (Lit (str "["))
   (Seq (Grp 1 (Star (fun c => negb (is_char 93 c))))
    (Seq (Lit (str "]("))
     (Seq (Star (fun c => negb (is_char 41 c))) (Lit (str ")"))))).

(** [^[-*•]\s*], [^\d+\.\s*] and [^>\s*] under MULTILINE *)
Definition re_list_marker : regex :=
  Seq Bol (Seq (Cls (one_of [45; 42; bullet])) (Star is_space)).

Definition re_numbered (db : unicode_db) : regex :=
  Seq Bol (Seq (Plus (is_digit db)) (Seq (Lit (str ".")) (Star is_space))).

Definition re_blockquote : regex :=
  Seq Bol (Seq (Lit (str ">")) (Star is_space)).

(** [```(\w+)?\n(.*?)```] under DOTALL *)
Definition re_fence (db : unicode_db) : regex :=
  Seq (Lit (str "```"))
   (Seq (Opt (Grp 1 (Plus (is_word db))))
    (Seq (Cls (is_char nl))
     (Seq (Grp 2 (LazyStar any_char)) (Lit (str "```"))))).

(** [\n\s*\n] and [[ \t]+] *)
Definition re_blank_lines : regex :=
  Seq (Cls (is_char nl)) (Seq (Star is_space) (Cls (is_char nl))).

Definition re_blanks : regex := Plus (one_of [space; tab]).

Definition group1 (caps : list (nat * list N)) : list N := group 1 caps.

Definition code_block_marker : list N := str "CODE BLOCK:".

Definition clean_markdown_content (db : unicode_db) (markdown_content : list N)
    : list N :=
  match markdown_content with
  | [] => []
  | _ :: _ =>
      let content := re_sub (re_wrapped (str "**") (str "**")) group1 markdown_content in
      let content := re_sub (re_wrapped (str "*") (str "*")) group1 content in
      let content := re_sub (re_wrapped (str "_") (str "_")) group1 content in
      let content := re_sub (re_wrapped (str "`") (str "`")) group1 content in
      let content := re_sub re_link group1 content in
      let content := re_sub re_list_marker (const_repl []) content in
      let content := re_sub (re_numbered db) (const_repl []) content in
      let content := re_sub re_blockquote (const_repl []) content in
      let content :=
        re_sub (re_fence db)
               (fun caps => code_block_marker ++ [nl] ++ group 2 caps) content in
      let content := replace_all escapes content in
      let content := replace [backslash] [] content in
      let content := re_sub re_unprintable (const_repl []) content in
      let content := re_sub re_lone_bangs (const_repl (str " ")) content in
      let content := re_sub re_bangs (const_repl (str "!")) content in
      let content := re_sub re_blank_lines (const_repl [nl; nl]) content in
      let content := re_sub re_blanks (const_repl (str " ")) content in
      strip content
  end.

(** The fenced block of the specification's example. *)
Definition fence_example : list N :=
  str "```python" ++ [nl] ++ str "print(1)" ++ [nl] ++ str "```".

(** ** Image Classifier: [is_content_image], [extract_base_image_url] *)

Definition skip_patterns : list (list N) :=
  [ str "avatar"; str "profile"; str "user"; str "author"; str "writer";
    str "contributor";
    str "icon"; str "logo"; str "button"; str "badge"; str "emoji";
    str "social";
    str "thumb"; str "thumbnail"; str "small"; str "tiny"; str "mini";
    str "36x36"; str "48x48"; str "64x64"; str "128x128";
    str "w_36"; str "w_48"; str "w_64"; str "h_36"; str "h_48"; str "h_64";
    str "substack.com/@";
    str "bucketeer-e05bbc84-baa3-437e-9518-adb32be77984.s3.amazonaws.com" ].

Definition small_sizes : list (list N) :=
  [ str "w_36"; str "w_48"; str "w_64"; str "h_36"; str "h_48"; str "h_64" ].

Definition large_sizes : list (list N) :=
  [ str "w_520"; str "w_1456"; str "w_1024"; str "w_800"; str "h_272";
    str "h_1369"; str "h_1100" ].

Definition is_content_image (db : unicode_db) (src alt : list N) : bool :=
  let src_lower := lower db src in
  let alt_lower := lower db alt in
  if existsb (fun pattern => occurs pattern src_lower || occurs pattern alt_lower)
             skip_patterns
  then false
  else if existsb (fun size => occurs size src) small_sizes then false
  else if occurs (str "substack.com/@") src ||
          occurs (str "bucketeer-e05bbc84-baa3-437e-9518-adb32be77984.s3.amazonaws.com") src
  then false
  else if negb (str_eqb alt []) && (3 <? length alt)%nat then true
  else if existsb (fun size => occurs size src) large_sizes then true
  else true.

(** [[a-f0-9-]] *)
Definition is_id_char (c : N) : bool :=
  in_range 97 102 c || is_ascii_digit c || (c =? 45).

(** [([a-f0-9-]+)_\d+x\d+\.(png|jpg|jpeg)] *)
Definition re_image_id (db : unicode_db) : regex :=
  Seq (Grp 1 (Plus is_id_char))
   (Seq (Lit (str "_"))
    (Seq (Plus (is_digit db))
     (Seq (Lit (str "x"))
      (Seq (Plus (is_digit db))
       (Seq (Lit (str "."))
        (Grp 2 (Alt (Lit (str "png")) (Alt (Lit (str "jpg")) (Lit (str "jpeg")))))))))).

(** [([a-f0-9-]{20,})] *)
Definition re_unique_id : regex := Grp 1 (Rep true 20 None is_id_char).

(** [[?&]w=\d+], [[?&]h=\d+], [[?&]c_limit], [[?&]c_fill] *)
Definition is_query_sep (c : N) : bool := one_of (str "?&") c.

Definition re_size_param (db : unicode_db) (name : list N) : regex :=
  Seq (Cls is_query_sep) (Seq (Lit name) (Seq (Lit (str "=")) (Plus (is_digit db)))).

Definition re_crop_param (name : list N) : regex :=
  Seq (Cls is_query_sep) (Lit name).

(** The size parameters are removed from every URL that did not return a
    key in the CDN branch. *)
Definition strip_size_params (db : unicode_db) (url : list N) : list N :=
  let url := re_sub (re_size_param db (str "w")) (const_repl []) url in
  let url := re_sub (re_size_param db (str "h")) (const_repl []) url in
  let url := re_sub (re_crop_param (str "c_limit")) (const_repl []) url in
  let url := re_sub (re_crop_param (str "c_fill")) (const_repl []) url in
  url.

Definition extract_base_image_url (db : unicode_db) (url : list N) : list N :=
  match url with
  | [] => []
  | _ :: _ =>
      if occurs (str "substackcdn.com") url then
        match re_search (re_image_id db) url with
        | Some caps => str "image_id_" ++ group 1 caps
        | None =>
            match re_search re_unique_id url with
            | Some caps => str "unique_" ++ group 1 caps
            | None => strip_size_params db url
            end
        end
      else strip_size_params db url
  end.

(** ** Content Extractor: the parsed page

    The page as the HTML parser hands it over: elements with their tag,
    the values of their class attribute, their other attributes and their
    children; the strings between them; and what [get_text] leaves out
    (comments, declarations). *)

Inductive node :=
| Element (tag : list N) (classes : list (list N))
          (attrs : list (list N * list N)) (children : list node)
| TextNode (text : list N)
| Comment (text : list N).

Definition tag_of (n : node) : option (list N) :=
  match n with Element t _ _ _ => Some t | _ => None end.

Definition classes_of (n : node) : list (list N) :=
  match n with Element _ c _ _ => c | _ => [] end.

Definition children_of (n : node) : list node :=
  match n with Element _ _ _ ch => ch | _ => [] end.

Fixpoint assoc (key : list N) (l : list (list N * list N)) : option (list N) :=
  match l with
  | [] => None
  | (k, v) :: l' => if str_eqb k key then Some v else assoc key l'
  end.

(** [elem.get(name, '')] *)
Definition get_attr (name : list N) (n : node) : list N :=
  match n with
  | Element _ _ attrs _ => default [] (assoc name attrs)
  | _ => []
  end.

Definition has_tag (tags : list (list N)) (n : node) : bool :=
  match tag_of n with
  | Some t => existsb (str_eqb t) tags
  | None => false
  end.

(** A place in the tree: the child indices from the root down. *)
Definition path := list nat.

(** The first node below [n], in document order, that satisfies [p], and
    where it stands. *)
Fixpoint find_first (p : node -> bool) (n : node) : option (path * node) :=
  match n with
  | Element _ _ _ ch =>
      (fix go (i : nat) (l : list node) : option (path * node) :=
         match l with
         | [] => None
         | x :: l' =>
             if p x then Some ([i], x)
             else match find_first p x with
                  | Some (q, y) => Some (i :: q, y)
                  | None => go (S i) l'
                  end
         end) O ch
  | _ => None
  end.

(** Every node below [n] that satisfies [p], in document order:
    [n.find_all(...)]. *)
Fixpoint find_all (p : node -> bool) (n : node) : list node :=
  match n with
  | Element _ _ _ ch =>
      (fix go (l : list node) : list node :=
         match l with
         | [] => []
         | x :: l' => (if p x then [x] else []) ++ find_all p x ++ go l'
         end) ch
  | _ => []
  end.

Fixpoint node_at (n : node) (q : path) : option node :=
  match q with
  | [] => Some n
  | i :: q' =>
      match children_of n !! i with
      | Some x => node_at x q'
      | None => None
      end
  end.

Fixpoint update_at (f : node -> node) (n : node) (q : path) : node :=
  match q with
  | [] => f n
  | i :: q' =>
      match n with
      | Element t c a ch =>
          Element t c a (alter (fun x => update_at f x q') i ch)
      | _ => n
      end
  end.

(** [for elem in n.find_all(...): elem.decompose()]: every node below [n]
    that satisfies [p] leaves the tree, with all that is below it. *)
Fixpoint decompose_all (p : node -> bool) (n : node) : node :=
  match n with
  | Element t c a ch =>
      Element t c a
        ((fix go (l : list node) : list node :=
            match l with
            | [] => []
            | x :: l' => if p x then go l' else decompose_all p x :: go l'
            end) ch)
  | _ => n
  end.

(** The strings below [n], in document order. *)
Fixpoint strings_of (n : node) : list (list N) :=
  match n with
  | Element _ _ _ ch =>
      (fix go (l : list node) : list (list N) :=
         match l with
         | [] => []
         | x :: l' => strings_of x ++ go l'
         end) ch
  | TextNode t => [t]
  | Comment _ => []
  end.

(** [n.get_text(separator='\n', strip=True)] *)
Definition get_text (n : node) : list N :=
  join [nl]
    (List.filter (fun t => negb (str_eqb t [])) (List.map strip (strings_of n))).

(** CSS selectors as the program writes them: [name], [.class], [#id]. *)
Definition selector_matches (selector : list N) (n : node) : bool :=
  match selector with
  | 46 :: cls => existsb (str_eqb cls) (classes_of n)
  | 35 :: id =>
      match n with
      | Element _ _ attrs _ =>
          match assoc (str "id") attrs with
          | Some v => str_eqb v id
          | None => false
          end
      | _ => false
      end
  | name => has_tag [name] n
  end.

(** [soup.select_one(selector)] *)
Definition select_one (selector : list N) (soup : node) : option (path * node) :=
  find_first (selector_matches selector) soup.

Definition content_selectors : list (list N) :=
  [ str "article"; str ".post-content"; str ".entry-content"; str ".content";
    str ".post-body"; str "main"; str ".main-content"; str "#content";
    str ".article-content"; str ".post"; str ".entry"; str ".blog-post";
    str ".post-text"; str ".entry-text"; str ".post-body"; str ".content-body";
    str ".article-body"; str ".post-content"; str ".entry-content";
    str ".blog-entry"; str ".post-entry"; str "#primary" ].

(** [sidebar|navigation|menu|nav|ad|advertisement|social|share|comment|footer|header],
    searched for in the values of the class attribute. *)
Definition boilerplate_words : list (list N) :=
  [ str "sidebar"; str "navigation"; str "menu"; str "nav"; str "ad";
    str "advertisement"; str "social"; str "share"; str "comment";
    str "footer"; str "header" ].

Definition has_boilerplate_class (n : node) : bool :=
  existsb (fun cls => existsb (fun w => occurs w cls) boilerplate_words)
          (classes_of n).

(** ** Content Extractor: choosing the content area *)

(** What the fetch and the outside libraries do: [fetch_page] is the page
    as parsed ([None] when the request or the parse raises), [h2t_handle]
    the markdown conversion of the chosen element or, without one, of the
    text ([None] when it raises), [fetch_rss_feed] the entries of the feed,
    [image_loads] whether the download of an image (its alternates tried)
    ends with a picture, [now] the formatted time of the run. *)
Record article := Article {
  title : list N;
  link : list N;
  published : list N;
  author : list N
}.

Record world := World {
  fetch_page : list N -> option node;
  h2t_handle : node + list N -> option (list N);
  fetch_rss_feed : list N -> list article;
  image_loads : list N -> bool;
  now : list N
}.

(** The variables of the selection loop of [extract_article_content]: the
    tree (stripped in place), [content], [used_selector], [content_elem].
    [content_elem] is never changed after it was last assigned, so it is kept
    as the element itself. *)
Record selection := Selection {
  sel_soup : node;
  sel_content : option (list N);
  sel_used : option (list N);
  sel_elem : option node
}.

Definition strip_boilerplate (elem : node) : node :=
  decompose_all has_boilerplate_class
    (decompose_all (has_tag [str "nav"; str "header"; str "footer"; str "aside"])
       elem).

(** [for selector in content_selectors: ...], leaving at the first selector
    whose text is longer than 500. *)
Fixpoint try_selectors (selectors : list (list N)) (st : selection) : selection :=
  match selectors with
  | [] => st
  | selector :: rest =>
      match select_one selector (sel_soup st) with
      | None =>
          try_selectors rest
            (Selection (sel_soup st) (sel_content st) (sel_used st) None)
      | Some (q, elem) =>
          let elem := strip_boilerplate elem in
          let soup := update_at (fun _ => elem) (sel_soup st) q in
          let content := get_text elem in
          if (500 <? length content)%nat
          then Selection soup (Some content) (Some selector) (Some elem)
          else try_selectors rest
                 (Selection soup (Some content) (sel_used st) (Some elem))
      end
  end.

(** [if x:] for a string or [None]. *)
Definition truthy (x : option (list N)) : bool :=
  match x with Some (_ :: _) => true | _ => false end.

(** [if not content: body = soup.find('body') ...] *)
Definition body_fallback (st : selection) : selection :=
  if truthy (sel_content st) then st
  else
    match find_first (has_tag [str "body"]) (sel_soup st) with
    | Some (q, body) =>
        let body :=
          decompose_all
            (has_tag [str "nav"; str "header"; str "footer"; str "aside";
                      str "script"; str "style"]) body in
        Selection (update_at (fun _ => body) (sel_soup st) q)
                  (Some (get_text body)) (Some (str "body")) (Some body)
    | None => st
    end.

Definition select_content (soup : node) : selection :=
  body_fallback (try_selectors content_selectors (Selection soup None None None)).

(** ** Content Extractor: the images of the content area *)

(** One turn of [for img in images: ...]: [seen_urls] and
    [self.current_article_images]. *)
Definition collect_image (db : unicode_db)
    (st : gset (list N) * list (list N * list N)) (img : node)
    : gset (list N) * list (list N * list N) :=
  let '(seen_urls, kept) := st in
  let src := get_attr (str "src") img in
  let alt := get_attr (str "alt") img in
  if negb (str_eqb src []) && startswith (str "http") src then
    if is_content_image db src alt then
      let base_url := extract_base_image_url db src in
      if bool_decide (base_url ∈ seen_urls) then st
      else ({[ base_url ]} ∪ seen_urls, kept ++ [(src, alt)])
    else st
  else st.

Definition collect_images (db : unicode_db) (images : list node)
    : list (list N * list N) :=
  snd (fold_left (collect_image db) images (∅, [])).

(** [structure_content] *)
Definition structure_content (content : list N) : list N :=
  match content with
  | [] => []
  | _ :: _ =>
      join [nl; nl]
        (List.filter (fun paragraph => negb (str_eqb paragraph []) &&
                                       (20 <? length paragraph)%nat)
                     (List.map strip (split [nl; nl] content)))
  end.

(** The converter's own state: [self.current_article_images], absent until
    an extraction sets it. *)
Record converter := Converter {
  current_article_images : option (list (list N * list N))
}.

Definition extract_article_content (db : unicode_db) (w : world)
    (self : converter) (article_url : list N) : option (list N) * converter :=
  let clean_url := hd [] (split (str "#") article_url) in
  match fetch_page w clean_url with
  | None => (None, self)
  | Some soup =>
      let soup :=
        decompose_all (has_tag [str "script"; str "style"; str "noscript"]) soup in
      let sel := select_content soup in
      if truthy (sel_content sel) then
        let images :=
          match sel_elem sel with
          | Some elem => collect_images db (find_all (has_tag [str "img"]) elem)
          | None => []
          end in
        let self := Converter (Some images) in
        let content := structure_content (default [] (sel_content sel)) in
        match h2t_handle w (match sel_elem sel with
                            | Some elem => inl elem
                            | None => inr content
                            end) with
        | Some markdown_content =>
            (Some (clean_markdown_content db markdown_content), self)
        | None => (None, self)
        end
      else (None, self)
  end.

(** ** Line Classifier *)

(** [s.isupper()] *)
Definition char_islower (db : unicode_db) (c : N) : bool :=
  if is_ascii c then is_ascii_lower c else uni_islower db c.
Definition char_isupper (db : unicode_db) (c : N) : bool :=
  if is_ascii c then is_ascii_upper c else uni_isupper db c.
Definition char_istitle (db : unicode_db) (c : N) : bool :=
  if is_ascii c then false else uni_istitle db c.

Definition isupper (db : unicode_db) (s : list N) : bool :=
  forallb (fun c => negb (char_islower db c || char_istitle db c)) s &&
  existsb (char_isupper db) s.

Definition hash : N := 35.

(** [^#{1,6}\s+] *)
Definition re_md_heading : regex :=
  Seq Bos (Seq (Rep true 1 (Some 6%nat) (is_char hash)) (Plus is_space)).

(** [^Q:\s*] under IGNORECASE *)
Definition re_faq : regex :=
  Seq Bos (Seq (Cls (one_of (str "Qq"))) (Seq (Lit (str ":")) (Star is_space))).

(** [^[A-Z][A-Za-z\s]+:$], and the same with [\?] and [\.] for the colon *)
Definition re_title_line (last : list N) : regex :=
  Seq Bos
   (Seq (Cls is_ascii_upper)
    (Seq (Plus (fun c => is_ascii_alpha c || is_space c))
     (Seq (Lit last) Eos))).

Definition heading_patterns : list regex :=
  [ re_title_line (str ":"); re_title_line (str "?"); re_title_line (str ".") ].

Definition is_some {A} (x : option A) : bool :=
  match x with Some _ => true | None => false end.

Definition is_heading (db : unicode_db) (line : list N) : bool :=
  let line := strip line in
  if is_some (re_match re_md_heading line) then true
  else if is_some (re_match re_faq line) then true
  else if isupper db line && (3 <? length line)%nat && (length line <? 100)%nat
  then true
  else existsb (fun pattern => is_some (re_match pattern line)) heading_patterns.

(** [^\d+\.] *)
Definition re_number_dot (db : unicode_db) : regex :=
  Seq Bos (Seq (Plus (is_digit db)) (Lit (str "."))).

Definition is_list_item (db : unicode_db) (line : list N) : bool :=
  let clean_line := replace [backslash] [] line in
  startswith (str "- ") clean_line || startswith (str "* ") clean_line ||
  startswith [bullet; space] clean_line ||
  is_some (re_match (re_number_dot db) clean_line).

(** ** Document Assembler: layout blocks *)

Inductive style :=
| title_style | subtitle_style | section_style | meta_style | content_style
| quote_style | list_style | image_style | code_style.

(** What the story holds.  An [Image] names the URL it was asked for. *)
Inductive block :=
| Paragraph (text : list N) (st : style)
| Spacer (width height : N)
| PageBreak
| Image (url : list N).

(** [add_code_block_to_story] *)
Definition add_code_block_to_story (lines : list (list N)) (story : list block)
    : list block :=
  match lines with
  | [] => story
  | _ :: _ =>
      story ++ [Paragraph (str "<b>Code Block:</b><br/>" ++ join [nl] lines) code_style]
  end.

(** [add_image_to_story]: the picture between two spacers, or the
    placeholder line when no download gives one. *)
Definition add_image_to_story (w : world) (image_url alt_text : list N)
    (story : list block) : list block :=
  if image_loads w image_url
  then story ++ [Spacer 1 16; Image image_url; Spacer 1 16]
  else story ++
       [Paragraph (str "[Image: " ++
                   (match alt_text with [] => str "Article image" | _ => alt_text end) ++
                   str " - Failed to load]") image_style].

(** [s.lstrip('#')] *)
Fixpoint lstrip_hash (s : list N) : list N :=
  match s with
  | c :: s' => if c =? hash then lstrip_hash s' else s
  | [] => []
  end.

(** [^#+\s*] *)
Definition re_hashes : regex := Seq Bos (Seq (Plus (is_char hash)) (Star is_space)).

Definition add_heading_to_story (line : list N) (story : list block) : list block :=
  let clean_line := strip line in
  let '(heading_level, clean_line) :=
    if startswith [hash] clean_line
    then ((length clean_line - length (lstrip_hash clean_line))%nat,
          re_sub re_hashes (const_repl []) clean_line)
    else (O, clean_line) in
  let clean_line := strip clean_line in
  match clean_line with
  | [] => story
  | _ :: _ =>
      let st :=
        if (3 <=? heading_level)%nat || startswith (str "###") line then section_style
        else if (2 <=? heading_level)%nat || startswith (str "##") line then subtitle_style
        else section_style in
      story ++ [Paragraph clean_line st; Spacer 1 8]
  end.

(** [^[-*•]\s*] and [^\d+\.\s*], here without MULTILINE *)
Definition re_list_marker_start : regex :=
  Seq Bos (Seq (Cls (one_of [45; 42; bullet])) (Star is_space)).

Definition re_numbered_start (db : unicode_db) : regex :=
  Seq Bos (Seq (Plus (is_digit db)) (Seq (Lit (str ".")) (Star is_space))).

Definition add_list_item_to_story (db : unicode_db) (line : list N)
    (story : list block) : list block :=
  let clean_line := replace [backslash] [] line in
  let clean_line := re_sub re_list_marker_start (const_repl []) clean_line in
  let clean_line := re_sub (re_numbered_start db) (const_repl []) clean_line in
  let clean_line := strip clean_line in
  match clean_line with
  | [] => story
  | _ :: _ => story ++ [Paragraph ([bullet; space] ++ clean_line) list_style]
  end.

(** [\s*] then a double or single quote, then [$] *)
Definition re_closing_quote : regex :=
  Seq (Star is_space) (Seq (Cls (one_of [dquote; squote])) Eos).

(** [add_quote_to_story]: of its three substitutions, each made on [line],
    the last one is the one kept. *)
Definition add_quote_to_story (line : list N) (story : list block) : list block :=
  let clean_line := re_sub re_closing_quote (const_repl []) line in
  let clean_line := strip clean_line in
  match clean_line with
  | [] => story
  | _ :: _ => story ++ [Paragraph clean_line quote_style; Spacer 1 8]
  end.

(** ** Document Assembler: [add_formatted_content_to_story] *)

(** The image line of markdown: [!\[], group 1 up to the bracket, [\](],
    group 2 up to the parenthesis, [\)]. *)
Definition re_md_image : regex :=
  Seq (Lit (str "!["))
   (Seq (Grp 1 (Star (fun c => negb (is_char 93 c))))
    (Seq (Lit (str "]("))
     (Seq (Grp 2 (Star (fun c => negb (is_char 41 c)))) (Lit (str ")"))))).

(** [([a-f0-9-]+)_(\d+x\d+)\.(png|jpg|jpeg)] *)
Definition re_image_id_dims (db : unicode_db) : regex :=
  Seq (Grp 1 (Plus is_id_char))
   (Seq (Lit (str "_"))
    (Seq (Grp 2 (Seq (Plus (is_digit db)) (Seq (Lit (str "x")) (Plus (is_digit db)))))
     (Seq (Lit (str "."))
      (Grp 3 (Alt (Lit (str "png")) (Alt (Lit (str "jpg")) (Lit (str "jpeg")))))))).

Definition cdn_prefix : list N :=
  str "https://substackcdn.com/image/fetch/w_1456,c_limit,f_auto,q_auto:good,fl_progressive:steep/https://substack-post-media.s3.amazonaws.com/public/images/".

(** The loop variables: [current_code_block], [image_index], [story]. *)
Record fmt_state := Fmt {
  fmt_code : list (list N);
  fmt_index : nat;
  fmt_story : list block
}.

Definition image_words : list (list N) :=
  [ str "image"; str "figure"; str "chart"; str "graph" ].

Definition mentions_image (db : unicode_db) (images : list (list N * list N))
    (line : list N) : bool :=
  existsb (fun '(_, img_alt) =>
             negb (str_eqb img_alt []) && occurs (lower db img_alt) (lower db line))
          images ||
  existsb (fun word => occurs word (lower db line)) image_words.

(** From the markdown image fallback on: the line is no heading, quote or
    list item and no stored image was placed for it. *)
Definition format_plain_line (db : unicode_db) (w : world) (st : fmt_state)
    (line : list N) : fmt_state :=
  if startswith (str "![") line && occurs (str "](") line then
    match re_match re_md_image line with
    | Some (_, caps) =>
        let alt_text := group 1 caps in
        let image_url := group 2 caps in
        let image_url :=
          if occurs (str "substackcdn.com") image_url && occurs (str "$s!") image_url
          then match re_search (re_image_id_dims db) image_url with
               | Some ids =>
                   cdn_prefix ++ group 1 ids ++ str "_" ++ group 2 ids ++ str ".png"
               | None => image_url
               end
          else image_url in
        Fmt (fmt_code st) (fmt_index st)
            (add_image_to_story w image_url alt_text (fmt_story st))
    | None => st
    end
  else
    Fmt (fmt_code st) (fmt_index st)
        (fmt_story st ++ [Paragraph line content_style; Spacer 1 8]).

(** One turn of [for line in lines: ...]. *)
Definition format_line (db : unicode_db) (w : world) (self : converter)
    (st : fmt_state) (line : list N) : fmt_state :=
  let line := strip line in
  match line with
  | [] => st
  | _ :: _ =>
      if startswith code_block_marker line then
        match fmt_code st with
        | [] => st
        | _ :: _ =>
            Fmt [] (fmt_index st) (add_code_block_to_story (fmt_code st) (fmt_story st))
        end
      else
        match fmt_code st with
        | _ :: _ => Fmt (fmt_code st ++ [line]) (fmt_index st) (fmt_story st)
        | [] =>
            if is_heading db line then
              Fmt (fmt_code st) (fmt_index st)
                  (add_heading_to_story line (fmt_story st))
            else if startswith (str ">") line then
              Fmt (fmt_code st) (fmt_index st)
                  (add_quote_to_story line (fmt_story st))
            else if is_list_item db line then
              Fmt (fmt_code st) (fmt_index st)
                  (add_list_item_to_story db line (fmt_story st))
            else
              let images := default [] (current_article_images self) in
              match images !! fmt_index st with
              | Some (img_url, img_alt) =>
                  if mentions_image db images line
                  then Fmt (fmt_code st) (S (fmt_index st))
                           (add_image_to_story w img_url img_alt (fmt_story st))
                  else format_plain_line db w st line
              | None => format_plain_line db w st line
              end
        end
  end.

Definition add_formatted_content_to_story (db : unicode_db) (w : world)
    (self : converter) (content : list N) (story : list block) : list block :=
  let lines := split [nl] content in
  let st := fold_left (format_line db w self) lines (Fmt [] O story) in
  let story := add_code_block_to_story (fmt_code st) (fmt_story st) in
  fold_left (fun story '(img_url, img_alt) => add_image_to_story w img_url img_alt story)
            (drop (fmt_index st) (default [] (current_article_images self)))
            story.

(** ** Document Assembler: [create_pdf] *)

(** [str(n)] *)
Definition decimal (n : nat) : list N := str (NilZero.string_of_uint (Nat.to_uint n)).

(** [articles[:max_articles]] *)
Definition slice_to {A} (m : Z) (l : list A) : list A :=
  if (0 <=? m)%Z then take (Z.to_nat m) l
  else take (length l - Z.to_nat (- m))%nat l.

Definition placeholder : list N := str "Content could not be extracted.".

Definition title_page (w : world) (feed_url : list N) (n : nat) : list block :=
  [ Paragraph (str "RSS Articles") title_style;
    Spacer 1 20;
    Paragraph (str "Feed: " ++ feed_url) meta_style;
    Paragraph (str "Generated: " ++ now w) meta_style;
    Paragraph (str "Articles: " ++ decimal n) meta_style;
    PageBreak ].

(** The title and metadata blocks of one article. *)
Definition article_header (a : article) (story : list block) : list block :=
  let story := story ++ [Paragraph (title a) subtitle_style; Spacer 1 8] in
  let story :=
    match author a with
    | [] => story
    | _ :: _ => story ++ [Paragraph (str "By: " ++ author a) meta_style]
    end in
  let story :=
    match published a with
    | [] => story
    | _ :: _ => story ++ [Paragraph (str "Published: " ++ published a) meta_style]
    end in
  story ++ [Paragraph (str "URL: " ++ link a) meta_style; Spacer 1 12].

(** One turn of [for i, article in enumerate(articles, 1): ...], [n] being
    [len(articles)]. *)
Definition process_article (db : unicode_db) (w : world) (n : nat)
    (st : converter * list block) (i : nat) (a : article)
    : converter * list block :=
  let '(self, story) := st in
  let story := article_header a story in
  let '(content, self) := extract_article_content db w self (link a) in
  let story :=
    if truthy content
    then add_formatted_content_to_story db w self (default [] content) story
    else story ++ [Paragraph placeholder content_style] in
  let story := if (i <? n)%nat then story ++ [PageBreak] else story in
  (self, story).

Fixpoint process_articles (db : unicode_db) (w : world) (n : nat)
    (st : converter * list block) (i : nat) (articles : list article)
    : converter * list block :=
  match articles with
  | [] => st
  | a :: rest => process_articles db w n (process_article db w n st i a) (S i) rest
  end.

(** [if max_articles: articles = articles[:max_articles]] *)
Definition cap_articles (max_articles : option Z) (articles : list article)
    : list article :=
  match max_articles with
  | Some m => if (m =? 0)%Z then articles else slice_to m articles
  | None => articles
  end.

(** [create_pdf]: the story handed to the document builder, or [None] when
    the feed gave no article and nothing is built. *)
Definition create_pdf (db : unicode_db) (w : world) (self : converter)
    (feed_url : list N) (max_articles : option Z) : option (list block) :=
  match fetch_rss_feed w feed_url with
  | [] => None
  | (_ :: _) as articles =>
      let articles := cap_articles max_articles articles in
      let story := title_page w feed_url (length articles) in
      Some (snd (process_articles db w (length articles) (self, story) 1 articles))
  end.

(** ** Feed health: [suggest_alternative_feeds] *)

Definition slash : N := 47.

(** [s.rstrip('/')], by way of the same from the left *)
Fixpoint lstrip_char (a : N) (s : list N) : list N :=
  match s with
  | c :: s' => if c =? a then lstrip_char a s' else s
  | [] => []
  end.

Definition rstrip_char (a : N) (s : list N) : list N :=
  rev (lstrip_char a (rev s)).

(** [s.endswith(suffix)] *)
Definition endswith (suffix s : list N) : bool :=
  startswith (rev suffix) (rev s).

Definition common_patterns : list (list N) :=
  [ str "/feed"; str "/rss"; str "/atom"; str "/feed.xml"; str "/rss.xml";
    str "/atom.xml"; str "/feed/rss"; str "/feed/atom"; str "/blog/feed";
    str "/news/feed"; str "/articles/feed"; str "/posts/feed" ].

Definition feed_suffixes : list (list N) :=
  [ str "/feed"; str "/rss"; str "/atom"; str "/feed.xml"; str "/rss.xml";
    str "/atom.xml" ].

(** [for suffix in ...: if base_url.endswith(suffix):
    base_url = base_url[:-len(suffix)]; break] *)
Fixpoint remove_suffix (suffixes : list (list N)) (base_url : list N) : list N :=
  match suffixes with
  | [] => base_url
  | suffix :: rest =>
      if endswith suffix base_url
      then take (length base_url - length suffix) base_url
      else remove_suffix rest base_url
  end.

Definition suggest_alternative_feeds (original_url : list N) : list (list N) :=
  let base_url := rstrip_char slash original_url in
  let base_url := remove_suffix feed_suffixes base_url in
  let suggestions :=
    List.filter (fun suggestion => negb (str_eqb suggestion original_url))
                (List.map (fun pattern => base_url ++ pattern) common_patterns) in
  if occurs (str "blog") original_url || occurs (str "news") original_url
  then suggestions ++ [ base_url ++ str "/blog/feed";
                        base_url ++ str "/news/feed";
                        base_url ++ str "/articles/feed" ]
  else suggestions.

(** ** Vocabulary of the properties *)

(** A page whose only candidate content area, an [article] element, holds a
    short text, next to a [div] that no selector of the table names. *)
Definition short_article_page : node :=
  Element (str "[document]") [] []
    [ Element (str "html") [] []
        [ Element (str "body") [] []
            [ Element (str "article") [] [] [TextNode (str "Short note.")];
              Element (str "div") [str "story"] []
                [TextNode (str "The story itself, in a container of its own.")] ] ] ].

(** What the code block pattern makes of the example when it is applied to
    the text as it came in. *)
Definition fence_rewritten (db : unicode_db) (s : list N) : list N :=
  strip (re_sub (re_fence db)
                (fun caps => code_block_marker ++ [nl] ++ group 2 caps) s).

(** What the image loop reads off an [img] element, whether the loop
    considers it at all, and the key it is deduplicated by. *)
Definition image_of (img : node) : list N * list N :=
  (get_attr (str "src") img, get_attr (str "alt") img).

Definition eligible (db : unicode_db) (im : list N * list N) : bool :=
  negb (str_eqb (fst im) []) && startswith (str "http") (fst im) &&
  is_content_image db (fst im) (snd im).

Definition image_key (db : unicode_db) (im : list N * list N) : list N :=
  extract_base_image_url db (fst im).

(** The first occurrence of every key, in the order of the list. *)
Fixpoint first_seen {A} (key : A -> list N) (l : list A) : list A :=
  match l with
  | [] => []
  | x :: l' => x :: filter (fun y => key y <> key x) (first_seen key l')
  end.

(** A text that [lower] leaves as it is wherever it stands: ASCII, no
    capital letter. *)
Definition lower_stable (p : list N) : bool :=
  forallb (fun c => is_ascii c && negb (is_ascii_upper c)) p.

(** The blocks one article adds to the story, the separator apart, and the
    converter it leaves behind. *)
Definition article_section (db : unicode_db) (w : world) (self : converter)
    (a : article) : list block :=
  snd (process_article db w 0 (self, []) 0 a).

Definition after_article (db : unicode_db) (w : world) (self : converter)
    (a : article) : converter :=
  fst (process_article db w 0 (self, []) 0 a).

Fixpoint sections (db : unicode_db) (w : world) (self : converter)
    (articles : list article) : list (list block) :=
  match articles with
  | [] => []
  | a :: rest =>
      article_section db w self a :: sections db w (after_article db w self a) rest
  end.

Fixpoint after_articles (db : unicode_db) (w : world) (self : converter)
    (articles : list article) : converter :=
  match articles with
  | [] => self
  | a :: rest => after_articles db w (after_article db w self a) rest
  end.

Definition is_image (b : block) : bool :=
  match b with Image _ => true | _ => false end.

Definition is_page_break (b : block) : bool :=
  match b with PageBreak => true | _ => false end.

(** [f] adds the same blocks, none of them a page break, to whatever story
    it is given. *)
Definition appends (f : list block -> list block) : Prop :=
  exists blocks,
    Forall (fun b => is_page_break b = false) blocks /\
    forall story, f story = story ++ blocks.

(** The same for a step of the formatting loop, whose other variables do
    not depend on the story. *)
Definition fmt_appends (g : fmt_state -> fmt_state) : Prop :=
  forall code index, exists code' index' blocks,
    Forall (fun b => is_page_break b = false) blocks /\
    forall story, g (Fmt code index story) = Fmt code' index' (story ++ blocks).

(** A small world to try the assembler in: a feed of two entries, the page
    of the first with an [article] element of some length and two pictures
    of one image, the page of the second out of reach. *)
Definition demo_page : node :=
  Element (str "[document]") [] []
    [ Element (str "html") [] []
        [ Element (str "body") [] []
            [ Element (str "nav") [] [] [TextNode (str "Home")];
              Element (str "article") [] []
                [ Element (str "p") [] []
                    [TextNode (concat (replicate 60 (str "All the news. ")))];
                  Element (str "img") []
                    [(str "src", str "http://host/a.png?w=100"); (str "alt", str "")] [];
                  Element (str "img") []
                    [(str "src", str "http://host/a.png?w=800"); (str "alt", str "")] [] ] ] ] ].

Definition demo_world : world :=
  World (fun url => if str_eqb url (str "http://host/one") then Some demo_page else None)
        (fun x => match x with inl elem => Some (get_text elem) | inr text => Some text end)
        (fun _ => [ Article (str "One") (str "http://host/one#top") [] (str "A. Writer");
                    Article (str "Two") (str "http://host/two") (str "today") [] ])
        (fun _ => true)
        (str "2026-01-01 00:00").

(** The length of the longest prefix of [s] in the class [p]. *)
Fixpoint span (p : N -> bool) (s : list N) : nat :=
  match s with
  | c :: s' => if p c then S (span p s') else O
  | [] => O
  end.

(** No two neighbours of [s] are both in the class [p]. *)
Fixpoint no_adj (p : N -> bool) (s : list N) : bool :=
  match s with
  | a :: s' =>
      match s' with
      | b :: _ => negb (p a && p b) && no_adj p s'
      | [] => true
      end
  | [] => true
  end.

(** [s] does not start with a character of the class [p]. *)
Definition head_out (p : N -> bool) (s : list N) : bool :=
  match s with
  | c :: _ => negb (p c)
  | [] => true
  end.

(** What [clean_text] lets through: printable ASCII, the backslash apart. *)
Definition clean_char (c : N) : bool :=
  in_range 32 126 c && negb (c =? backslash).

(** The size and crop parameters [extract_base_image_url] removes, and a
    URL whose query consists of such parameters only. *)
Inductive size_param :=
| Width (digits : list N)
| Height (digits : list N)
| CropLimit
| CropFill.

Definition param_text (p : size_param) : list N :=
  match p with
  | Width digits => str "w=" ++ digits
  | Height digits => str "h=" ++ digits
  | CropLimit => str "c_limit"
  | CropFill => str "c_fill"
  end.

(** A width or a height is a number of at least one digit. *)
Definition param_ok (db : unicode_db) (p : size_param) : bool :=
  match p with
  | Width digits | Height digits =>
      negb (str_eqb digits []) && forallb (is_digit db) digits
  | CropLimit | CropFill => true
  end.

Definition query (params : list size_param) : list N :=
  match params with
  | [] => []
  | p :: rest =>
      str "?" ++ param_text p ++ flat_map (fun q => str "&" ++ param_text q) rest
  end.

Definition sized_url (path : list N) (params : list size_param) : list N :=
  path ++ query params.

(** The four substitutions of [strip_size_params] and the parameter each
    one is after. *)
Inductive param_kind := KWidth | KHeight | KLimit | KFill.

Definition kind_of (p : size_param) : param_kind :=
  match p with
  | Width _ => KWidth
  | Height _ => KHeight
  | CropLimit => KLimit
  | CropFill => KFill
  end.

Definition same_kind (k : param_kind) (p : size_param) : bool :=
  match k, kind_of p with
  | KWidth, KWidth | KHeight, KHeight | KLimit, KLimit | KFill, KFill => true
  | _, _ => false
  end.

Definition pass_regex (db : unicode_db) (k : param_kind) : regex :=
  match k with
  | KWidth => re_size_param db (str "w")
  | KHeight => re_size_param db (str "h")
  | KLimit => re_crop_param (str "c_limit")
  | KFill => re_crop_param (str "c_fill")
  end.

(** A query as separators and parameters. *)
Definition seg_text (seg : N * size_param) : list N :=
  fst seg :: param_text (snd seg).

Definition seg_ok (db : unicode_db) (seg : N * size_param) : bool :=
  is_query_sep (fst seg) && param_ok db (snd seg).

Definition segs_of (params : list size_param) : list (N * size_param) :=
  match params with
  | [] => []
  | p :: rest => (63, p) :: List.map (fun q => (38, q)) rest
  end.

(** A text [clean_text] has nothing left to do on, as far as its input
    decides: none of the entities occurs in it, and neither the pattern of
    the lone exclamation marks nor that of the lone symbols matches. *)
Definition stable (db : unicode_db) (y : list N) : bool :=
  forallb (fun entity => negb (occurs (fst entity) y)) html_entities &&
  negb (is_some (re_search re_lone_bangs y)) &&
  negb (is_some (re_search (re_lone_symbols db) y)).

(** The least number of characters a match of [r] takes. *)
Fixpoint min_len (r : regex) : nat :=
  match r with
  | Eps | Bol | Bos | Eos | Opt _ => O
  | Cls _ => 1
  | Seq r1 r2 => min_len r1 + min_len r2
  | Alt r1 r2 => Nat.min (min_len r1) (min_len r2)
  | Rep _ lo _ _ => lo
  | Grp _ r1 => min_len r1
  end.

(** The patterns the program hands to [re.sub]. *)
Definition sub_patterns (db : unicode_db) : list regex :=
  [ re_unprintable; re_lone_bangs; re_bangs; re_lone_symbols db; re_spaces;
    re_wrapped (str "**") (str "**"); re_wrapped (str "*") (str "*");
    re_wrapped (str "_") (str "_"); re_wrapped (str "`") (str "`");
    re_link; re_list_marker; re_numbered db; re_blockquote; re_fence db;
    re_blank_lines; re_blanks;
    re_size_param db (str "w"); re_size_param db (str "h");
    re_crop_param (str "c_limit"); re_crop_param (str "c_fill");
    re_hashes; re_list_marker_start; re_numbered_start db; re_closing_quote ].

(** Boolean comparisons as propositions, for [lia]. *)
Ltac bool_arith :=
  rewrite ?orb_true_iff, ?andb_true_iff, ?orb_false_iff, ?andb_false_iff,
    ?negb_true_iff, ?negb_false_iff,
    ?N.eqb_eq, ?N.eqb_neq, ?N.leb_le, ?N.leb_gt, ?N.ltb_lt, ?N.ltb_ge in *.

(** What [clean_markdown_content] lets through: printable ASCII and the
    line feed, the backslash apart. *)
Definition md_char (c : N) : bool :=
  (in_range 32 126 c || (c =? nl)) && negb (c =? backslash).

(** A test on a node that looks at the node itself only, not at what is
    below it. *)
Definition shallow (p : node -> bool) : Prop :=
  forall t c a ch ch', p (Element t c a ch) = p (Element t c a ch').

(** The blocks of the story by kind: a code block, and the block that
    stands for an image, the picture or the line that says it failed. *)
Definition is_code_block (b : block) : bool :=
  match b with Paragraph _ code_style => true | _ => false end.

Definition is_image_slot (b : block) : bool :=
  match b with
  | Image _ => true
  | Paragraph _ image_style => true
  | _ => false
  end.

Definition image_slot (w : world) (im : list N * list N) : block :=
  if image_loads w (fst im) then Image (fst im)
  else Paragraph (str "[Image: " ++
                  (match snd im with [] => str "Article image" | _ => snd im end) ++
                  str " - Failed to load]") image_style.

Definition is_flow_block (b : block) : bool :=
  negb (is_page_break b) && negb (is_code_block b).

Definition is_text_block (b : block) : bool :=
  is_flow_block b && negb (is_image_slot b).

(** [f] adds the same text blocks to whatever story it is given. *)
Definition adds_text (f : list block -> list block) : Prop :=
  exists blocks,
    forallb is_text_block blocks = true /\
    forall story, f story = story ++ blocks.

(** A line that the markdown image fallback of the formatting loop takes
    for an image. *)
Definition md_image_line (line : list N) : bool :=
  startswith (str "![") (strip line) && occurs (str "](") (strip line).


(** Neither [n] nor a node below it satisfies [r]. *)
Definition free_of (r : node -> bool) (n : node) : Prop :=
  r n = false /\ find_all r n = [].

(** A paragraph as [structure_content] keeps it: no blank line inside, no
    line feed at its end. *)
Definition paragraph_text (p : list N) : Prop :=
  no_adj (is_char nl) p = true /\ head_out (is_char nl) (rev p) = true.

(** * Properties *)

(** ** Markdown Cleaner *)

(** C1 (as the code has it): on the example fence the cleaner returns the text with one
    backquote left at each end, and no [CODE BLOCK:] marker: the inline-code
    substitution has already taken the backquotes in pairs when the code
    block pattern is tried. *)
Theorem clean_markdown_fence_example (db : unicode_db) :
  clean_markdown_content db fence_example
  = str "`python" ++ [nl] ++ str "print(1)" ++ [nl] ++ str "`".
Proof. vm_compute. reflexivity. Qed.

(** The code block pattern alone does on the example what the
    specification describes. *)
Lemma fence_pattern_alone (db : unicode_db) :
  fence_rewritten db fence_example = str "CODE BLOCK:" ++ [nl] ++ str "print(1)".
Proof. vm_compute. reflexivity. Qed.

(** ** Content Extractor: the choice of the content area *)

(** No selector of the table finds more than 500 characters on
    [short_article_page]. *)
Lemma short_article_page_under_threshold :
  Forall (fun selector =>
            match select_one selector short_article_page with
            | Some (_, elem) => (length (get_text (strip_boilerplate elem)) <= 500)%nat
            | None => True
            end) content_selectors.
Proof.
  repeat constructor; vm_compute; try exact I; intros H; discriminate H.
Qed.

(** The first selector whose text is longer than 500 wins, whatever comes
    after it in the table. *)
Lemma try_selectors_over_threshold (selector : list N) (rest : list (list N))
    (st : selection) (q : path) (elem : node) :
  select_one selector (sel_soup st) = Some (q, elem) ->
  (500 < length (get_text (strip_boilerplate elem)))%nat ->
  try_selectors (selector :: rest) st =
  Selection (update_at (fun _ => strip_boilerplate elem) (sel_soup st) q)
            (Some (get_text (strip_boilerplate elem))) (Some selector)
            (Some (strip_boilerplate elem)).
Proof.
  intros Hsel Hlen. cbn [try_selectors]. rewrite Hsel. cbv zeta.
  apply Nat.ltb_lt in Hlen. rewrite Hlen. reflexivity.
Qed.

(** A match that stays under the threshold is passed over, but its text
    stays in [content]. *)
Lemma try_selectors_under_threshold (selector : list N) (rest : list (list N))
    (st : selection) (q : path) (elem : node) :
  select_one selector (sel_soup st) = Some (q, elem) ->
  (length (get_text (strip_boilerplate elem)) <= 500)%nat ->
  try_selectors (selector :: rest) st =
  try_selectors rest
    (Selection (update_at (fun _ => strip_boilerplate elem) (sel_soup st) q)
               (Some (get_text (strip_boilerplate elem))) (sel_used st)
               (Some (strip_boilerplate elem))).
Proof.
  intros Hsel Hlen. cbn [try_selectors]. rewrite Hsel. cbv zeta.
  assert ((500 <? length (get_text (strip_boilerplate elem)))%nat = false) as ->
      by (apply Nat.ltb_ge, Hlen).
  reflexivity.
Qed.

(** The body is used only when [content] is empty after the loop. *)
Lemma body_fallback_only_without_content (st : selection) :
  truthy (sel_content st) = true -> body_fallback st = st.
Proof. intros H. unfold body_fallback. rewrite H. reflexivity. Qed.

(** On [demo_page] the [article] element is long enough and is chosen,
    its navigation-free text being the content. *)
Lemma select_content_demo_page :
  sel_used (select_content demo_page) = Some (str "article") /\
  (500 < length (default [] (sel_content (select_content demo_page))))%nat.
Proof. split; [reflexivity |]. vm_compute. lia. Qed.

(** C2 (as the code has it): with no selector over the threshold the loop leaves the text
    of the last match in [content], so the fallback to the body is not
    taken: the short text of the [article] element is what is used, with no
    content element and no selector recorded. *)
Theorem select_content_keeps_short_match :
  select_content short_article_page
  = Selection short_article_page (Some (str "Short note.")) None None.
Proof. vm_compute. reflexivity. Qed.

(** ** Content Extractor: the images kept *)

Lemma first_seen_sublist {A} (key : A -> list N) (l : list A) :
  sublist (first_seen key l) l.
Proof.
  induction l as [|x l IH]; simpl; [constructor |].
  apply sublist_skip. etrans; [apply sublist_filter | exact IH].
Qed.

Lemma first_seen_NoDup {A} (key : A -> list N) (l : list A) :
  NoDup (key <$> first_seen key l).
Proof.
  induction l as [|x l IH]; simpl; [constructor |].
  constructor.
  - rewrite list_elem_of_fmap. intros (y & Hy & Hin).
    apply list_elem_of_filter in Hin as [Hne _]. congruence.
  - eapply sublist_NoDup; [exact IH |].
    apply fmap_sublist, sublist_filter.
Qed.

Lemma filter_sublist_bool {A} (f : A -> bool) (l : list A) :
  sublist (List.filter f l) l.
Proof.
  induction l as [|x l IH]; simpl; [constructor |].
  destruct (f x); [apply sublist_skip | apply sublist_cons]; exact IH.
Qed.

Lemma filter_all {A} (P : A -> Prop) `{!forall x, Decision (P x)} (l : list A) :
  (forall x, P x) -> filter P l = l.
Proof.
  intros HP. induction l as [|x l IH]; [reflexivity |].
  rewrite filter_cons_True by apply HP. f_equal. exact IH.
Qed.

Lemma collect_image_step (db : unicode_db) (seen : gset (list N))
    (kept : list (list N * list N)) (img : node) :
  collect_image db (seen, kept) img =
  if eligible db (image_of img)
  then if bool_decide (image_key db (image_of img) ∈ seen) then (seen, kept)
       else ({[ image_key db (image_of img) ]} ∪ seen, kept ++ [image_of img])
  else (seen, kept).
Proof.
  unfold collect_image, eligible, image_key, image_of. simpl.
  destruct (negb _ && _); simpl; [| reflexivity].
  destruct (is_content_image _ _ _); reflexivity.
Qed.

Lemma collect_images_fold (db : unicode_db) (images : list node) :
  forall (seen : gset (list N)) (kept : list (list N * list N)),
    snd (fold_left (collect_image db) images (seen, kept)) =
    kept ++ filter (fun im => image_key db im ∉ seen)
              (first_seen (image_key db)
                 (List.filter (eligible db) (image_of <$> images))).
Proof.
  induction images as [|img images IH]; intros seen kept.
  - simpl. rewrite filter_nil, app_nil_r. reflexivity.
  - rewrite fmap_cons. cbn [fold_left List.filter].
    rewrite collect_image_step.
    destruct (eligible db (image_of img)) eqn:He; [| apply IH].
    cbn [first_seen].
    rewrite filter_cons. case_bool_decide as Hin.
    + rewrite IH. rewrite decide_False by (intros Hn; exact (Hn Hin)).
      f_equal. rewrite list_filter_filter. apply list_filter_iff.
      intros im. split; [intros Hs; split; [exact Hs | congruence] | tauto].
    + rewrite IH. rewrite decide_True by exact Hin.
      rewrite <- app_assoc. simpl. do 2 f_equal.
      rewrite list_filter_filter. apply list_filter_iff.
      intros im. rewrite not_elem_of_union, not_elem_of_singleton. tauto.
Qed.

(** C6: the images kept for an article are the first occurrence of every
    derived base key among the images the loop considers (an absolute [src]
    that the classifier accepts), in the order they were found: no key is
    kept twice, and two images whose URLs differ but give the same key leave
    only the first. *)
Theorem collect_images_first_seen (db : unicode_db) (images : list node) :
  collect_images db images =
    first_seen (image_key db) (List.filter (eligible db) (image_of <$> images)) /\
  NoDup (image_key db <$> collect_images db images) /\
  sublist (collect_images db images) (image_of <$> images).
Proof.
  assert (Heq : collect_images db images =
    first_seen (image_key db) (List.filter (eligible db) (image_of <$> images))).
  { unfold collect_images. rewrite collect_images_fold. simpl.
    apply filter_all. intros im. apply not_elem_of_empty. }
  rewrite Heq. split; [reflexivity |]. split.
  - apply first_seen_NoDup.
  - etrans; [apply first_seen_sublist | apply filter_sublist_bool].
Qed.

(** The two pictures of [demo_page] are one image in two widths: they
    share their key, and the first is the one kept. *)
Lemma collect_images_demo_page :
  collect_images ascii_db (find_all (has_tag [str "img"]) demo_page)
  = [(str "http://host/a.png?w=100", [])].
Proof. vm_compute. reflexivity. Qed.

(** ** Strings: occurrences *)

Lemma startswith_spec (p s : list N) :
  startswith p s = true <-> exists b, s = p ++ b.
Proof.
  revert s. induction p as [|a p IH]; intros s; simpl.
  - split; [intros _; exists s; reflexivity | reflexivity].
  - destruct s as [|c s].
    + split; [discriminate | intros [b Hb]; discriminate].
    + rewrite andb_true_iff, N.eqb_eq, IH. split.
      * intros [-> [b ->]]. exists b. reflexivity.
      * intros [b Hb]. injection Hb as -> ->. eauto.
Qed.

Lemma occurs_spec (p s : list N) :
  occurs p s = true <-> exists a b, s = a ++ p ++ b.
Proof.
  induction s as [|c s IH]; simpl.
  - rewrite orb_false_r, startswith_spec. split.
    + intros [b Hb]. exists [], b. exact Hb.
    + intros (a & b & Hab). destruct a; [eauto |]. discriminate.
  - rewrite orb_true_iff, startswith_spec, IH. split.
    + intros [[b Hb] | (a & b & Hab)].
      * exists [], b. exact Hb.
      * exists (c :: a), b. rewrite Hab. reflexivity.
    + intros (a & b & Hab). destruct a as [|c' a].
      * left. exists b. exact Hab.
      * right. injection Hab as -> ->. eauto.
Qed.

Lemma occurs_app (p a b : list N) : occurs p (a ++ p ++ b) = true.
Proof. apply occurs_spec. eauto. Qed.

(** ** Strings: lower case *)

Lemma lower_from_app (db : unicode_db) (a r before : list N) :
  exists l, lower_from db before (a ++ r) = l ++ lower_from db (before ++ a) r.
Proof.
  revert before. induction a as [|c a IH]; intros before; simpl.
  - exists []. rewrite app_nil_r. reflexivity.
  - destruct (IH (before ++ [c])) as [l Hl].
    exists (lower_char db before c (a ++ r) ++ l).
    rewrite Hl, <- !app_assoc. reflexivity.
Qed.

Lemma lower_from_stable (db : unicode_db) (p r before : list N) :
  lower_stable p = true ->
  lower_from db before (p ++ r) = p ++ lower_from db (before ++ p) r.
Proof.
  revert before. induction p as [|c p IH]; intros before Hp; simpl.
  - rewrite app_nil_r. reflexivity.
  - simpl in Hp. apply andb_true_iff in Hp as [Hc Hp].
    apply andb_true_iff in Hc as [Ha Hu]. apply negb_true_iff in Hu.
    unfold lower_char. rewrite Ha, Hu. simpl.
    rewrite IH by exact Hp. rewrite <- app_assoc. reflexivity.
Qed.

(** A text without capitals that occurs in [s] occurs in [s.lower()]. *)
Lemma occurs_lower (db : unicode_db) (p s : list N) :
  lower_stable p = true -> occurs p s = true -> occurs p (lower db s) = true.
Proof.
  intros Hp Ho. apply occurs_spec in Ho as (a & b & ->).
  unfold lower. destruct (lower_from_app db a (p ++ b) []) as [l ->].
  rewrite lower_from_stable by exact Hp. apply occurs_app.
Qed.

(** ** Image Classifier *)

Lemma skip_patterns_stable : forallb lower_stable skip_patterns = true.
Proof. vm_compute. reflexivity. Qed.

Lemma skip_pattern_stable (pattern : list N) :
  pattern ∈ skip_patterns -> lower_stable pattern = true.
Proof.
  intros Hin. pose proof skip_patterns_stable as H.
  rewrite forallb_forall in H. apply H, list_elem_of_In, Hin.
Qed.

Lemma existsb_false_elem {A} (f : A -> bool) (l : list A) (x : A) :
  existsb f l = false -> x ∈ l -> f x = false.
Proof.
  intros He Hin. destruct (f x) eqn:Hf; [| reflexivity].
  assert (existsb f l = true) as Ht; [| congruence].
  apply existsb_exists. exists x. split; [apply list_elem_of_In, Hin | exact Hf].
Qed.

(** C7: an image is refused whenever its URL or its alt text contains one
    of the decorative tokens of [skip_patterns] (among them avatar, logo and
    w_36), whatever else they contain; and an image whose URL contains
    w_1456 is kept when no decorative token occurs in the URL or the alt
    text, capitals disregarded. *)
Theorem is_content_image_policy (db : unicode_db) (src alt : list N) :
  (forall pattern, pattern ∈ skip_patterns ->
     occurs pattern src = true \/ occurs pattern alt = true ->
     is_content_image db src alt = false) /\
  (occurs (str "w_1456") src = true ->
   (forall pattern, pattern ∈ skip_patterns ->
      occurs pattern (lower db src) = false /\
      occurs pattern (lower db alt) = false) ->
   is_content_image db src alt = true).
Proof.
  split.
  - intros pattern Hin Ho. unfold is_content_image.
    assert (existsb (fun pattern => occurs pattern (lower db src)
                                    || occurs pattern (lower db alt))
                    skip_patterns = true) as ->; [| reflexivity].
    apply existsb_exists. exists pattern.
    split; [apply list_elem_of_In, Hin |].
    pose proof (skip_pattern_stable pattern Hin) as Hs.
    apply orb_true_iff.
    destruct Ho as [Ho | Ho]; [left | right]; apply occurs_lower; assumption.
  - intros _ Hno. unfold is_content_image.
    assert (Hsrc : forall pattern, pattern ∈ skip_patterns ->
                                   occurs pattern src = false).
    { intros pattern Hin. destruct (occurs pattern src) eqn:Ho; [| reflexivity].
      apply (occurs_lower db) in Ho; [| apply skip_pattern_stable, Hin].
      destruct (Hno pattern Hin) as [Hl _]. congruence. }
    assert (existsb (fun pattern => occurs pattern (lower db src)
                                    || occurs pattern (lower db alt))
                    skip_patterns = false) as ->.
    { apply not_true_is_false. intros He.
      apply existsb_exists in He as (pattern & Hin & Ho).
      apply list_elem_of_In in Hin. destruct (Hno pattern Hin) as [H1 H2].
      rewrite H1, H2 in Ho. discriminate. }
    assert (existsb (fun size => occurs size src) small_sizes = false) as ->.
    { apply not_true_is_false. intros He.
      apply existsb_exists in He as (size & Hin & Ho).
      rewrite Hsrc in Ho; [discriminate |].
      apply list_elem_of_In in Hin. revert Hin. unfold small_sizes, skip_patterns.
      rewrite !elem_of_cons. intuition auto. }
    rewrite !Hsrc; [| unfold skip_patterns; rewrite !elem_of_cons; tauto ..].
    cbn [orb]. destruct (negb _ && _); [reflexivity |].
    destruct (existsb _ large_sizes); reflexivity.
Qed.

(** C7 at work: an avatar URL is refused, a logo in the alt text too, and a
    plain wide image is kept. *)
Lemma is_content_image_policy_witness :
  is_content_image ascii_db (str "http://host/w_1456/avatar.png") [] = false /\
  is_content_image ascii_db (str "http://host/w_1456/a.png") (str "Site logo") = false /\
  is_content_image ascii_db (str "http://host/w_1456/a.png") [] = true.
Proof.
  split; [| split].
  - apply (proj1 (is_content_image_policy ascii_db _ _) (str "avatar")).
    + unfold skip_patterns. rewrite !elem_of_cons. tauto.
    + left. vm_compute. reflexivity.
  - apply (proj1 (is_content_image_policy ascii_db _ _) (str "logo")).
    + unfold skip_patterns. rewrite !elem_of_cons. tauto.
    + right. vm_compute. reflexivity.
  - apply (proj2 (is_content_image_policy ascii_db _ _)).
    + vm_compute. reflexivity.
    + intros pattern Hin. unfold skip_patterns in Hin.
      rewrite !elem_of_cons, elem_of_nil in Hin.
      repeat (destruct Hin as [-> | Hin]; [split; vm_compute; reflexivity |]).
      destruct Hin.
Defined.

(** ** Document Assembler: the story only grows *)

Lemma appends_id : appends (fun story => story).
Proof. exists []. split; [constructor | intros; rewrite app_nil_r; reflexivity]. Qed.

Lemma appends_blocks (blocks : list block) :
  forallb (fun b => negb (is_page_break b)) blocks = true ->
  appends (fun story => story ++ blocks).
Proof.
  intros H. exists blocks. split; [| reflexivity].
  apply Forall_forall. intros b Hb. rewrite forallb_forall in H.
  apply negb_true_iff, H, list_elem_of_In, Hb.
Qed.

Lemma appends_compose (f g : list block -> list block) :
  appends f -> appends g -> appends (fun story => g (f story)).
Proof.
  intros (bf & Hbf & Hf) (bg & Hbg & Hg). exists (bf ++ bg). split.
  - apply Forall_app. split; assumption.
  - intros story. rewrite Hg, Hf, app_assoc. reflexivity.
Qed.

Lemma appends_ext (f g : list block -> list block) :
  (forall story, f story = g story) -> appends f -> appends g.
Proof.
  intros He (b & Hb & Hf). exists b. split; [exact Hb |].
  intros story. rewrite <- He. apply Hf.
Qed.

Lemma add_code_block_appends (lines : list (list N)) :
  appends (add_code_block_to_story lines).
Proof.
  destruct lines; [apply appends_id |]. unfold add_code_block_to_story.
  (apply appends_blocks; reflexivity).
Qed.

Lemma add_image_appends (w : world) (image_url alt_text : list N) :
  appends (add_image_to_story w image_url alt_text).
Proof.
  unfold add_image_to_story. destruct (image_loads w image_url); (apply appends_blocks; reflexivity).
Qed.

Lemma add_heading_appends (line : list N) : appends (add_heading_to_story line).
Proof.
  unfold add_heading_to_story.
  destruct (startswith [hash] (strip line)); cbv zeta;
    match goal with
    | |- appends (fun story => match ?x with [] => _ | _ :: _ => _ end) =>
        destruct x; [apply appends_id | (apply appends_blocks; reflexivity)]
    end.
Qed.

Lemma add_list_item_appends (db : unicode_db) (line : list N) :
  appends (add_list_item_to_story db line).
Proof.
  unfold add_list_item_to_story. cbv zeta.
  match goal with
  | |- appends (fun story => match ?x with [] => _ | _ :: _ => _ end) =>
      destruct x; [apply appends_id | (apply appends_blocks; reflexivity)]
  end.
Qed.

Lemma add_quote_appends (line : list N) : appends (add_quote_to_story line).
Proof.
  unfold add_quote_to_story. cbv zeta.
  match goal with
  | |- appends (fun story => match ?x with [] => _ | _ :: _ => _ end) =>
      destruct x; [apply appends_id | (apply appends_blocks; reflexivity)]
  end.
Qed.

Lemma fmt_appends_story (f : list block -> list block) (g : fmt_state -> fmt_state)
    (code' : list (list N) -> list (list N)) (index' : nat -> nat) :
  appends f ->
  (forall st, g st = Fmt (code' (fmt_code st)) (index' (fmt_index st)) (f (fmt_story st))) ->
  fmt_appends g.
Proof.
  intros (b & Hb & Hf) Hg code index. exists (code' code), (index' index), b.
  split; [exact Hb |]. intros story. rewrite Hg. simpl. rewrite Hf. reflexivity.
Qed.

Lemma fmt_appends_id : fmt_appends (fun st => st).
Proof.
  apply (fmt_appends_story (fun s => s) _ (fun c => c) (fun i => i) appends_id).
  intros []; reflexivity.
Qed.

Lemma format_plain_line_appends (db : unicode_db) (w : world) (line : list N) :
  fmt_appends (fun st => format_plain_line db w st line).
Proof.
  unfold format_plain_line.
  destruct (startswith (str "![") line && occurs (str "](") line).
  - destruct (re_match re_md_image line) as [[n caps] |]; [| apply fmt_appends_id].
    eapply (fmt_appends_story _ _ (fun c => c) (fun i => i));
      [apply add_image_appends | intros st; reflexivity].
  - apply (fmt_appends_story
             (fun story => story ++ [Paragraph line content_style; Spacer 1 8])
             _ (fun c => c) (fun i => i));
      [(apply appends_blocks; reflexivity) | intros st; reflexivity].
Qed.

Lemma fmt_appends_at (g : fmt_state -> fmt_state) :
  (forall code index, exists g',
      fmt_appends g' /\
      forall story, g (Fmt code index story) = g' (Fmt code index story)) ->
  fmt_appends g.
Proof.
  intros H code index. destruct (H code index) as (g' & Hg' & He).
  destruct (Hg' code index) as (c' & i' & b & Hb & Hs).
  exists c', i', b. split; [exact Hb |]. intros story. rewrite He. apply Hs.
Qed.

Lemma fmt_appends_with (f : list block -> list block)
    (code' : list (list N)) (index' : nat) :
  appends f ->
  fmt_appends (fun st => Fmt code' index' (f (fmt_story st))).
Proof.
  intros Hf. apply (fmt_appends_story f _ (fun _ => code') (fun _ => index') Hf).
  intros st. reflexivity.
Qed.

Lemma format_line_appends (db : unicode_db) (w : world) (self : converter)
    (line : list N) :
  fmt_appends (fun st => format_line db w self st line).
Proof.
  apply fmt_appends_at. intros code index. unfold format_line. cbv zeta.
  destruct (strip line) as [|c l]; [exists (fun st => st); split;
                                    [apply fmt_appends_id | reflexivity] |].
  cbn [fmt_code fmt_index fmt_story].
  destruct (startswith code_block_marker (c :: l)).
  { destruct code as [|l0 code].
    - exists (fun st => st). split; [apply fmt_appends_id | reflexivity].
    - exists (fun st => Fmt (@nil (list N)) index ((add_code_block_to_story (l0 :: code)) (fmt_story st)));
      split; [apply (fmt_appends_with (add_code_block_to_story (l0 :: code)) (@nil (list N)) index); exact (add_code_block_appends (l0 :: code)) | reflexivity]. }
  destruct code as [|l0 code].
  2:{ exists (fun st => Fmt ((l0 :: code) ++ [c :: l]) index ((fun story : list block => story) (fmt_story st)));
      split; [apply (fmt_appends_with (fun story : list block => story) ((l0 :: code) ++ [c :: l]) index); exact appends_id | reflexivity]. }
  destruct (is_heading db (c :: l)).
  { exists (fun st => Fmt (@nil (list N)) index ((add_heading_to_story (c :: l)) (fmt_story st)));
      split; [apply (fmt_appends_with (add_heading_to_story (c :: l)) (@nil (list N)) index); exact (add_heading_appends (c :: l)) | reflexivity]. }
  destruct (startswith (str ">") (c :: l)).
  { exists (fun st => Fmt (@nil (list N)) index ((add_quote_to_story (c :: l)) (fmt_story st)));
      split; [apply (fmt_appends_with (add_quote_to_story (c :: l)) (@nil (list N)) index); exact (add_quote_appends (c :: l)) | reflexivity]. }
  destruct (is_list_item db (c :: l)).
  { exists (fun st => Fmt (@nil (list N)) index ((add_list_item_to_story db (c :: l)) (fmt_story st)));
      split; [apply (fmt_appends_with (add_list_item_to_story db (c :: l)) (@nil (list N)) index); exact (add_list_item_appends db (c :: l)) | reflexivity]. }
  destruct (default [] (current_article_images self) !! index) as [[img_url img_alt] |].
  2:{ exists (fun st => format_plain_line db w st (c :: l)).
      split; [apply format_plain_line_appends | reflexivity]. }
  destruct (mentions_image db _ (c :: l)).
  - exists (fun st => Fmt (@nil (list N)) (S index) ((add_image_to_story w img_url img_alt) (fmt_story st)));
      split; [apply (fmt_appends_with (add_image_to_story w img_url img_alt) (@nil (list N)) (S index)); exact (add_image_appends w img_url img_alt) | reflexivity].
  - exists (fun st => format_plain_line db w st (c :: l)).
    split; [apply format_plain_line_appends | reflexivity].
Qed.

Lemma fold_format_appends (db : unicode_db) (w : world) (self : converter)
    (lines : list (list N)) :
  fmt_appends (fun st => fold_left (format_line db w self) lines st).
Proof.
  induction lines as [|line lines IH]; [apply fmt_appends_id |].
  intros code index. simpl.
  destruct (format_line_appends db w self line code index)
    as (c1 & i1 & b1 & Hb1 & H1).
  destruct (IH c1 i1) as (c2 & i2 & b2 & Hb2 & H2).
  exists c2, i2, (b1 ++ b2). split; [apply Forall_app; split; assumption |].
  intros story. rewrite H1, H2, app_assoc. reflexivity.
Qed.

Lemma fold_images_appends (w : world) (images : list (list N * list N)) :
  appends (fun story =>
             fold_left (fun story '(img_url, img_alt) =>
                          add_image_to_story w img_url img_alt story)
                       images story).
Proof.
  induction images as [|[u a] images IH]; [apply appends_id |].
  simpl. apply (appends_compose (add_image_to_story w u a) _);
    [apply add_image_appends | exact IH].
Qed.

Lemma add_formatted_content_appends (db : unicode_db) (w : world)
    (self : converter) (content : list N) :
  appends (add_formatted_content_to_story db w self content).
Proof.
  unfold add_formatted_content_to_story. cbv zeta.
  destruct (fold_format_appends db w self (split [nl] content) [] O)
    as (c1 & i1 & b1 & Hb1 & H1).
  destruct (add_code_block_appends c1) as (b2 & Hb2 & H2).
  destruct (fold_images_appends w
              (drop i1 (default [] (current_article_images self))))
    as (b3 & Hb3 & H3).
  exists (b1 ++ b2 ++ b3). split; [rewrite !Forall_app; auto |].
  intros story. rewrite H1. cbn [fmt_code fmt_index fmt_story].
  rewrite H3, H2, <- !app_assoc. reflexivity.
Qed.

Lemma article_header_appends (a : article) : appends (article_header a).
Proof.
  unfold article_header. cbv zeta.
  apply (appends_compose
           (fun story =>
              match published a with
              | [] => _
              | _ :: _ => _
              end) (fun story => story ++ _)); [| (apply appends_blocks; reflexivity)].
  apply (appends_compose
           (fun story => match author a with [] => _ | _ :: _ => _ end)
           (fun story => match published a with
                         | [] => story
                         | _ :: _ => story ++ [Paragraph (str "Published: " ++ published a) meta_style]
                         end)).
  - apply (appends_compose (fun story => story ++ _)
             (fun story => match author a with
                           | [] => story
                           | _ :: _ => story ++ [Paragraph (str "By: " ++ author a) meta_style]
                           end)); [(apply appends_blocks; reflexivity) |].
    destruct (author a); [apply appends_id | (apply appends_blocks; reflexivity)].
  - destruct (published a); [apply appends_id | (apply appends_blocks; reflexivity)].
Qed.

(** ** Document Assembler: one section per article *)

Lemma process_article_shape (db : unicode_db) (w : world) (n i : nat)
    (self : converter) (story : list block) (a : article) :
  process_article db w n (self, story) i a =
  (after_article db w self a,
   story ++ article_section db w self a ++ (if (i <? n)%nat then [PageBreak] else [])).
Proof.
  unfold article_section, after_article, process_article.
  destruct (article_header_appends a) as (bh & _ & Hh).
  rewrite (Hh story), (Hh []).
  destruct (extract_article_content db w self (link a)) as [content self'].
  destruct (truthy content).
  - destruct (add_formatted_content_appends db w self' (default [] content))
      as (bc & _ & Hc).
    rewrite (Hc (story ++ bh)), (Hc ([] ++ bh)). simpl.
    destruct (i <? n)%nat; rewrite <- ?app_assoc, ?app_nil_r; reflexivity.
  - simpl. destruct (i <? n)%nat; rewrite <- ?app_assoc, ?app_nil_r; reflexivity.
Qed.

Lemma article_section_unfold (db : unicode_db) (w : world) (self : converter)
    (a : article) :
  article_section db w self a =
  article_header a [] ++
  (if truthy (fst (extract_article_content db w self (link a)))
   then add_formatted_content_to_story db w
          (snd (extract_article_content db w self (link a)))
          (default [] (fst (extract_article_content db w self (link a)))) []
   else [Paragraph placeholder content_style]).
Proof.
  unfold article_section, process_article.
  destruct (extract_article_content db w self (link a)) as [content self'].
  cbn [fst snd]. destruct (truthy content); cbn [snd Nat.ltb Nat.leb].
  - destruct (add_formatted_content_appends db w self' (default [] content))
      as (bc & _ & Hc).
    rewrite (Hc (article_header a [])), (Hc []). reflexivity.
  - reflexivity.
Qed.

Lemma article_header_blocks (a : article) :
  exists rest,
    article_header a [] = Paragraph (title a) subtitle_style :: rest /\
    forallb (fun b => negb (is_page_break b) && negb (is_image b)) rest = true.
Proof.
  unfold article_header. destruct (author a), (published a); simpl; eauto.
Qed.

(** The section of an article starts with its title and holds no page
    break. *)
Lemma article_section_blocks (db : unicode_db) (w : world) (self : converter)
    (a : article) :
  (exists rest, article_section db w self a = Paragraph (title a) subtitle_style :: rest) /\
  Forall (fun b => is_page_break b = false) (article_section db w self a).
Proof.
  rewrite article_section_unfold.
  destruct (article_header_blocks a) as (rest & -> & Hrest). split.
  - eexists. simpl. reflexivity.
  - apply Forall_app. split.
    + constructor; [reflexivity |]. apply Forall_forall. intros b Hb.
      rewrite forallb_forall in Hrest.
      specialize (Hrest b (proj1 (list_elem_of_In _ _) Hb)).
      apply andb_true_iff in Hrest as [H _]. apply negb_true_iff, H.
    + destruct (truthy _).
      * destruct (add_formatted_content_appends db w
                    (snd (extract_article_content db w self (link a)))
                    (default [] (fst (extract_article_content db w self (link a)))))
          as (bc & Hbc & Hc).
        rewrite (Hc []). exact Hbc.
      * repeat constructor.
Qed.

Lemma process_articles_shape (db : unicode_db) (w : world) (n : nat)
    (articles : list article) :
  forall (self : converter) (story : list block) (i : nat),
    (i + length articles = S n)%nat ->
    process_articles db w n (self, story) i articles =
    (after_articles db w self articles,
     story ++ join [PageBreak] (sections db w self articles)).
Proof.
  induction articles as [|a rest IH]; intros self story i Hi.
  - simpl. rewrite app_nil_r. reflexivity.
  - cbn [process_articles sections after_articles]. rewrite process_article_shape.
    simpl in Hi. rewrite IH by lia. f_equal.
    destruct rest as [|b rest].
    + simpl in Hi. assert (i = n) as -> by lia.
      rewrite Nat.ltb_irrefl. simpl. rewrite !app_nil_r. reflexivity.
    + simpl in Hi. assert ((i <? n)%nat = true) as -> by (apply Nat.ltb_lt; lia).
      cbn [sections join]. rewrite <- !app_assoc. reflexivity.
Qed.

Lemma sections_length (db : unicode_db) (w : world) (articles : list article) :
  forall self, length (sections db w self articles) = length articles.
Proof.
  induction articles as [|a rest IH]; intros self; simpl; [| rewrite IH]; reflexivity.
Qed.

Lemma sections_app (db : unicode_db) (w : world) (pre post : list article) :
  forall self,
    sections db w self (pre ++ post) =
    sections db w self pre ++ sections db w (after_articles db w self pre) post.
Proof.
  induction pre as [|a pre IH]; intros self; simpl; [| rewrite IH]; reflexivity.
Qed.

Lemma sections_no_break (db : unicode_db) (w : world) (articles : list article) :
  forall self,
    Forall (fun section => Forall (fun b => is_page_break b = false) section)
           (sections db w self articles).
Proof.
  induction articles as [|a rest IH]; intros self; simpl; constructor.
  - apply article_section_blocks.
  - apply IH.
Qed.

Lemma sections_titles (db : unicode_db) (w : world) (articles : list article) :
  forall self,
    Forall2 (fun a section =>
               exists rest, section = Paragraph (title a) subtitle_style :: rest)
            articles (sections db w self articles).
Proof.
  induction articles as [|a rest IH]; intros self; simpl; constructor.
  - apply article_section_blocks.
  - apply IH.
Qed.

Lemma create_pdf_story (db : unicode_db) (w : world) (self : converter)
    (feed_url : list N) (max_articles : option Z) :
  fetch_rss_feed w feed_url <> [] ->
  create_pdf db w self feed_url max_articles =
  Some (title_page w feed_url
          (length (cap_articles max_articles (fetch_rss_feed w feed_url))) ++
        join [PageBreak]
          (sections db w self (cap_articles max_articles (fetch_rss_feed w feed_url)))).
Proof.
  intros Hne. unfold create_pdf.
  destruct (fetch_rss_feed w feed_url) as [|a l] eqn:Hf; [congruence |].
  cbv zeta. rewrite process_articles_shape by lia. reflexivity.
Qed.

Lemma last_join_sections (parts : list (list block)) :
  parts <> [] ->
  Forall (fun section => section <> [] /\
                         Forall (fun b => is_page_break b = false) section) parts ->
  exists b, last (join [PageBreak] parts) = Some b /\ is_page_break b = false.
Proof.
  induction parts as [|p parts IH]; intros Hne Hall; [congruence |].
  apply Forall_cons in Hall as [[Hp Hnb] Hall].
  destruct parts as [|q parts].
  - simpl. destruct (last p) as [b |] eqn:Hl.
    + exists b. split; [reflexivity |].
      rewrite Forall_forall in Hnb. apply Hnb.
      apply last_Some in Hl as [l' ->]. apply elem_of_app. right. constructor.
    + apply last_None in Hl. congruence.
  - destruct IH as (b & Hb & Hnbb); [congruence | exact Hall |].
    exists b. split; [| exact Hnbb].
    change (join [PageBreak] (p :: q :: parts))
      with (p ++ [PageBreak] ++ join [PageBreak] (q :: parts)).
    rewrite !last_app, Hb. reflexivity.
Qed.

Lemma not_page_break (b : block) : is_page_break b = false <-> b <> PageBreak.
Proof. destruct b; simpl; split; congruence. Qed.

Lemma cap_articles_nonempty (max_articles : option Z) (articles : list article) :
  cap_articles max_articles articles <> [] -> articles <> [].
Proof.
  intros H ->. apply H. unfold cap_articles, slice_to.
  destruct max_articles as [m |]; [| reflexivity].
  destruct (m =? 0)%Z; [reflexivity |]. destruct (0 <=? m)%Z; apply take_nil.
Qed.

(** C5: when the capped list of articles is not empty, the story is the
    title page followed by one section per article, each starting with the
    article's title and free of page breaks, with one PageBreak between
    consecutive sections and none after the last: the last block of the
    story is no PageBreak.  With two entries in the feed and a cap of 1 the
    story is the title page and the one section of the first entry. *)
Theorem create_pdf_page_breaks (db : unicode_db) (w : world) (self : converter)
    (feed_url : list N) :
  (forall max_articles,
     cap_articles max_articles (fetch_rss_feed w feed_url) <> [] ->
     exists secs story,
       create_pdf db w self feed_url max_articles = Some story /\
       story = title_page w feed_url
                 (length (cap_articles max_articles (fetch_rss_feed w feed_url))) ++
               join [PageBreak] secs /\
       Forall2 (fun a section =>
                  exists rest, section = Paragraph (title a) subtitle_style :: rest)
               (cap_articles max_articles (fetch_rss_feed w feed_url)) secs /\
       Forall (fun section => Forall (fun b => b <> PageBreak) section) secs /\
       last story <> Some PageBreak) /\
  (forall a1 a2,
     fetch_rss_feed w feed_url = [a1; a2] ->
     exists section,
       create_pdf db w self feed_url (Some 1%Z) =
         Some (title_page w feed_url 1 ++ section) /\
       (exists rest, section = Paragraph (title a1) subtitle_style :: rest) /\
       Forall (fun b => b <> PageBreak) section).
Proof.
  split.
  - intros max_articles Hne.
    set (articles := cap_articles max_articles (fetch_rss_feed w feed_url)) in *.
    exists (sections db w self articles). eexists.
    split; [apply create_pdf_story, (cap_articles_nonempty max_articles), Hne |].
    split; [reflexivity |].
    split; [apply sections_titles |].
    assert (Hnb : Forall (fun section => Forall (fun b => b <> PageBreak) section)
                    (sections db w self articles)).
    { eapply Forall_impl; [apply sections_no_break |]. intros section Hs.
      eapply Forall_impl; [exact Hs |]. intros b. apply not_page_break. }
    split; [exact Hnb |].
    destruct (last_join_sections (sections db w self articles)) as (b & Hb & Hnbb).
    + intros Hs. apply (f_equal length) in Hs.
      rewrite sections_length in Hs. destruct articles; [congruence | discriminate].
    + apply Forall_forall. intros section Hin. split.
      * pose proof (sections_titles db w articles self) as Ht.
        apply list_elem_of_lookup in Hin as [k Hk].
        destruct (Forall2_lookup_r _ _ _ _ _ Ht Hk) as (a & _ & rest & ->).
        discriminate.
      * rewrite Forall_forall in Hnb. specialize (Hnb section Hin).
        eapply Forall_impl; [exact Hnb |]. intros b. apply not_page_break.
    + subst articles. rewrite last_app, Hb. intros [= ->]. discriminate.
  - intros a1 a2 Hf. exists (article_section db w self a1).
    rewrite create_pdf_story by (rewrite Hf; discriminate).
    rewrite Hf. split; [reflexivity |].
    destruct (article_section_blocks db w self a1) as [Ht Hnb].
    split; [exact Ht |].
    eapply Forall_impl; [exact Hnb |]. intros b. apply not_page_break.
Qed.

(** C5 at work: the feed of [demo_world] has two entries; capped at one the
    story is the title page and the section of the first. *)
Lemma create_pdf_page_breaks_witness :
  exists section,
    create_pdf ascii_db demo_world (Converter None) (str "feed") (Some 1%Z) =
      Some (title_page demo_world (str "feed") 1 ++ section) /\
    (exists rest, section = Paragraph (str "One") subtitle_style :: rest) /\
    Forall (fun b => b <> PageBreak) section.
Proof.
  exact (proj2 (create_pdf_page_breaks ascii_db demo_world (Converter None) (str "feed"))
               _ _ eq_refl).
Defined.

(** ** Document Assembler: the article cap *)

(** C10: a cap of 0 is no cap.  With a feed that is not empty,
    [create_pdf] builds for [max_articles=0] the story it builds without a
    cap: the title page and one section for every article of the feed. *)
Theorem create_pdf_cap_zero (db : unicode_db) (w : world) (self : converter)
    (feed_url : list N) :
  fetch_rss_feed w feed_url <> [] ->
  cap_articles (Some 0%Z) (fetch_rss_feed w feed_url) = fetch_rss_feed w feed_url /\
  create_pdf db w self feed_url (Some 0%Z) = create_pdf db w self feed_url None /\
  create_pdf db w self feed_url (Some 0%Z) =
    Some (title_page w feed_url (length (fetch_rss_feed w feed_url)) ++
          join [PageBreak] (sections db w self (fetch_rss_feed w feed_url))) /\
  length (sections db w self (fetch_rss_feed w feed_url)) =
    length (fetch_rss_feed w feed_url).
Proof.
  intros Hne. split; [reflexivity |]. split; [| split].
  - rewrite !create_pdf_story by exact Hne. reflexivity.
  - rewrite create_pdf_story by exact Hne. reflexivity.
  - apply sections_length.
Qed.

(** C10 at work: both entries of the feed of [demo_world] get their
    section under a cap of 0. *)
Lemma create_pdf_cap_zero_witness :
  cap_articles (Some 0%Z) (fetch_rss_feed demo_world (str "feed"))
    = fetch_rss_feed demo_world (str "feed") /\
  create_pdf ascii_db demo_world (Converter None) (str "feed") (Some 0%Z)
    = create_pdf ascii_db demo_world (Converter None) (str "feed") None /\
  create_pdf ascii_db demo_world (Converter None) (str "feed") (Some 0%Z) =
    Some (title_page demo_world (str "feed") 2 ++
          join [PageBreak]
            (sections ascii_db demo_world (Converter None)
               (fetch_rss_feed demo_world (str "feed")))) /\
  length (sections ascii_db demo_world (Converter None)
            (fetch_rss_feed demo_world (str "feed"))) = 2%nat.
Proof.
  apply (create_pdf_cap_zero ascii_db demo_world (Converter None) (str "feed")).
  discriminate.
Defined.

(** ** Document Assembler: an article whose extraction fails *)

Lemma after_articles_app (db : unicode_db) (w : world) (pre post : list article) :
  forall self,
    after_articles db w self (pre ++ post) =
    after_articles db w (after_articles db w self pre) post.
Proof.
  induction pre as [|a pre IH]; intros self; simpl; [| rewrite IH]; reflexivity.
Qed.

(** C8: an article whose extraction returns nothing gets, after its title
    and metadata blocks, the one placeholder paragraph and no image block;
    the story goes on with a section for every article after it. *)
Theorem failed_extraction_placeholder (db : unicode_db) (w : world)
    (self : converter) (feed_url : list N) (max_articles : option Z)
    (pre post : list article) (a : article) :
  cap_articles max_articles (fetch_rss_feed w feed_url) = pre ++ a :: post ->
  (forall self', fst (extract_article_content db w self' (link a)) = None) ->
  exists before after,
    create_pdf db w self feed_url max_articles =
      Some (title_page w feed_url (length (pre ++ a :: post)) ++
            join [PageBreak]
              (before ++
               (article_header a [] ++ [Paragraph placeholder content_style]) ::
               after)) /\
    Forall (fun b => is_image b = false)
           (article_header a [] ++ [Paragraph placeholder content_style]) /\
    length before = length pre /\
    Forall2 (fun a' section =>
               exists rest, section = Paragraph (title a') subtitle_style :: rest)
            post after.
Proof.
  intros Hcap Hfail.
  exists (sections db w self pre).
  exists (sections db w (after_article db w (after_articles db w self pre) a) post).
  split; [| split; [| split]].
  - rewrite create_pdf_story.
    + rewrite Hcap, sections_app. cbn [sections].
      rewrite article_section_unfold, Hfail. reflexivity.
    + apply (cap_articles_nonempty max_articles). rewrite Hcap.
      destruct pre; discriminate.
  - destruct (article_header_blocks a) as (rest & -> & Hrest).
    apply Forall_app. split; [| repeat constructor].
    constructor; [reflexivity |]. apply Forall_forall. intros b Hb.
    rewrite forallb_forall in Hrest.
    specialize (Hrest b (proj1 (list_elem_of_In _ _) Hb)).
    apply andb_true_iff in Hrest as [_ H]. apply negb_true_iff, H.
  - apply sections_length.
  - apply sections_titles.
Qed.

(** C8 at work: the page of the second entry of [demo_world] cannot be
    fetched; its section is the placeholder, after the section of the
    first. *)
Lemma failed_extraction_placeholder_witness :
  exists before after,
    create_pdf ascii_db demo_world (Converter None) (str "feed") None =
      Some (title_page demo_world (str "feed") 2 ++
            join [PageBreak]
              (before ++
               [ Paragraph (str "Two") subtitle_style; Spacer 1 8;
                 Paragraph (str "Published: today") meta_style;
                 Paragraph (str "URL: http://host/two") meta_style; Spacer 1 12;
                 Paragraph placeholder content_style ] :: after)) /\
    Forall (fun b => is_image b = false)
      [ Paragraph (str "Two") subtitle_style; Spacer 1 8;
        Paragraph (str "Published: today") meta_style;
        Paragraph (str "URL: http://host/two") meta_style; Spacer 1 12;
        Paragraph placeholder content_style ] /\
    length before = 1%nat /\
    Forall2 (fun a' section =>
               exists rest, section = Paragraph (title a') subtitle_style :: rest)
            [] after.
Proof.
  exact (failed_extraction_placeholder ascii_db demo_world (Converter None)
           (str "feed") None
           [Article (str "One") (str "http://host/one#top") [] (str "A. Writer")] []
           (Article (str "Two") (str "http://host/two") (str "today") [])
           eq_refl (fun _ => eq_refl)).
Defined.

(** ** Regular expressions: repetitions of a class *)

Lemma span_le (p : N -> bool) (s : list N) : (span p s <= length s)%nat.
Proof. induction s as [|c s IH]; simpl; [lia |]. destruct (p c); simpl; lia. Qed.

Lemma span_take (p : N -> bool) (s : list N) :
  forallb p (take (span p s) s) = true.
Proof.
  induction s as [|c s IH]; simpl; [reflexivity |].
  destruct (p c) eqn:Hc; simpl; [rewrite Hc; exact IH | reflexivity].
Qed.

Lemma span_drop (p : N -> bool) (s : list N) :
  head_out p (drop (span p s) s) = true.
Proof.
  induction s as [|c s IH]; simpl; [reflexivity |].
  destruct (p c) eqn:Hc; simpl; [exact IH | rewrite Hc; reflexivity].
Qed.

(** A greedy repetition followed by a continuation that accepts takes the
    whole run. *)
Lemma rep_greedy_max {R} (p : N -> bool) (k : option N -> list N -> option R)
    (s : list N) :
  forall (lo : nat) (prev : option N),
    (lo <= span p s)%nat ->
    (forall pv, k pv (drop (span p s) s) <> None) ->
    exists pv, rep true p lo None prev s k = k pv (drop (span p s) s).
Proof.
  induction s as [|c s IH]; intros lo prev Hlo Hk; simpl in *.
  - assert (lo = O) as -> by lia. exists prev. reflexivity.
  - destruct (p c) eqn:Hc; simpl in *.
    + destruct (IH (Nat.pred lo) (Some c)) as [pv Hpv]; [lia | exact Hk |].
      exists pv. rewrite Hpv.
      destruct (k pv (drop (span p s) s)) eqn:Hr; [reflexivity |].
      exfalso. exact (Hk pv Hr).
    + assert (lo = O) as -> by lia. exists prev. reflexivity.
Qed.

Lemma rep_greedy_short {R} (p : N -> bool) (k : option N -> list N -> option R)
    (s : list N) :
  forall (lo : nat) (prev : option N),
    (span p s < lo)%nat -> rep true p lo None prev s k = None.
Proof.
  induction s as [|c s IH]; intros lo prev Hlo; simpl in *.
  - destruct lo; [lia | reflexivity].
  - destruct (p c) eqn:Hc; simpl.
    + rewrite IH by lia. destruct lo; [lia | reflexivity].
    + destruct lo; [lia | reflexivity].
Qed.

Lemma match_at_rep (p : N -> bool) (lo : nat) (prev : option N) (s : list N) :
  match_at (Rep true lo None p) prev s =
  if (lo <=? span p s)%nat then Some (span p s, []) else None.
Proof.
  unfold match_at. cbn [rmatch m_prev m_rest m_caps].
  destruct (lo <=? span p s)%nat eqn:Hlo.
  - apply Nat.leb_le in Hlo.
    destruct (rep_greedy_max p (fun pv s' => Some (MState pv s' [])) s lo prev Hlo)
      as [pv ->]; [discriminate |].
    cbn [m_rest m_caps]. rewrite length_drop.
    pose proof (span_le p s). do 2 f_equal. lia.
  - apply Nat.leb_gt in Hlo. rewrite rep_greedy_short by exact Hlo. reflexivity.
Qed.

Lemma match_at_cls (p : N -> bool) (prev : option N) (s : list N) :
  match_at (Cls p) prev s =
  match s with
  | c :: _ => if p c then Some (1%nat, []) else None
  | [] => None
  end.
Proof.
  unfold match_at. cbn [rmatch m_rest]. destruct s as [|c s]; [reflexivity |].
  destruct (p c); [| reflexivity]. cbn [m_rest m_caps length].
  do 2 f_equal. lia.
Qed.

(** ** Regular expressions: no pattern of the program matches emptily *)

Lemma rep_consumes {R} (g : bool) (p : N -> bool)
    (k : option N -> list N -> option R) (s : list N) :
  forall (lo : nat) (hi : option nat) (prev : option N) (res : R),
    rep g p lo hi prev s k = Some res ->
    exists pv s', k pv s' = Some res /\ (length s' + lo <= length s)%nat.
Proof.
  induction s as [|c s IH]; intros lo hi prev res H; simpl in H.
  - destruct g, lo; try discriminate; exists prev, (@nil N);
      (split; [destruct (k prev []); [exact H | discriminate] | simpl; lia]).
  - assert (Hmore : forall x,
               (if p c && hi_allows hi
                then rep g p (Nat.pred lo) (option_map Nat.pred hi) (Some c) s k
                else None) = Some x ->
               exists pv s', k pv s' = Some x /\ (length s' + lo <= length (c :: s))%nat).
    { intros x Hx. destruct (p c && hi_allows hi); [| discriminate].
      apply IH in Hx as (pv & s' & Hk & Hl). exists pv, s'. split; [exact Hk |].
      simpl. lia. }
    assert (Hstop : forall x,
               match lo with O => k prev (c :: s) | S _ => None end = Some x ->
               exists pv s', k pv s' = Some x /\ (length s' + lo <= length (c :: s))%nat).
    { intros x Hx. destruct lo; [| discriminate].
      exists prev, (c :: s). split; [exact Hx | lia]. }
    destruct g.
    + destruct (if p c && hi_allows hi then _ else None) as [x |] eqn:Hm.
      * injection H as <-. apply (Hmore x eq_refl).
      * apply Hstop, H.
    + destruct (match lo with O => _ | S _ => None end) as [x |] eqn:Hs.
      * injection H as <-. apply (Hstop x eq_refl).
      * apply Hmore, H.
Qed.

Lemma rmatch_consumes (r : regex) :
  forall (st : mstate) (k : mstate -> option mstate) (res : mstate),
    rmatch r st k = Some res ->
    exists st', k st' = Some res /\
                (length (m_rest st') + min_len r <= length (m_rest st))%nat.
Proof.
  induction r as [| p | r1 IH1 r2 IH2 | r1 IH1 r2 IH2 | g lo hi p | r1 IH1
                 | n r1 IH1 | | |]; intros st k res H; cbn [rmatch min_len] in *.
  - exists st. split; [exact H | lia].
  - destruct (m_rest st) as [|c s] eqn:Hs; [discriminate |].
    destruct (p c); [| discriminate]. eexists. split; [exact H |]. simpl. lia.
  - apply IH1 in H as (st1 & H & Hl1). apply IH2 in H as (st2 & H & Hl2).
    exists st2. split; [exact H | lia].
  - destruct (rmatch r1 st k) as [x |] eqn:H1.
    + injection H as <-. apply IH1 in H1 as (st' & Hk & Hl).
      exists st'. split; [exact Hk | lia].
    + apply IH2 in H as (st' & Hk & Hl). exists st'. split; [exact Hk | lia].
  - apply rep_consumes in H as (pv & s' & Hk & Hl).
    eexists. split; [exact Hk |]. simpl. lia.
  - destruct (rmatch r1 st k) as [x |] eqn:H1.
    + injection H as <-. apply IH1 in H1 as (st' & Hk & Hl).
      exists st'. split; [exact Hk | lia].
    + exists st. split; [exact H | lia].
  - apply IH1 in H as (st1 & Hk & Hl). eexists. split; [exact Hk |]. simpl. lia.
  - destruct (at_line_start (m_prev st)); [| discriminate].
    exists st. split; [exact H | lia].
  - destruct (m_prev st); [discriminate |]. exists st. split; [exact H | lia].
  - destruct (at_end (m_rest st)); [| discriminate].
    exists st. split; [exact H | lia].
Qed.

(** A match is at least as long as the pattern's least length. *)
Lemma match_at_min_len (r : regex) (prev : option N) (s : list N) (n : nat)
    (caps : list (nat * list N)) :
  match_at r prev s = Some (n, caps) -> (min_len r <= n)%nat.
Proof.
  unfold match_at. destruct (rmatch r (MState prev s []) Some) as [st' |] eqn:H;
    [| discriminate].
  intros [= <- _]. apply rmatch_consumes in H as (st'' & [= ->] & Hl).
  simpl in Hl. lia.
Qed.

(** Every pattern the program substitutes for takes at least one
    character, so [sub_from] never meets an empty match. *)
Lemma sub_patterns_nonempty (db : unicode_db) :
  Forall (fun r => forall prev s n caps,
                     match_at r prev s = Some (n, caps) -> (1 <= n)%nat)
         (sub_patterns db).
Proof.
  assert (H : forallb (fun r => (1 <=? min_len r)%nat) (sub_patterns db) = true)
    by reflexivity.
  apply Forall_forall. intros r Hr prev s n caps Hm.
  rewrite forallb_forall in H. specialize (H r (proj1 (list_elem_of_In _ _) Hr)).
  apply Nat.leb_le in H. apply match_at_min_len in Hm. lia.
Qed.

(** ** Regular expressions: substitution by a fixed text *)

(** Nothing but characters of the text and of the replacement comes out. *)
Lemma sub_from_chars (Q : N -> Prop) (r : regex) (t : list N) (s : list N) :
  forall (prev : option N) (skip : nat),
    Forall Q s -> Forall Q t -> Forall Q (sub_from r (const_repl t) prev s skip).
Proof.
  induction s as [|c s IH]; intros prev skip Hs Ht; simpl.
  - destruct skip; [| constructor].
    destruct (match_at r prev []) as [[n caps] |]; [exact Ht | constructor].
  - apply Forall_cons in Hs as [Hc Hs]. destruct skip; [| apply IH; assumption].
    destruct (match_at r prev (c :: s)) as [[[|n] caps] |].
    + apply Forall_app. split; [exact Ht |]. constructor; [exact Hc |].
      apply IH; assumption.
    + apply Forall_app. split; [exact Ht |]. apply IH; assumption.
    + constructor; [exact Hc |]. apply IH; assumption.
Qed.

(** A character at which the pattern always matches, and not emptily, is
    never copied: what comes out is outside the class or in the
    replacement. *)
Lemma sub_from_unmatched (p : N -> bool) (r : regex) (t : list N) :
  (forall prev c s, p c = true ->
     exists n caps, match_at r prev (c :: s) = Some (S n, caps)) ->
  forall (s : list N) (prev : option N) (skip : nat),
    Forall (fun c => p c = false \/ c ∈ t) (sub_from r (const_repl t) prev s skip).
Proof.
  intros Hm. assert (Ht : Forall (fun c => p c = false \/ c ∈ t) t).
  { apply Forall_forall. auto. }
  induction s as [|c s IH]; intros prev skip; simpl.
  - destruct skip; [| constructor].
    destruct (match_at r prev []) as [[n caps] |]; [exact Ht | constructor].
  - destruct skip; [| apply IH].
    destruct (p c) eqn:Hc.
    + destruct (Hm prev c s Hc) as (n & caps & ->).
      apply Forall_app. split; [exact Ht | apply IH].
    + destruct (match_at r prev (c :: s)) as [[[|n] caps] |].
      * apply Forall_app. split; [exact Ht |]. constructor; [auto | apply IH].
      * apply Forall_app. split; [exact Ht | apply IH].
      * constructor; [auto | apply IH].
Qed.

(** Where the pattern matches nowhere the text is left as it is. *)
Lemma sub_from_no_match (r : regex) (repl : list (nat * list N) -> list N)
    (s : list N) :
  forall prev, search_from r prev s = None -> sub_from r repl prev s 0 = s.
Proof.
  induction s as [|c s IH]; intros prev Hs; simpl in *.
  - destruct (match_at r prev []) as [[n caps] |]; [discriminate | reflexivity].
  - destruct (match_at r prev (c :: s)) as [[n caps] |]; [discriminate |].
    rewrite IH by exact Hs. reflexivity.
Qed.

(** ** Strings: replacing and stripping *)

Lemma replace_char_removes (c : N) (s : list N) :
  Forall (fun d => d <> c) (replace [c] [] s).
Proof.
  unfold replace. induction s as [|d s IH]; simpl; [constructor |].
  destruct (c =? d) eqn:Hcd; simpl; [exact IH |].
  constructor; [| exact IH]. apply N.eqb_neq in Hcd. congruence.
Qed.

Lemma lstrip_suffix (s : list N) :
  exists u, s = u ++ lstrip s /\ forallb is_space u = true.
Proof.
  induction s as [|c s (u & Hu & Hsp)]; simpl; [exists []; split; reflexivity |].
  destruct (is_space c) eqn:Hc.
  - exists (c :: u). simpl. rewrite Hc, Hsp. split; [congruence | reflexivity].
  - exists []. split; reflexivity.
Qed.

Lemma lstrip_head (s : list N) : head_out is_space (lstrip s) = true.
Proof.
  induction s as [|c s IH]; simpl; [reflexivity |].
  destruct (is_space c) eqn:Hc; [exact IH |]. simpl. rewrite Hc. reflexivity.
Qed.

Lemma rstrip_prefix (s : list N) :
  exists u, s = rstrip s ++ u /\ forallb is_space u = true.
Proof.
  unfold rstrip. destruct (lstrip_suffix (rev s)) as (u & Hu & Hsp).
  exists (rev u). split.
  - rewrite <- rev_app_distr, <- Hu, rev_involutive. reflexivity.
  - rewrite forallb_forall in *. intros c Hc. apply Hsp, in_rev, Hc.
Qed.

Lemma rstrip_last (s : list N) : head_out is_space (rev (rstrip s)) = true.
Proof. unfold rstrip. rewrite rev_involutive. apply lstrip_head. Qed.

Lemma strip_parts (s : list N) :
  exists u v, s = u ++ strip s ++ v /\
              forallb is_space u = true /\ forallb is_space v = true.
Proof.
  unfold strip. destruct (lstrip_suffix s) as (u & Hu & Hsu).
  destruct (rstrip_prefix (lstrip s)) as (v & Hv & Hsv).
  exists u, v. split; [| split; assumption]. rewrite <- Hv. exact Hu.
Qed.

Lemma strip_Forall (Q : N -> Prop) (s : list N) : Forall Q s -> Forall Q (strip s).
Proof.
  intros H. destruct (strip_parts s) as (u & v & Hs & _). rewrite Hs in H.
  apply Forall_app in H as [_ H]. apply Forall_app in H as [H _]. exact H.
Qed.

Lemma strip_head (s : list N) : head_out is_space (strip s) = true.
Proof.
  unfold strip. pose proof (lstrip_head s) as Hh.
  destruct (rstrip_prefix (lstrip s)) as (v & Hv & _).
  destruct (rstrip (lstrip s)) as [|c l]; [reflexivity |].
  rewrite Hv in Hh. exact Hh.
Qed.

Lemma strip_last (s : list N) : head_out is_space (rev (strip s)) = true.
Proof. apply rstrip_last. Qed.

(** ** Text Normalizer: what comes out *)

Lemma match_at_spaces (prev : option N) (c : N) (s : list N) :
  is_space c = true ->
  exists n caps, match_at re_spaces prev (c :: s) = Some (S n, caps).
Proof.
  intros Hc. unfold re_spaces, Plus. rewrite match_at_rep. simpl.
  rewrite Hc. simpl. eauto.
Qed.

Lemma match_at_unprintable (prev : option N) (c : N) (s : list N) :
  negb (is_printable c) = true ->
  exists n caps, match_at re_unprintable prev (c :: s) = Some (S n, caps).
Proof.
  intros Hc. unfold re_unprintable. rewrite match_at_cls, Hc. eauto.
Qed.

Lemma printable_clean (c : N) :
  is_printable c = true -> c <> backslash ->
  is_space c = false \/ c = space -> clean_char c = true.
Proof.
  unfold is_printable, clean_char, is_space, in_range, nl, tab, backslash, space.
  intros Hp Hb Hs. repeat bool_arith. lia.
Qed.

(** After the unprintable characters are gone, every later step of
    [clean_text] keeps the text printable and free of backslashes. *)
Lemma clean_text_tail_chars (db : unicode_db) (t : list N) :
  Forall (fun c => c <> backslash) t ->
  Forall (fun c => is_printable c = true /\ c <> backslash)
    (re_sub (re_lone_symbols db) (const_repl (str " "))
       (re_sub re_bangs (const_repl (str "!"))
          (re_sub re_lone_bangs (const_repl (str " "))
             (re_sub re_unprintable (const_repl []) t)))).
Proof.
  intros Hb. unfold re_sub.
  do 3 (apply sub_from_chars; [| repeat constructor; discriminate]).
  apply Forall_and. split.
  - eapply Forall_impl;
      [apply (sub_from_unmatched (fun c => negb (is_printable c)));
       apply match_at_unprintable |].
    intros c [Hc | Hc]; [apply negb_false_iff, Hc | inversion Hc].
  - apply sub_from_chars; [exact Hb | constructor].
Qed.

Lemma clean_text_clean (db : unicode_db) (text : list N) :
  Forall (fun c => clean_char c = true) (clean_text db text).
Proof.
  unfold clean_text. destruct text as [|c0 text0]; [constructor |]. cbv zeta.
  apply strip_Forall.
  set (t := replace [backslash] [] _).
  pose proof (clean_text_tail_chars db t (replace_char_removes backslash _)) as Ht.
  set (t7 := re_sub (re_lone_symbols db) _ _) in *.
  assert (Hs : Forall (fun c => is_space c = false \/ c ∈ str " ")
                 (re_sub re_spaces (const_repl (str " ")) t7)).
  { apply (sub_from_unmatched is_space), match_at_spaces. }
  assert (Hp : Forall (fun c => is_printable c = true /\ c <> backslash)
                 (re_sub re_spaces (const_repl (str " ")) t7)).
  { apply sub_from_chars; [exact Ht | repeat constructor; discriminate]. }
  rewrite Forall_forall in *. intros c Hc.
  destruct (Hp c Hc) as [Hpc Hbc]. apply printable_clean; [assumption .. |].
  destruct (Hs c Hc) as [H | H]; [left; exact H | right].
  apply list_elem_of_singleton in H. exact H.
Qed.

Lemma clean_text_ends (db : unicode_db) (text : list N) :
  head_out is_space (clean_text db text) = true /\
  head_out is_space (rev (clean_text db text)) = true.
Proof.
  unfold clean_text. destruct text as [|c0 text0]; [split; reflexivity |].
  cbv zeta. split; [apply strip_head | apply strip_last].
Qed.

Lemma clean_char_facts (c : N) :
  clean_char c = true ->
  c <> backslash /\ c <> nl /\ c <> tab /\ in_range 32 126 c = true.
Proof.
  unfold clean_char, in_range, backslash, nl, tab. intros H.
  repeat bool_arith. repeat split; lia.
Qed.

(** C9: what [clean_text] returns holds no backslash, newline or tab (all
    of it is printable ASCII), and neither starts nor ends with white
    space. *)
Theorem clean_text_output (db : unicode_db) (text : list N) :
  Forall (fun c => c <> backslash /\ c <> nl /\ c <> tab /\ in_range 32 126 c = true)
         (clean_text db text) /\
  (forall c, head (clean_text db text) = Some c -> is_space c = false) /\
  (forall c, last (clean_text db text) = Some c -> is_space c = false).
Proof.
  split; [| split].
  - eapply Forall_impl; [apply clean_text_clean |]. apply clean_char_facts.
  - intros c Hc. destruct (clean_text_ends db text) as [Hh _].
    destruct (clean_text db text) as [|d l]; [discriminate |].
    injection Hc as ->. apply negb_true_iff, Hh.
  - intros c Hc. destruct (clean_text_ends db text) as [_ Hl].
    apply last_Some in Hc as [l' Hl']. rewrite Hl', rev_app_distr in Hl.
    apply negb_true_iff, Hl.
Qed.

(** ** Regular expressions: literal text *)

Lemma rmatch_lit (t : list N) (k : mstate -> option mstate) :
  forall (prev : option N) (s : list N) (caps : list (nat * list N)),
    exists pv, rmatch (Lit t) (MState prev (t ++ s) caps) k = k (MState pv s caps).
Proof.
  induction t as [|c t IH]; intros prev s caps; simpl.
  - exists prev. reflexivity.
  - unfold is_char. rewrite N.eqb_refl. apply IH.
Qed.

Lemma rmatch_lit_fail (t : list N) (k : mstate -> option mstate) :
  forall (prev : option N) (s : list N) (caps : list (nat * list N)),
    startswith t s = false -> rmatch (Lit t) (MState prev s caps) k = None.
Proof.
  induction t as [|c t IH]; intros prev s caps H; simpl in *; [discriminate |].
  destruct s as [|d s]; [reflexivity |]. unfold is_char.
  destruct (c =? d); [apply IH, H | reflexivity].
Qed.

Lemma span_run (p : N -> bool) (run rest : list N) :
  forallb p run = true -> head_out p rest = true ->
  span p (run ++ rest) = length run.
Proof.
  intros Hr Hh. induction run as [|c run IH]; simpl in *.
  - destruct rest as [|d rest]; [reflexivity |]. simpl in *.
    apply negb_true_iff in Hh. rewrite Hh. reflexivity.
  - apply andb_true_iff in Hr as [Hc Hr]. rewrite Hc, IH by exact Hr. reflexivity.
Qed.

(** ** Image Classifier: the size parameters of a URL *)

Lemma sep_not_digit (db : unicode_db) (c : N) :
  is_query_sep c = true -> is_digit db c = false.
Proof.
  unfold is_query_sep, one_of. simpl. rewrite orb_false_r.
  intros H. apply orb_true_iff in H as [H | H]; apply N.eqb_eq in H; subst c;
    reflexivity.
Qed.

Lemma digit_not_sep (db : unicode_db) (c : N) :
  is_digit db c = true -> is_query_sep c = false.
Proof.
  intros H. destruct (is_query_sep c) eqn:Hs; [| reflexivity].
  rewrite (sep_not_digit db c Hs) in H. discriminate.
Qed.

Lemma param_text_plain (db : unicode_db) (p : size_param) :
  param_ok db p = true -> forallb (fun c => negb (is_query_sep c)) (param_text p) = true.
Proof.
  assert (Hd : forall ds, forallb (is_digit db) ds = true ->
                          forallb (fun c => negb (is_query_sep c)) ds = true).
  { intros ds H. rewrite forallb_forall in *. intros c Hc.
    apply negb_true_iff, (digit_not_sep db), H, Hc. }
  destruct p as [ds | ds | |]; simpl; intros H; try reflexivity;
    apply andb_true_iff in H as [_ H]; apply Hd, H.
Qed.

(** The pattern of a pass takes the whole of a parameter of its kind. *)
Lemma pass_hit (db : unicode_db) (k : param_kind) (sep : N) (p : size_param)
    (rest : list N) (prev : option N) :
  is_query_sep sep = true -> same_kind k p = true -> param_ok db p = true ->
  head_out (is_digit db) rest = true ->
  match_at (pass_regex db k) prev (sep :: param_text p ++ rest) =
  Some (S (length (param_text p)), []).
Proof.
  intros Hsep Hk Hok Hrest.
  assert (Hsize : forall name ds,
             ds <> [] -> forallb (is_digit db) ds = true ->
             match_at (re_size_param db name) prev (sep :: (name ++ str "=" ++ ds) ++ rest)
             = Some (S (length (name ++ str "=" ++ ds)), [])).
  { intros name ds Hne Hds. unfold match_at, re_size_param.
    cbn [rmatch m_rest m_caps m_prev]. rewrite Hsep. rewrite <- !app_assoc.
    destruct (rmatch_lit name
                (fun st1 => rmatch (Lit (str "=")) st1
                              (fun st0 => rmatch (Plus (is_digit db)) st0 Some))
                (Some sep) (str "=" ++ ds ++ rest) []) as [pv ->].
    destruct (rmatch_lit (str "=")
                (fun st1 => rmatch (Plus (is_digit db)) st1 Some)
                pv (ds ++ rest) []) as [pv' ->].
    unfold Plus. cbn [rmatch m_rest m_caps m_prev].
    pose proof (span_run (is_digit db) ds rest Hds Hrest) as Hspan.
    destruct (rep_greedy_max (is_digit db) (fun pv s' => Some (MState pv s' []))
                (ds ++ rest) 1 pv') as [pv'' ->].
    - rewrite Hspan. destruct ds; [congruence | simpl; lia].
    - discriminate.
    - rewrite Hspan, drop_app_length. cbn [m_rest m_caps].
      do 2 f_equal. rewrite length_cons, !length_app.
      change (length (str "=")) with 1%nat. lia. }
  assert (Hcrop : forall name,
             match_at (re_crop_param name) prev (sep :: name ++ rest)
             = Some (S (length name), [])).
  { intros name. unfold match_at, re_crop_param.
    cbn [rmatch m_rest m_caps m_prev]. rewrite Hsep.
    destruct (rmatch_lit name Some (Some sep) rest []) as [pv ->].
    cbn [m_rest m_caps]. do 2 f_equal. rewrite length_cons, length_app. lia. }
  destruct k, p as [ds | ds | |]; try discriminate Hk; simpl in Hok;
    try (apply andb_true_iff in Hok as [Hne Hds];
         apply negb_true_iff in Hne; unfold str_eqb in Hne;
         apply bool_decide_eq_false in Hne).
  - apply (Hsize (str "w") ds); assumption.
  - apply (Hsize (str "h") ds); assumption.
  - apply (Hcrop (str "c_limit")).
  - apply (Hcrop (str "c_fill")).
Qed.

(** It matches at no parameter of another kind, and at no character that
    is not a separator. *)
Lemma pass_miss (db : unicode_db) (k : param_kind) (sep : N) (p : size_param)
    (rest : list N) (prev : option N) :
  same_kind k p = false ->
  match_at (pass_regex db k) prev (sep :: param_text p ++ rest) = None.
Proof.
  intros Hk. unfold match_at.
  destruct k, p as [ds | ds | |]; try discriminate Hk;
    unfold pass_regex, re_size_param, re_crop_param;
    cbn [rmatch m_rest m_caps m_prev];
    (destruct (is_query_sep sep); [| reflexivity]);
    rewrite rmatch_lit_fail by reflexivity; reflexivity.
Qed.

Lemma pass_plain (db : unicode_db) (k : param_kind) (c : N) (s : list N)
    (prev : option N) :
  is_query_sep c = false -> match_at (pass_regex db k) prev (c :: s) = None.
Proof.
  intros Hc. unfold match_at.
  destruct k; unfold pass_regex, re_size_param, re_crop_param;
    cbn [rmatch m_rest]; rewrite Hc; reflexivity.
Qed.

Lemma sub_copy_plain (r : regex) (repl : list (nat * list N) -> list N)
    (plain : N -> bool) (body rest out : list N) :
  (forall prev c s, plain c = true -> match_at r prev (c :: s) = None) ->
  forallb plain body = true ->
  (forall prev, sub_from r repl prev rest 0 = out) ->
  forall prev, sub_from r repl prev (body ++ rest) 0 = body ++ out.
Proof.
  intros Hplain Hbody Hrest. induction body as [|c body IH]; intros prev.
  - apply Hrest.
  - simpl in Hbody. apply andb_true_iff in Hbody as [Hc Hbody].
    cbn [app sub_from]. rewrite (Hplain prev c _ Hc), IH by exact Hbody.
    reflexivity.
Qed.

Lemma sub_skip (r : regex) (repl : list (nat * list N) -> list N)
    (body rest out : list N) :
  (forall prev, sub_from r repl prev rest 0 = out) ->
  forall prev, sub_from r repl prev (body ++ rest) (length body) = out.
Proof.
  intros Hrest. induction body as [|c body IH]; intros prev;
    [apply Hrest | apply IH].
Qed.

Lemma flat_segs_head (db : unicode_db) (segs : list (N * size_param)) :
  forallb (seg_ok db) segs = true ->
  head_out (is_digit db) (flat_map seg_text segs) = true.
Proof.
  destruct segs as [|[sep p] segs]; [reflexivity |]. simpl. intros H.
  apply andb_true_iff in H as [H _]. apply andb_true_iff in H as [H _].
  simpl in H. apply negb_true_iff, sep_not_digit, H.
Qed.

(** One pass removes the parameters of its kind, separator included, and
    nothing else. *)
Lemma pass_removes (db : unicode_db) (k : param_kind) (segs : list (N * size_param)) :
  forallb (seg_ok db) segs = true ->
  forall prev,
    sub_from (pass_regex db k) (const_repl []) prev (flat_map seg_text segs) 0 =
    flat_map seg_text (List.filter (fun seg => negb (same_kind k (snd seg))) segs).
Proof.
  induction segs as [|[sep p] segs IH]; intros Hok prev.
  - destruct k; reflexivity.
  - cbn [forallb] in Hok. apply andb_true_iff in Hok as [Hseg Hok].
    unfold seg_ok in Hseg. cbn [fst snd] in Hseg.
    apply andb_true_iff in Hseg as [Hsep Hp].
    specialize (IH Hok). cbn [flat_map seg_text fst snd List.filter app].
    destruct (same_kind k p) eqn:Hk; cbn [negb sub_from].
    + rewrite (pass_hit db k sep p _ prev Hsep Hk Hp (flat_segs_head db segs Hok)).
      unfold const_repl at 1. cbn [app]. apply sub_skip, IH.
    + rewrite (pass_miss db k sep p _ prev Hk). cbn [flat_map seg_text fst snd app].
      f_equal. apply (sub_copy_plain _ _ (fun c => negb (is_query_sep c))).
      * intros prev' c s Hc. apply pass_plain, negb_true_iff, Hc.
      * apply (param_text_plain db), Hp.
      * exact IH.
Qed.

Lemma filter_seg_ok (db : unicode_db) (f : N * size_param -> bool)
    (segs : list (N * size_param)) :
  forallb (seg_ok db) segs = true -> forallb (seg_ok db) (List.filter f segs) = true.
Proof.
  rewrite !forallb_forall. intros H seg Hin. apply filter_In in Hin as [Hin _].
  apply H, Hin.
Qed.

Lemma all_kinds_filtered (segs : list (N * size_param)) :
  List.filter (fun seg => negb (same_kind KFill (snd seg)))
    (List.filter (fun seg => negb (same_kind KLimit (snd seg)))
       (List.filter (fun seg => negb (same_kind KHeight (snd seg)))
          (List.filter (fun seg => negb (same_kind KWidth (snd seg))) segs))) = [].
Proof.
  induction segs as [|seg segs IH]; [reflexivity |].
  destruct seg as [sep [ds | ds | |]]; simpl; exact IH.
Qed.

(** A URL made of a path without separators and of size parameters is cut
    back to its path. *)
Lemma strip_size_params_path (db : unicode_db) (path : list N)
    (segs : list (N * size_param)) :
  forallb (fun c => negb (is_query_sep c)) path = true ->
  forallb (seg_ok db) segs = true ->
  strip_size_params db (path ++ flat_map seg_text segs) = path.
Proof.
  intros Hpath Hsegs.
  assert (Hpass : forall k segs', forallb (seg_ok db) segs' = true ->
            re_sub (pass_regex db k) (const_repl []) (path ++ flat_map seg_text segs')
            = path ++ flat_map seg_text
                        (List.filter (fun seg => negb (same_kind k (snd seg))) segs')).
  { intros k segs' Hok. unfold re_sub.
    apply (sub_copy_plain _ _ (fun c => negb (is_query_sep c))).
    - intros prev' c s Hc. apply pass_plain, negb_true_iff, Hc.
    - exact Hpath.
    - apply pass_removes, Hok. }
  unfold strip_size_params.
  change (re_size_param db (str "w")) with (pass_regex db KWidth).
  change (re_size_param db (str "h")) with (pass_regex db KHeight).
  change (re_crop_param (str "c_limit")) with (pass_regex db KLimit).
  change (re_crop_param (str "c_fill")) with (pass_regex db KFill).
  rewrite (Hpass KWidth) by exact Hsegs.
  rewrite (Hpass KHeight) by (apply filter_seg_ok, Hsegs).
  rewrite (Hpass KLimit) by (do 2 apply filter_seg_ok; exact Hsegs).
  rewrite (Hpass KFill) by (do 3 apply filter_seg_ok; exact Hsegs).
  rewrite all_kinds_filtered. apply app_nil_r.
Qed.

Lemma query_segs (params : list size_param) :
  query params = flat_map seg_text (segs_of params).
Proof.
  destruct params as [|p rest]; [reflexivity |].
  unfold query, segs_of. cbn [flat_map seg_text fst snd]. simpl. do 2 f_equal.
  induction rest as [|q rest IH]; [reflexivity |]. simpl. rewrite IH. reflexivity.
Qed.

Lemma segs_of_ok (db : unicode_db) (params : list size_param) :
  forallb (param_ok db) params = true -> forallb (seg_ok db) (segs_of params) = true.
Proof.
  destruct params as [|p rest]; [reflexivity |]. simpl. intros H.
  apply andb_true_iff in H as [Hp Hrest]. unfold seg_ok at 1. simpl.
  rewrite Hp. simpl. induction rest as [|q rest IH]; [reflexivity |].
  simpl in *. apply andb_true_iff in Hrest as [Hq Hrest].
  unfold seg_ok at 1. simpl. rewrite Hq. apply IH, Hrest.
Qed.

Lemma occurs_head_in (c : N) (p s : list N) : occurs (c :: p) s = true -> c ∈ s.
Proof.
  intros H. apply occurs_spec in H as (a & b & ->).
  apply elem_of_app. right. constructor.
Qed.

Lemma startswith_app_inv (p a b : list N) :
  startswith p (a ++ b) = true ->
  startswith p a = true \/ exists d, d ∈ p /\ head b = Some d.
Proof.
  revert a. induction p as [|c p IH]; intros a H; [left; reflexivity |].
  destruct a as [|x a]; simpl in *.
  - destruct b as [|d b]; [discriminate |]. apply andb_true_iff in H as [H _].
    apply N.eqb_eq in H. subst d. right. exists c. split; [constructor | reflexivity].
  - apply andb_true_iff in H as [Hc H]. rewrite Hc. simpl.
    destruct (IH a H) as [Hl | (d & Hd & Hh)]; [left; exact Hl |].
    right. exists d. split; [constructor; exact Hd | exact Hh].
Qed.

Lemma occurs_app_false (p a b : list N) :
  occurs p a = false ->
  (forall d, d ∈ p -> head b = Some d -> False) ->
  occurs p b = false ->
  occurs p (a ++ b) = false.
Proof.
  intros Ha Hb Hob. induction a as [|x a IH]; [exact Hob |].
  cbn [occurs] in Ha. apply orb_false_iff in Ha as [Hs Ha].
  change ((x :: a) ++ b) with (x :: (a ++ b)). cbn [occurs].
  rewrite (IH Ha), orb_false_r.
  destruct (startswith p (x :: a ++ b)) eqn:Hst; [| reflexivity].
  apply (startswith_app_inv p (x :: a) b) in Hst as [Hst | (d & Hd & Hh)].
  - congruence.
  - destruct (Hb d Hd Hh).
Qed.

Lemma flat_segs_no_s (db : unicode_db) (segs : list (N * size_param)) :
  forallb (seg_ok db) segs = true -> Forall (fun c => c <> 115) (flat_map seg_text segs).
Proof.
  assert (Hd : forall ds, forallb (is_digit db) ds = true -> Forall (fun c => c <> 115) ds).
  { intros ds H. apply Forall_forall. intros c Hc ->.
    rewrite forallb_forall in H. specialize (H 115 (proj1 (list_elem_of_In _ _) Hc)).
    discriminate H. }
  induction segs as [|[sep p] segs IH]; intros H; [constructor |].
  cbn [forallb] in H. apply andb_true_iff in H as [Hseg H].
  unfold seg_ok in Hseg. cbn [fst snd] in Hseg.
  apply andb_true_iff in Hseg as [Hsep Hp].
  change (flat_map seg_text ((sep, p) :: segs))
    with (sep :: param_text p ++ flat_map seg_text segs).
  constructor.
  - intros ->. discriminate Hsep.
  - apply Forall_app. split; [| apply IH, H].
    destruct p as [ds | ds | |]; simpl in *;
      try (apply andb_true_iff in Hp as [_ Hp]);
      repeat (constructor; [discriminate |]); auto; constructor.
Qed.

Lemma sized_url_not_cdn (db : unicode_db) (path : list N) (params : list size_param) :
  occurs (str "substackcdn.com") path = false ->
  forallb (param_ok db) params = true ->
  occurs (str "substackcdn.com") (sized_url path params) = false.
Proof.
  intros Hpath Hok. unfold sized_url. rewrite query_segs.
  pose proof (segs_of_ok db params Hok) as Hsegs.
  apply occurs_app_false; [exact Hpath | |].
  - intros d Hd Hh.
    assert (Hsep : is_query_sep d = true).
    { destruct (segs_of params) as [|[sep p] segs]; [discriminate |].
      simpl in Hh, Hsegs. injection Hh as ->.
      apply andb_true_iff in Hsegs as [Hs _]. apply andb_true_iff in Hs as [Hs _].
      exact Hs. }
    assert (Hall : forallb (fun c => negb (is_query_sep c)) (str "substackcdn.com") = true)
      by reflexivity.
    rewrite forallb_forall in Hall.
    specialize (Hall d (proj1 (list_elem_of_In _ _) Hd)).
    rewrite Hsep in Hall. discriminate.
  - destruct (occurs (str "substackcdn.com") (flat_map seg_text (segs_of params)))
      eqn:Ho; [| reflexivity].
    apply occurs_head_in in Ho.
    pose proof (flat_segs_no_s db _ Hsegs) as Hno.
    rewrite Forall_forall in Hno. destruct (Hno _ Ho). reflexivity.
Qed.

(** C4 (amended): for a URL outside the CDN whose path holds no [?] or [&]
    and whose query is made of size and crop parameters only ([w=] and
    [h=] with a number, [c_limit], [c_fill]), in any number and order, the
    key is the path: two such URLs with the same path have the same key. *)
Theorem extract_base_image_url_size_params (db : unicode_db) (path : list N)
    (params params' : list size_param) :
  forallb (fun c => negb (is_query_sep c)) path = true ->
  occurs (str "substackcdn.com") path = false ->
  forallb (param_ok db) params = true ->
  forallb (param_ok db) params' = true ->
  extract_base_image_url db (sized_url path params) = path /\
  extract_base_image_url db (sized_url path params) =
  extract_base_image_url db (sized_url path params').
Proof.
  intros Hpath Hcdn Hok Hok'.
  assert (Hkey : forall ps, forallb (param_ok db) ps = true ->
                            extract_base_image_url db (sized_url path ps) = path).
  { intros ps Hps. unfold extract_base_image_url.
    rewrite (sized_url_not_cdn db path ps Hcdn Hps).
    destruct (sized_url path ps) as [|c url] eqn:Hurl.
    - unfold sized_url in Hurl. apply app_eq_nil in Hurl as [-> _]. reflexivity.
    - rewrite <- Hurl. unfold sized_url. rewrite query_segs.
      apply strip_size_params_path; [exact Hpath | apply segs_of_ok, Hps]. }
  split; [apply Hkey, Hok |]. rewrite !Hkey by assumption. reflexivity.
Qed.

(** C4 at work: the same picture asked for in two sizes and crops. *)
Lemma extract_base_image_url_size_params_witness :
  extract_base_image_url ascii_db (str "http://host/a.png?w=100&h=50&c_fill")
    = str "http://host/a.png" /\
  extract_base_image_url ascii_db (str "http://host/a.png?w=100&h=50&c_fill")
    = extract_base_image_url ascii_db (str "http://host/a.png?c_limit&w=800").
Proof.
  exact (extract_base_image_url_size_params ascii_db (str "http://host/a.png")
           [Width (str "100"); Height (str "50"); CropFill]
           [CropLimit; Width (str "800")]
           eq_refl eq_refl eq_refl eq_refl).
Defined.

(** C4 (as stated) fails: these two URLs differ only in where their [w=]
    parameter stands, and their keys differ, since the separator goes with
    the parameter. *)
Lemma extract_base_image_url_order_matters :
  extract_base_image_url ascii_db (str "http://host/a.png?w=100&id=5")
    = str "http://host/a.png&id=5" /\
  extract_base_image_url ascii_db (str "http://host/a.png?id=5&w=100")
    = str "http://host/a.png?id=5" /\
  extract_base_image_url ascii_db (str "http://host/a.png?w=100&id=5")
    <> extract_base_image_url ascii_db (str "http://host/a.png?id=5&w=100").
Proof. vm_compute. repeat split. discriminate. Qed.

(** ** Neighbours in a class *)

Lemma no_adj_cons (p : N -> bool) (a : N) (l : list N) :
  no_adj p (a :: l) = negb (p a && negb (head_out p l)) && no_adj p l.
Proof.
  destruct l as [|b l]; simpl; [rewrite andb_false_r; reflexivity |].
  rewrite negb_involutive. reflexivity.
Qed.

Lemma no_adj_app_inv (p : N -> bool) (a b : list N) :
  no_adj p (a ++ b) = true -> no_adj p a = true /\ no_adj p b = true.
Proof.
  induction a as [|x a IH]; intros H; [split; [reflexivity | exact H] |].
  change ((x :: a) ++ b) with (x :: (a ++ b)) in H.
  rewrite no_adj_cons in *. apply andb_true_iff in H as [Hx H].
  destruct (IH H) as [Ha Hb]. split; [| exact Hb]. rewrite Ha, andb_true_r.
  destruct a as [|y a]; [rewrite andb_false_r; reflexivity | exact Hx].
Qed.

Lemma no_adj_drop (p : N -> bool) (n : nat) (s : list N) :
  no_adj p s = true -> no_adj p (drop n s) = true.
Proof.
  intros H. rewrite <- (take_drop n s) in H. apply no_adj_app_inv in H as [_ H].
  exact H.
Qed.

Lemma strip_no_adj (p : N -> bool) (s : list N) :
  no_adj p s = true -> no_adj p (strip s) = true.
Proof.
  intros H. destruct (strip_parts s) as (u & v & Hs & _). rewrite Hs in H.
  apply no_adj_app_inv in H as [_ H]. apply no_adj_app_inv in H as [H _]. exact H.
Qed.

Lemma span_zero (p : N -> bool) (s : list N) :
  span p s = O -> head_out p s = true.
Proof.
  destruct s as [|c s]; [reflexivity |]. simpl.
  destruct (p c); [discriminate | reflexivity].
Qed.

(** Replacing every run of at least [lo] characters of a class by one
    character leaves no two neighbours in the class, when [lo] is 1 or 2. *)
Lemma sub_runs_no_adj (p : N -> bool) (lo : nat) (x : N) (s : list N) :
  (1 <= lo <= 2)%nat ->
  forall (prev : option N) (skip : nat),
    forallb p (take skip s) = true ->
    (skip <> O -> head_out p (drop skip s) = true) ->
    no_adj p (sub_from (Rep true lo None p) (const_repl [x]) prev s skip) = true /\
    (head_out p (drop skip s) = true ->
     head_out p (sub_from (Rep true lo None p) (const_repl [x]) prev s skip) = true).
Proof.
  intros Hlo. induction s as [|c s IH]; intros prev skip Htake Hdrop.
  - simpl. destruct skip; [| split; reflexivity].
    rewrite match_at_rep. simpl.
    destruct lo; [lia |]. split; reflexivity.
  - destruct skip as [|n].
    + cbn [sub_from]. rewrite match_at_rep. cbn [span].
      destruct (p c) eqn:Hc.
      * destruct (lo <=? S (span p s))%nat eqn:Hle.
        -- destruct (IH (Some c) (span p s) (span_take p s)
                        (fun _ => span_drop p s)) as [Hn Hh].
           change (const_repl [x] []) with [x]. cbn [app]. split.
           ++ rewrite no_adj_cons, Hn, (Hh (span_drop p s)).
              rewrite andb_false_r. reflexivity.
           ++ simpl. rewrite Hc. discriminate.
        -- apply Nat.leb_gt in Hle.
           destruct (IH (Some c) O eq_refl (fun H => False_ind _ (H eq_refl)))
             as [Hn Hh].
           split.
           ++ rewrite no_adj_cons, Hn, Hh; [rewrite andb_false_r; reflexivity |].
              change (drop 0 s) with s. apply span_zero. lia.
           ++ simpl. rewrite Hc. discriminate.
      * assert ((lo <=? 0)%nat = false) as -> by (apply Nat.leb_gt; lia).
        destruct (IH (Some c) O eq_refl (fun H => False_ind _ (H eq_refl)))
          as [Hn Hh].
        split; [rewrite no_adj_cons, Hn, Hc; reflexivity |].
        simpl. rewrite Hc. reflexivity.
    + cbn [sub_from]. change (drop (S n) (c :: s)) with (drop n s) in *.
      change (take (S n) (c :: s)) with (c :: take n s) in Htake.
      cbn [forallb] in Htake.
      apply andb_true_iff in Htake as [_ Htake].
      apply IH; [exact Htake |]. intros _. apply Hdrop. discriminate.
Qed.

(** Replacing matches by a character outside the class makes no new
    neighbours in the class. *)
Lemma sub_keeps_no_adj (p : N -> bool) (r : regex) (x : N) (s : list N) :
  p x = false ->
  forall (prev : option N) (skip : nat),
    no_adj p (drop skip s) = true ->
    no_adj p (sub_from r (const_repl [x]) prev s skip) = true /\
    (head_out p (drop skip s) = true ->
     head_out p (sub_from r (const_repl [x]) prev s skip) = true).
Proof.
  intros Hx. induction s as [|c s IH]; intros prev skip Hs.
  - simpl. destruct skip; [| split; reflexivity].
    destruct (match_at r prev []) as [[n caps] |]; [| split; reflexivity].
    change (const_repl [x] caps) with [x]. simpl. rewrite Hx. split; reflexivity.
  - destruct skip as [|n]; [| apply IH, Hs].
    change (drop 0 (c :: s)) with (c :: s) in *. rewrite no_adj_cons in Hs.
    apply andb_true_iff in Hs as [Hc Hs].
    assert (Hcopy : no_adj p (c :: sub_from r (const_repl [x]) (Some c) s 0) = true).
    { destruct (IH (Some c) O Hs) as [Hn Hh]. rewrite no_adj_cons, Hn, andb_true_r.
      destruct (p c); [| reflexivity]. simpl in *.
      apply negb_true_iff, negb_false_iff in Hc. rewrite (Hh Hc). reflexivity. }
    cbn [sub_from].
    destruct (match_at r prev (c :: s)) as [[[|n] caps] |];
      try change (const_repl [x] caps) with [x].
    + cbn [app]. split; [| simpl; rewrite Hx; reflexivity].
      rewrite no_adj_cons, Hx, Hcopy. reflexivity.
    + cbn [app]. split; [| simpl; rewrite Hx; reflexivity].
      destruct (IH (Some c) n (no_adj_drop p n s Hs)) as [Hn _].
      rewrite no_adj_cons, Hx, Hn. reflexivity.
    + split; [exact Hcopy | intros H; exact H].
Qed.

(** ** Text Normalizer: a second pass *)

Lemma clean_text_no_adj (db : unicode_db) (text : list N) :
  no_adj is_space (clean_text db text) = true /\
  no_adj (is_char bang) (clean_text db text) = true.
Proof.
  unfold clean_text. destruct text as [|c0 text0]; [split; reflexivity |].
  cbv zeta. split; apply strip_no_adj; unfold re_sub.
  - apply (sub_runs_no_adj is_space 1 32); [lia | reflexivity | congruence].
  - apply (sub_keeps_no_adj (is_char bang) re_spaces 32); [reflexivity |].
    apply (sub_keeps_no_adj (is_char bang) (re_lone_symbols db) 32); [reflexivity |].
    apply (sub_runs_no_adj (is_char bang) 2 33); [lia | reflexivity | congruence].
Qed.

Lemma replace_absent (old new s : list N) :
  old <> [] -> occurs old s = false -> replace old new s = s.
Proof.
  intros Hne Ho. unfold replace. destruct old as [|a old]; [congruence |].
  clear Hne. induction s as [|c s IH]; [reflexivity |].
  cbn [occurs] in Ho. apply orb_false_iff in Ho as [Hs Ho].
  cbn [replace_from]. rewrite Hs, IH by exact Ho. reflexivity.
Qed.

Lemma replace_all_absent (table : list (list N * list N)) (s : list N) :
  Forall (fun entry => fst entry <> [] /\ occurs (fst entry) s = false) table ->
  replace_all table s = s.
Proof.
  unfold replace_all. induction table as [|[old new] table IH]; intros H;
    [reflexivity |].
  apply Forall_cons in H as [[Hne Ho] H]. cbn [fold_left fst] in *.
  rewrite replace_absent by assumption. apply IH, H.
Qed.

Lemma occurs_absent_char (c : N) (p s : list N) :
  Forall (fun d => d <> c) s -> occurs (c :: p) s = false.
Proof.
  intros H. destruct (occurs (c :: p) s) eqn:Ho; [| reflexivity].
  apply occurs_head_in in Ho. rewrite Forall_forall in H. destruct (H c Ho).
  reflexivity.
Qed.

Lemma search_unprintable (s : list N) :
  Forall (fun c => is_printable c = true) s ->
  forall prev, search_from re_unprintable prev s = None.
Proof.
  induction s as [|c s IH]; intros H prev; cbn [search_from];
    unfold re_unprintable; rewrite match_at_cls; [reflexivity |].
  apply Forall_cons in H as [Hc H]. rewrite Hc. apply IH, H.
Qed.

Lemma head_out_span (p : N -> bool) (s : list N) :
  head_out p s = true -> span p s = O.
Proof.
  destruct s as [|c s]; [reflexivity |]. simpl.
  destruct (p c); [discriminate | reflexivity].
Qed.

Lemma no_adj_span (p : N -> bool) (c : N) (s : list N) :
  no_adj p (c :: s) = true -> (span p (c :: s) <= 1)%nat.
Proof.
  rewrite no_adj_cons. intros H. apply andb_true_iff in H as [H _].
  simpl. destruct (p c); [| lia]. simpl in H.
  apply negb_true_iff, negb_false_iff in H. rewrite (head_out_span p s H). lia.
Qed.

Lemma no_adj_tail (p : N -> bool) (c : N) (s : list N) :
  no_adj p (c :: s) = true -> no_adj p s = true.
Proof. rewrite no_adj_cons. intros H. apply andb_true_iff in H as [_ H]. exact H. Qed.

Lemma search_bangs (s : list N) :
  no_adj (is_char bang) s = true ->
  forall prev, search_from re_bangs prev s = None.
Proof.
  induction s as [|c s IH]; intros H prev; cbn [search_from];
    unfold re_bangs; rewrite match_at_rep; [reflexivity |].
  pose proof (no_adj_span _ c s H).
  assert ((2 <=? span (is_char bang) (c :: s))%nat = false) as ->
      by (apply Nat.leb_gt; lia).
  apply IH. eapply no_adj_tail, H.
Qed.

(** Single blanks are replaced by themselves. *)
Lemma sub_spaces_id (s : list N) :
  Forall (fun c => is_space c = true -> c = space) s ->
  no_adj is_space s = true ->
  forall prev, sub_from re_spaces (const_repl (str " ")) prev s 0 = s.
Proof.
  induction s as [|c s IH]; intros Hsp Hadj prev; cbn [sub_from];
    unfold re_spaces, Plus; rewrite match_at_rep; [reflexivity |].
  apply Forall_cons in Hsp as [Hc Hsp].
  pose proof (no_adj_span _ c s Hadj) as Hspan.
  pose proof (IH Hsp (no_adj_tail _ c s Hadj) (Some c)) as IH'.
  unfold re_spaces, Plus in IH'.
  simpl in Hspan |- *. destruct (is_space c) eqn:Hs.
  - assert (span is_space s = O) as -> by lia. simpl.
    rewrite IH', (Hc eq_refl). reflexivity.
  - simpl. rewrite IH'. reflexivity.
Qed.

Lemma lstrip_id (s : list N) : head_out is_space s = true -> lstrip s = s.
Proof.
  destruct s as [|c s]; [reflexivity |]. simpl.
  destruct (is_space c); [discriminate | reflexivity].
Qed.

Lemma strip_id (s : list N) :
  head_out is_space s = true -> head_out is_space (rev s) = true -> strip s = s.
Proof.
  intros Hh Hl. unfold strip, rstrip.
  rewrite (lstrip_id s Hh), (lstrip_id (rev s) Hl). apply rev_involutive.
Qed.

Lemma clean_space (c : N) : clean_char c = true -> is_space c = true -> c = space.
Proof.
  unfold clean_char, is_space, in_range, space, backslash. intros Hc Hs.
  repeat bool_arith. lia.
Qed.

Lemma clean_printable (c : N) : clean_char c = true -> is_printable c = true.
Proof.
  unfold clean_char, is_printable. intros H. apply andb_true_iff in H as [H _].
  rewrite H. reflexivity.
Qed.

Lemma clean_not_backslash (c : N) : clean_char c = true -> c <> backslash.
Proof.
  unfold clean_char. intros H. apply andb_true_iff in H as [_ H].
  apply negb_true_iff, N.eqb_neq in H. exact H.
Qed.

(** A text of the shape [clean_text] gives its results, on which its
    patterns find nothing, is returned as it is. *)
Lemma clean_text_fixed (db : unicode_db) (y : list N) :
  Forall (fun c => clean_char c = true) y ->
  head_out is_space y = true -> head_out is_space (rev y) = true ->
  no_adj is_space y = true -> no_adj (is_char bang) y = true ->
  stable db y = true ->
  clean_text db y = y.
Proof.
  intros Hclean Hhead Hlast Hsp Hbang Hst.
  unfold stable in Hst. apply andb_true_iff in Hst as [Hst Hsym].
  apply andb_true_iff in Hst as [Hent Hlone].
  assert (Hnb : Forall (fun d => d <> backslash) y).
  { eapply Forall_impl; [exact Hclean |]. apply clean_not_backslash. }
  unfold clean_text. destruct y as [|c0 y0] eqn:Hy; [reflexivity |].
  rewrite <- Hy in *. clear Hy c0 y0. cbv zeta.
  rewrite (replace_all_absent html_entities).
  2:{ apply Forall_forall. intros entry Hin. rewrite forallb_forall in Hent.
      specialize (Hent entry (proj1 (list_elem_of_In _ _) Hin)).
      apply negb_true_iff in Hent. split; [| exact Hent].
      revert Hin. unfold html_entities. rewrite !elem_of_cons, elem_of_nil.
      intros Hin. repeat (destruct Hin as [-> | Hin]; [discriminate |]).
      destruct Hin. }
  rewrite (replace_all_absent escapes).
  2:{ apply Forall_forall. intros entry Hin.
      revert Hin. unfold escapes. rewrite !elem_of_cons, elem_of_nil.
      intros Hin.
      repeat (destruct Hin as [-> | Hin];
              [split; [discriminate | apply occurs_absent_char, Hnb] |]).
      destruct Hin. }
  rewrite replace_absent;
    [| discriminate | apply occurs_absent_char, Hnb].
  unfold re_sub.
  rewrite (sub_from_no_match re_unprintable).
  2:{ apply search_unprintable. eapply Forall_impl; [exact Hclean |].
      apply clean_printable. }
  rewrite (sub_from_no_match re_lone_bangs).
  2:{ apply negb_true_iff in Hlone. unfold re_search in Hlone.
      destruct (search_from re_lone_bangs None y); [discriminate | reflexivity]. }
  rewrite (sub_from_no_match re_bangs) by (apply search_bangs, Hbang).
  rewrite (sub_from_no_match (re_lone_symbols db)).
  2:{ apply negb_true_iff in Hsym. unfold re_search in Hsym.
      destruct (search_from (re_lone_symbols db) None y);
        [discriminate | reflexivity]. }
  rewrite sub_spaces_id; [apply strip_id; assumption | | exact Hsp].
  eapply Forall_impl; [exact Hclean |]. apply clean_space.
Qed.

(** C3 (amended): a second pass of [clean_text] changes nothing whenever
    the result of the first is [stable]: it holds none of the entities and
    neither the pattern of the lone exclamation marks nor that of the lone
    symbols matches in it.  Each entity of the table, cleaned on its own,
    gives its character (with the blank of [&nbsp;] stripped), and cleaning
    that again changes nothing. *)
Theorem clean_text_idempotent_when_stable (db : unicode_db) :
  (forall text,
     stable db (clean_text db text) = true ->
     clean_text db (clean_text db text) = clean_text db text) /\
  Forall (fun entity =>
            clean_text db (fst entity) = strip (snd entity) /\
            clean_text db (clean_text db (fst entity)) = clean_text db (fst entity))
         html_entities.
Proof.
  split.
  - intros text Hst.
    destruct (clean_text_ends db text) as [Hh Hl].
    destruct (clean_text_no_adj db text) as [Hsp Hb].
    apply clean_text_fixed; try assumption. apply clean_text_clean.
  - repeat constructor; vm_compute; reflexivity.
Qed.

(** C3 at work: a text with an entity, a run of blanks and a run of
    exclamation marks. *)
Lemma clean_text_idempotent_when_stable_witness :
  stable ascii_db (clean_text ascii_db (str "Hello,   world!!  &lt;ok&gt;")) = true /\
  clean_text ascii_db (clean_text ascii_db (str "Hello,   world!!  &lt;ok&gt;"))
    = clean_text ascii_db (str "Hello,   world!!  &lt;ok&gt;").
Proof.
  split; [reflexivity |].
  exact (proj1 (clean_text_idempotent_when_stable ascii_db)
               (str "Hello,   world!!  &lt;ok&gt;") eq_refl).
Defined.

(** C3 (as stated) fails: [&amp;quot;] is cleaned to [&quot;], and that to
    a double quote. *)
Lemma clean_text_not_idempotent :
  clean_text ascii_db (str "&amp;quot;") = str "&quot;" /\
  clean_text ascii_db (str "&quot;") = [dquote] /\
  clean_text ascii_db (clean_text ascii_db (str "&amp;quot;"))
    <> clean_text ascii_db (str "&amp;quot;").
Proof. vm_compute. repeat split. discriminate. Qed.

(** * Further properties of the code *)

(** ** Image Classifier: the checks that decide *)

Lemma no_skip_pattern_lower (db : unicode_db) (src alt : list N) :
  existsb (fun pattern => occurs pattern (lower db src) || occurs pattern (lower db alt))
          skip_patterns = false ->
  forall pattern, pattern ∈ skip_patterns -> occurs pattern src = false.
Proof.
  intros He pattern Hin. destruct (occurs pattern src) eqn:Ho; [| reflexivity].
  apply (occurs_lower db) in Ho; [| apply skip_pattern_stable, Hin].
  apply (existsb_false_elem _ _ pattern) in He; [| exact Hin].
  cbv beta in He. rewrite Ho in He. discriminate.
Qed.

(** X1: the first check of [is_content_image] decides alone.  An image is
    kept exactly when no token of [skip_patterns] occurs in its URL or alt
    text once lower-cased: the later checks (small sizes, profile hosts,
    the length of the alt text, large sizes) never change the answer. *)
Theorem is_content_image_first_check_decides (db : unicode_db) (src alt : list N) :
  is_content_image db src alt =
  negb (existsb (fun pattern => occurs pattern (lower db src)
                                || occurs pattern (lower db alt))
                skip_patterns).
Proof.
  unfold is_content_image.
  destruct (existsb _ skip_patterns) eqn:He; [reflexivity |].
  pose proof (no_skip_pattern_lower db src alt He) as Hsrc.
  assert (existsb (fun size => occurs size src) small_sizes = false) as ->.
  { apply not_true_is_false. intros Hs.
    apply existsb_exists in Hs as (size & Hin & Ho).
    rewrite Hsrc in Ho; [discriminate |].
    apply list_elem_of_In in Hin. revert Hin. unfold small_sizes, skip_patterns.
    rewrite !elem_of_cons. intuition auto. }
  rewrite !Hsrc; [| unfold skip_patterns; rewrite !elem_of_cons; tauto ..].
  cbn [orb negb]. destruct (negb _ && _); [reflexivity |].
  destruct (existsb _ large_sizes); reflexivity.
Qed.

(** ** Content Extractor: nothing acceptable is lost *)

Lemma collect_images_eq (db : unicode_db) (images : list node) :
  collect_images db images =
  first_seen (image_key db) (List.filter (eligible db) (image_of <$> images)).
Proof.
  unfold collect_images. rewrite collect_images_fold. simpl.
  apply filter_all. intros im. apply not_elem_of_empty.
Qed.

Lemma first_seen_keys {A} (key : A -> list N) (l : list A) (x : A) :
  x ∈ l -> key x ∈ key <$> first_seen key l.
Proof.
  induction l as [|y l IH]; intros Hin; [inversion Hin |].
  cbn [first_seen]. rewrite fmap_cons.
  destruct (decide (key x = key y)) as [-> | Hne]; [apply list_elem_of_here |].
  apply list_elem_of_further.
  apply elem_of_cons in Hin as [-> | Hin]; [congruence |].
  apply list_elem_of_fmap in IH as (z & Hz & Hzin); [| exact Hin].
  apply list_elem_of_fmap. exists z. split; [exact Hz |].
  apply list_elem_of_filter. split; [congruence | exact Hzin].
Qed.

Lemma filter_bool_elem {A} (f : A -> bool) (l : list A) (x : A) :
  x ∈ List.filter f l <-> x ∈ l /\ f x = true.
Proof. rewrite !list_elem_of_In. apply filter_In. Qed.

(** X2: every image kept for an article has an absolute [src] that the
    classifier accepts, and no acceptable image of the content area goes
    unrepresented: the key of each is the key of a kept image. *)
Theorem collect_images_sound_complete (db : unicode_db) (images : list node) :
  Forall (fun im => eligible db im = true) (collect_images db images) /\
  Forall (fun img => eligible db (image_of img) = true ->
                     image_key db (image_of img)
                       ∈ image_key db <$> collect_images db images)
         images.
Proof.
  rewrite collect_images_eq. split.
  - apply Forall_forall. intros im Hin.
    eapply elem_of_sublist in Hin; [| apply first_seen_sublist].
    apply filter_bool_elem in Hin. apply Hin.
  - apply Forall_forall. intros img Hin He. apply first_seen_keys.
    apply filter_bool_elem. split; [| exact He].
    apply list_elem_of_fmap. exists img. split; [reflexivity | exact Hin].
Qed.

(** ** Markdown Cleaner: what comes out *)

Lemma match_at_blanks (prev : option N) (c : N) (s : list N) :
  one_of [space; tab] c = true ->
  exists n caps, match_at re_blanks prev (c :: s) = Some (S n, caps).
Proof.
  intros Hc. unfold re_blanks, Plus. rewrite match_at_rep. cbn [span].
  rewrite Hc. simpl. eauto.
Qed.

Lemma md_char_facts (c : N) :
  is_printable c = true -> c <> backslash ->
  one_of [space; tab] c = false \/ c = space -> md_char c = true /\ c <> tab.
Proof.
  unfold is_printable, md_char, one_of, in_range, nl, tab, backslash, space.
  cbn [existsb]. intros Hp Hb Hs. split; repeat bool_arith; lia.
Qed.

Lemma clean_markdown_chars (db : unicode_db) (markdown_content : list N) :
  Forall (fun c => md_char c = true /\ c <> tab)
         (clean_markdown_content db markdown_content).
Proof.
  unfold clean_markdown_content.
  destruct markdown_content as [|c0 text0]; [constructor |]. cbv zeta.
  apply strip_Forall.
  set (t := replace [backslash] [] _).
  assert (Ht : Forall (fun c => is_printable c = true /\ c <> backslash)
                 (re_sub re_blank_lines (const_repl [nl; nl])
                    (re_sub re_bangs (const_repl (str "!"))
                       (re_sub re_lone_bangs (const_repl (str " "))
                          (re_sub re_unprintable (const_repl []) t))))).
  { unfold re_sub.
    do 3 (apply sub_from_chars; [| repeat constructor; discriminate]).
    apply Forall_and. split.
    - eapply Forall_impl;
        [apply (sub_from_unmatched (fun c => negb (is_printable c)));
         apply match_at_unprintable |].
      intros c [Hc | Hc]; [apply negb_false_iff, Hc | inversion Hc].
    - apply sub_from_chars; [apply replace_char_removes | constructor]. }
  set (t4 := re_sub re_blank_lines _ _) in *.
  assert (Hs : Forall (fun c => one_of [space; tab] c = false \/ c ∈ str " ")
                 (re_sub re_blanks (const_repl (str " ")) t4)).
  { apply (sub_from_unmatched (one_of [space; tab])), match_at_blanks. }
  assert (Hp : Forall (fun c => is_printable c = true /\ c <> backslash)
                 (re_sub re_blanks (const_repl (str " ")) t4)).
  { apply sub_from_chars; [exact Ht | repeat constructor; discriminate]. }
  rewrite Forall_forall in *. intros c Hc.
  destruct (Hp c Hc) as [Hpc Hbc]. apply md_char_facts; [assumption .. |].
  destruct (Hs c Hc) as [H | H]; [left; exact H | right].
  apply list_elem_of_singleton in H. exact H.
Qed.

Lemma clean_markdown_ends (db : unicode_db) (markdown_content : list N) :
  head_out is_space (clean_markdown_content db markdown_content) = true /\
  head_out is_space (rev (clean_markdown_content db markdown_content)) = true.
Proof.
  unfold clean_markdown_content.
  destruct markdown_content as [|c0 text0]; [split; reflexivity |].
  cbv zeta. split; [apply strip_head | apply strip_last].
Qed.

Lemma md_char_spec (c : N) :
  md_char c = true /\ c <> tab ->
  c <> backslash /\ c <> tab /\ (in_range 32 126 c = true \/ c = nl).
Proof.
  unfold md_char, in_range, backslash, nl, tab. intros [H Ht].
  repeat bool_arith. repeat split; [lia .. |].
  destruct H as [[H | H] Hb]; [left | right; exact H]. repeat bool_arith. lia.
Qed.

Lemma head_out_head (p : N -> bool) (s : list N) (c : N) :
  head_out p s = true -> head s = Some c -> p c = false.
Proof.
  destruct s as [|d l]; [discriminate |]. simpl. intros Hh [= ->].
  apply negb_true_iff, Hh.
Qed.

Lemma head_out_last (p : N -> bool) (s : list N) (c : N) :
  head_out p (rev s) = true -> last s = Some c -> p c = false.
Proof.
  intros Hl Hc. apply last_Some in Hc as [l' ->]. rewrite rev_app_distr in Hl.
  apply negb_true_iff, Hl.
Qed.

(** X3: whatever markdown it is given, [clean_markdown_content] returns a
    text of printable ASCII characters and line feeds only, with no
    backslash and no tab in it, that neither starts nor ends with white
    space. *)
Theorem clean_markdown_content_output (db : unicode_db) (markdown_content : list N) :
  Forall (fun c => c <> backslash /\ c <> tab /\ (in_range 32 126 c = true \/ c = nl))
         (clean_markdown_content db markdown_content) /\
  (forall c, head (clean_markdown_content db markdown_content) = Some c ->
             is_space c = false) /\
  (forall c, last (clean_markdown_content db markdown_content) = Some c ->
             is_space c = false).
Proof.
  destruct (clean_markdown_ends db markdown_content) as [Hh Hl].
  split; [| split].
  - eapply Forall_impl; [apply clean_markdown_chars |]. apply md_char_spec.
  - intros c. apply head_out_head, Hh.
  - intros c. apply head_out_last, Hl.
Qed.

(** ** Content Extractor: what a successful extraction leaves *)

(** X4: when [extract_article_content] returns a text, that text is one
    [clean_markdown_content] made (no backslash, no tab, printable ASCII
    and line feeds, no white space at its ends), and the images stored for
    the article are set: all of them acceptable, no two with the same
    key. *)
Theorem extract_article_content_success (db : unicode_db) (w : world)
    (self self' : converter) (article_url content : list N) :
  extract_article_content db w self article_url = (Some content, self') ->
  (Forall (fun c => c <> backslash /\ c <> tab /\
                    (in_range 32 126 c = true \/ c = nl)) content /\
   (forall c, head content = Some c -> is_space c = false) /\
   (forall c, last content = Some c -> is_space c = false)) /\
  exists images,
    current_article_images self' = Some images /\
    Forall (fun im => eligible db im = true) images /\
    NoDup (image_key db <$> images).
Proof.
  unfold extract_article_content.
  destruct (fetch_page w _) as [soup |]; [| discriminate].
  cbv zeta. destruct (truthy _); [| discriminate].
  destruct (h2t_handle w _) as [markdown_content |]; [| discriminate].
  intros [= <- <-]. split.
  - destruct (clean_markdown_ends db markdown_content) as [Hh Hl].
    split; [| split].
    + eapply Forall_impl; [apply clean_markdown_chars |]. apply md_char_spec.
    + intros c. apply head_out_head, Hh.
    + intros c. apply head_out_last, Hl.
  - eexists. split; [reflexivity |].
    destruct (sel_elem _) as [elem |].
    + rewrite collect_images_eq. split; [| apply first_seen_NoDup].
      apply Forall_forall. intros im Hin.
      eapply elem_of_sublist in Hin; [| apply first_seen_sublist].
      apply filter_bool_elem in Hin. apply Hin.
    + split; constructor.
Qed.

Lemma extract_article_content_success_witness :
  (Forall (fun c => c <> backslash /\ c <> tab /\
                    (in_range 32 126 c = true \/ c = nl))
          (strip (concat (replicate 60 (str "All the news. ")))) /\
   (forall c, head (strip (concat (replicate 60 (str "All the news. ")))) = Some c ->
              is_space c = false) /\
   (forall c, last (strip (concat (replicate 60 (str "All the news. ")))) = Some c ->
              is_space c = false)) /\
  exists images,
    current_article_images (Converter (Some [(str "http://host/a.png?w=100", [])]))
      = Some images /\
    Forall (fun im => eligible ascii_db im = true) images /\
    NoDup (image_key ascii_db <$> images).
Proof.
  apply (extract_article_content_success ascii_db demo_world (Converter None) _
           (str "http://host/one#top")).
  vm_compute. reflexivity.
Defined.

(** ** Content Extractor: stripping the boilerplate *)

Lemma node_children_ind (P : node -> Prop) :
  (forall t c a ch, Forall P ch -> P (Element t c a ch)) ->
  (forall t, P (TextNode t)) -> (forall t, P (Comment t)) ->
  forall n, P n.
Proof.
  intros He Ht Hc. fix IH 1. intros [t c a ch | t | t]; [| apply Ht | apply Hc].
  apply He. induction ch as [|x ch IHch]; constructor; [apply IH | exact IHch].
Qed.

Lemma shallow_decompose_all (p q : node -> bool) (n : node) :
  shallow p -> p (decompose_all q n) = p n.
Proof. intros Hp. destruct n; [apply Hp | reflexivity ..]. Qed.

Lemma has_tag_shallow (tags : list (list N)) : shallow (has_tag tags).
Proof. intros t c a ch ch'. reflexivity. Qed.

Lemma has_boilerplate_class_shallow : shallow has_boilerplate_class.
Proof. intros t c a ch ch'. reflexivity. Qed.

(** Removing the nodes that satisfy [p] leaves none of them. *)
Lemma find_all_decompose_all (p : node -> bool) (n : node) :
  shallow p -> find_all p (decompose_all p n) = [].
Proof.
  intros Hp. induction n as [t c a ch IH | t | t] using node_children_ind;
    [| reflexivity ..].
  cbn [decompose_all find_all].
  induction IH as [|x ch Hx _ IHch]; [reflexivity |].
  destruct (p x) eqn:Hpx; [exact IHch |].
  rewrite shallow_decompose_all, Hpx, Hx, IHch by exact Hp. reflexivity.
Qed.

(** Removing the nodes that satisfy [q] brings no node satisfying [p] in. *)
Lemma find_all_decompose_other (p q : node -> bool) (n : node) :
  shallow p -> find_all p n = [] -> find_all p (decompose_all q n) = [].
Proof.
  intros Hp. induction n as [t c a ch IH | t | t] using node_children_ind;
    [| reflexivity ..].
  cbn [decompose_all find_all].
  induction IH as [|x ch Hx _ IHch]; [reflexivity |].
  intros Hnil. apply app_eq_nil in Hnil as [Hpx Hnil].
  apply app_eq_nil in Hnil as [Hfx Hnil].
  destruct (q x); [exact (IHch Hnil) |].
  rewrite shallow_decompose_all by exact Hp.
  destruct (p x); [discriminate |]. rewrite (Hx Hfx), (IHch Hnil). reflexivity.
Qed.

(** Removing nodes removes strings and adds none. *)
Lemma strings_of_decompose_all (p : node -> bool) (n : node) :
  sublist (strings_of (decompose_all p n)) (strings_of n).
Proof.
  induction n as [t c a ch IH | t | t] using node_children_ind;
    [| reflexivity ..].
  cbn [decompose_all strings_of].
  induction IH as [|x ch Hx _ IHch]; [constructor |].
  destruct (p x).
  - apply sublist_inserts_l, IHch.
  - apply sublist_app; [exact Hx | exact IHch].
Qed.

(** X5: below an element that [strip_boilerplate] has treated there is no
    [nav], [header], [footer] or [aside] element left and no element with a
    boilerplate class, at any depth; and its strings are strings of the
    element as it was, in their order. *)
Theorem strip_boilerplate_complete (elem : node) :
  find_all (has_tag [str "nav"; str "header"; str "footer"; str "aside"])
           (strip_boilerplate elem) = [] /\
  find_all has_boilerplate_class (strip_boilerplate elem) = [] /\
  sublist (strings_of (strip_boilerplate elem)) (strings_of elem).
Proof.
  unfold strip_boilerplate. split; [| split].
  - apply find_all_decompose_other; [apply has_tag_shallow |].
    apply find_all_decompose_all, has_tag_shallow.
  - apply find_all_decompose_all, has_boilerplate_class_shallow.
  - etrans; apply strings_of_decompose_all.
Qed.

(** ** Content Extractor: what [used_selector] stands for *)

Lemma try_selectors_used (selectors : list (list N)) :
  forall (st : selection) (s : list N),
    sel_used st = None ->
    sel_used (try_selectors selectors st) = Some s ->
    s ∈ selectors /\
    exists elem,
      sel_elem (try_selectors selectors st) = Some elem /\
      sel_content (try_selectors selectors st) = Some (get_text elem) /\
      (500 < length (get_text elem))%nat.
Proof.
  induction selectors as [|selector rest IH]; intros st s Hnone Hs.
  - simpl in Hs. congruence.
  - cbn [try_selectors] in *.
    destruct (select_one selector (sel_soup st)) as [[q elem] |].
    + cbv zeta in *.
      destruct (500 <? length (get_text (strip_boilerplate elem)))%nat eqn:Hlen.
      * cbn [sel_used sel_elem sel_content] in *. injection Hs as <-.
        split; [apply list_elem_of_here |]. eexists. split; [reflexivity |].
        split; [reflexivity |]. apply Nat.ltb_lt, Hlen.
      * apply IH in Hs as [Hin Hs]; [| exact Hnone].
        split; [apply list_elem_of_further, Hin | exact Hs].
    + apply IH in Hs as [Hin Hs]; [| exact Hnone].
      split; [apply list_elem_of_further, Hin | exact Hs].
Qed.

(** X6: whenever the selection ends with [used_selector] set, the element
    it goes with is set too and the content is the text of that element;
    and the selector is either one of the table, the text then being longer
    than 500 characters, or the [body] of the fallback. *)
Theorem select_content_used_selector (soup : node) (s : list N) :
  sel_used (select_content soup) = Some s ->
  exists elem,
    sel_elem (select_content soup) = Some elem /\
    sel_content (select_content soup) = Some (get_text elem) /\
    ((s ∈ content_selectors /\ (500 < length (get_text elem))%nat) \/
     s = str "body").
Proof.
  unfold select_content, body_fallback.
  set (st := try_selectors content_selectors _).
  assert (Hloop : sel_used st = Some s ->
                  exists elem,
                    sel_elem st = Some elem /\
                    sel_content st = Some (get_text elem) /\
                    ((s ∈ content_selectors /\ (500 < length (get_text elem))%nat) \/
                     s = str "body")).
  { intros Hs. apply try_selectors_used in Hs as (Hin & elem & He & Hc & Hlen);
      [| reflexivity].
    exists elem. auto. }
  destruct (truthy (sel_content st)); [exact Hloop |].
  destruct (find_first _ (sel_soup st)) as [[q body] |]; [| exact Hloop].
  cbn [sel_used sel_elem sel_content]. intros [= <-].
  eexists. split; [reflexivity |]. split; [reflexivity |]. right. reflexivity.
Qed.

Lemma select_content_used_selector_witness :
  exists elem,
    sel_elem (select_content demo_page) = Some elem /\
    sel_content (select_content demo_page) = Some (get_text elem) /\
    ((str "article" ∈ content_selectors /\ (500 < length (get_text elem))%nat) \/
     str "article" = str "body").
Proof.
  apply (select_content_used_selector demo_page (str "article")).
  vm_compute. reflexivity.
Defined.

(** ** Document Assembler: what the formatting loop adds *)

Lemma text_blocks_flow (blocks : list block) :
  forallb is_text_block blocks = true ->
  forallb is_flow_block blocks = true /\ List.filter is_image_slot blocks = [].
Proof.
  induction blocks as [|b blocks IH]; [split; reflexivity |].
  cbn [forallb List.filter]. unfold is_text_block at 1.
  intros H. apply andb_true_iff in H as [Hb H].
  apply andb_true_iff in Hb as [Hf Hs]. apply negb_true_iff in Hs.
  destruct (IH H) as [IH1 IH2]. rewrite Hf, Hs, IH1, IH2. split; reflexivity.
Qed.

Lemma add_heading_adds_text (line : list N) : adds_text (add_heading_to_story line).
Proof.
  unfold add_heading_to_story.
  destruct (startswith [hash] (strip line)); cbv zeta;
    match goal with
    | |- adds_text (fun story => match ?x with [] => _ | _ :: _ => _ end) =>
        destruct x;
        [exists []; split; [reflexivity | intros; rewrite app_nil_r; reflexivity] |
         eexists; split; [| reflexivity]]
    end;
    repeat match goal with
           | |- context [if ?b then _ else _] => destruct b
           end; reflexivity.
Qed.

Lemma add_list_item_adds_text (db : unicode_db) (line : list N) :
  adds_text (add_list_item_to_story db line).
Proof.
  unfold add_list_item_to_story. cbv zeta.
  match goal with
  | |- adds_text (fun story => match ?x with [] => _ | _ :: _ => _ end) =>
      destruct x;
      [exists []; split; [reflexivity | intros; rewrite app_nil_r; reflexivity] |
       eexists; split; [| reflexivity]; reflexivity]
  end.
Qed.

Lemma add_quote_adds_text (line : list N) : adds_text (add_quote_to_story line).
Proof.
  unfold add_quote_to_story. cbv zeta.
  match goal with
  | |- adds_text (fun story => match ?x with [] => _ | _ :: _ => _ end) =>
      destruct x;
      [exists []; split; [reflexivity | intros; rewrite app_nil_r; reflexivity] |
       eexists; split; [| reflexivity]; reflexivity]
  end.
Qed.

(** A call of [add_image_to_story] adds one image slot, the one of the
    image it is called for. *)
Lemma add_image_adds_slot (w : world) (image_url alt_text : list N) :
  exists blocks,
    (forall story, add_image_to_story w image_url alt_text story = story ++ blocks) /\
    forallb is_flow_block blocks = true /\
    List.filter is_image_slot blocks = [image_slot w (image_url, alt_text)].
Proof.
  unfold add_image_to_story, image_slot. cbn [fst snd].
  destruct (image_loads w image_url); eexists; (split; [reflexivity |]);
    split; reflexivity.
Qed.

Lemma format_plain_line_step (db : unicode_db) (w : world) (line : list N)
    (idx : nat) :
  exists blocks,
    (forall story, format_plain_line db w (Fmt [] idx story) line =
                   Fmt [] idx (story ++ blocks)) /\
    forallb is_flow_block blocks = true /\
    (startswith (str "![") line && occurs (str "](") line = false ->
     List.filter is_image_slot blocks = []).
Proof.
  unfold format_plain_line. cbn [fmt_code fmt_index fmt_story].
  destruct (startswith (str "![") line && occurs (str "](") line).
  - destruct (re_match re_md_image line) as [[n caps] |].
    + match goal with
      | |- context [add_image_to_story w ?u ?a] =>
          destruct (add_image_adds_slot w u a) as (blocks & Hb & Hf & _)
      end.
      exists blocks. split; [intros story; rewrite Hb; reflexivity |].
      split; [exact Hf | discriminate].
    + exists []. split; [intros story; rewrite app_nil_r; reflexivity |].
      split; [reflexivity | discriminate].
  - eexists. split; [reflexivity |]. split; reflexivity.
Qed.

(** One turn of the loop, the code block buffer being empty: the buffer
    stays empty, page breaks and code blocks are not added, and either the
    image counter stays and a line that is no markdown image adds no image
    slot, or the counter moves by one and the slot of the image it stood at
    is added. *)
Lemma format_line_step (db : unicode_db) (w : world) (self : converter)
    (line : list N) (idx : nat) :
  exists idx' blocks,
    (forall story, format_line db w self (Fmt [] idx story) line =
                   Fmt [] idx' (story ++ blocks)) /\
    forallb is_flow_block blocks = true /\
    ((idx' = idx /\
      (md_image_line line = false -> List.filter is_image_slot blocks = [])) \/
     (exists im,
        idx' = S idx /\
        default [] (current_article_images self) !! idx = Some im /\
        List.filter is_image_slot blocks = [image_slot w im])).
Proof.
  unfold format_line, md_image_line. cbv zeta.
  cbn [fmt_code fmt_index fmt_story].
  destruct (strip line) as [|c l].
  { exists idx, []. split; [intros story; rewrite app_nil_r; reflexivity |].
    split; [reflexivity | left; split; reflexivity]. }
  destruct (startswith code_block_marker (c :: l)).
  { exists idx, []. split; [intros story; rewrite app_nil_r; reflexivity |].
    split; [reflexivity | left; split; reflexivity]. }
  destruct (is_heading db (c :: l)).
  { destruct (add_heading_adds_text (c :: l)) as (blocks & Hb & Hf).
    apply text_blocks_flow in Hb as [Hb Hs]. exists idx, blocks.
    split; [intros story; rewrite Hf; reflexivity |]. split; [exact Hb |].
    left. split; [reflexivity | intros _; exact Hs]. }
  destruct (startswith (str ">") (c :: l)).
  { destruct (add_quote_adds_text (c :: l)) as (blocks & Hb & Hf).
    apply text_blocks_flow in Hb as [Hb Hs]. exists idx, blocks.
    split; [intros story; rewrite Hf; reflexivity |]. split; [exact Hb |].
    left. split; [reflexivity | intros _; exact Hs]. }
  destruct (is_list_item db (c :: l)).
  { destruct (add_list_item_adds_text db (c :: l)) as (blocks & Hb & Hf).
    apply text_blocks_flow in Hb as [Hb Hs]. exists idx, blocks.
    split; [intros story; rewrite Hf; reflexivity |]. split; [exact Hb |].
    left. split; [reflexivity | intros _; exact Hs]. }
  assert (Hplain : exists idx' blocks,
             (forall story, format_plain_line db w (Fmt [] idx story) (c :: l) =
                            Fmt [] idx' (story ++ blocks)) /\
             forallb is_flow_block blocks = true /\
             ((idx' = idx /\
               (startswith (str "![") (c :: l) && occurs (str "](") (c :: l) = false ->
                List.filter is_image_slot blocks = [])) \/
              (exists im,
                 idx' = S idx /\
                 default [] (current_article_images self) !! idx = Some im /\
                 List.filter is_image_slot blocks = [image_slot w im]))).
  { destruct (format_plain_line_step db w (c :: l) idx) as (blocks & Hf & Hb & Hs).
    exists idx, blocks. split; [exact Hf |]. split; [exact Hb |].
    left. split; [reflexivity | exact Hs]. }
  destruct (default [] (current_article_images self) !! idx)
    as [[img_url img_alt] |] eqn:Him; [| exact Hplain].
  destruct (mentions_image db _ (c :: l)); [| exact Hplain].
  destruct (add_image_adds_slot w img_url img_alt) as (blocks & Hf & Hb & Hs).
  exists (S idx), blocks. split; [intros story; rewrite Hf; reflexivity |].
  split; [exact Hb |]. right. exists (img_url, img_alt). auto.
Qed.

(** The loop as a whole, from its start: the buffer is empty at its end,
    and the image slots added are those of the images counted so far, a
    markdown image line adding one of its own. *)
Lemma format_lines_blocks (db : unicode_db) (w : world) (self : converter)
    (lines : list (list N)) :
  exists idx blocks,
    (forall story, fold_left (format_line db w self) lines (Fmt [] O story) =
                   Fmt [] idx (story ++ blocks)) /\
    forallb is_flow_block blocks = true /\
    sublist (image_slot w <$> take idx (default [] (current_article_images self)))
            (List.filter is_image_slot blocks) /\
    (forallb (fun line => negb (md_image_line line)) lines = true ->
     List.filter is_image_slot blocks =
     image_slot w <$> take idx (default [] (current_article_images self))).
Proof.
  induction lines as [|line lines IH] using rev_ind.
  { exists O, []. split; [intros story; rewrite app_nil_r; reflexivity |].
    split; [reflexivity |]. split; [constructor | reflexivity]. }
  destruct IH as (idx & blocks & Hf & Hb & Hsub & Heq).
  destruct (format_line_step db w self line idx)
    as (idx' & blocks' & Hf' & Hb' & Hcase).
  exists idx', (blocks ++ blocks').
  split; [intros story; rewrite fold_left_app; cbn [fold_left];
          rewrite Hf, Hf', app_assoc; reflexivity |].
  split; [rewrite forallb_app, Hb, Hb'; reflexivity |].
  rewrite List.filter_app, forallb_app. cbn [forallb].
  destruct Hcase as [[-> Hs] | (im & -> & Him & Hs)].
  - split; [apply sublist_inserts_r, Hsub |].
    intros H. apply andb_true_iff in H as [Hl H].
    rewrite andb_true_r in H. apply negb_true_iff in H.
    rewrite (Heq Hl), (Hs H), app_nil_r. reflexivity.
  - rewrite (take_S_r _ _ _ Him), fmap_app, Hs.
    split; [apply sublist_app; [exact Hsub | reflexivity] |].
    intros H. apply andb_true_iff in H as [Hl _]. rewrite (Heq Hl). reflexivity.
Qed.

(** The images the loop did not place, added after it. *)
Lemma fold_images_slots (w : world) (images : list (list N * list N)) :
  exists blocks,
    (forall story,
       fold_left (fun story '(img_url, img_alt) =>
                    add_image_to_story w img_url img_alt story) images story =
       story ++ blocks) /\
    forallb is_flow_block blocks = true /\
    List.filter is_image_slot blocks = image_slot w <$> images.
Proof.
  induction images as [|[u a] images (blocks & Hf & Hb & Hs)].
  { exists []. split; [intros story; rewrite app_nil_r; reflexivity |].
    split; reflexivity. }
  destruct (add_image_adds_slot w u a) as (blocks' & Hf' & Hb' & Hs').
  exists (blocks' ++ blocks).
  split; [intros story; cbn [fold_left]; rewrite Hf, Hf', app_assoc; reflexivity |].
  split; [rewrite forallb_app, Hb, Hb'; reflexivity |].
  rewrite List.filter_app, Hs, Hs'. reflexivity.
Qed.

Lemma flow_block_spec (b : block) :
  is_flow_block b = true ->
  b <> PageBreak /\ forall text, b <> Paragraph text code_style.
Proof.
  destruct b as [text st | | |]; try (intros _; split; intros; discriminate).
  - destruct st; try discriminate; intros _; split; intros; discriminate.
  - discriminate.
Qed.

(** X7: [add_formatted_content_to_story] leaves the story it is given in
    place and adds to it blocks that do not depend on that story, none of
    them a page break and none of them a code block: the buffer of code
    lines is empty at every turn of the loop, the line that announces a
    code block is dropped and the lines after it are formatted like any
    other line. *)
Theorem add_formatted_content_no_code_block (db : unicode_db) (w : world)
    (self : converter) (content : list N) :
  (forall story,
     fmt_code (fold_left (format_line db w self) (split [nl] content)
                         (Fmt [] O story)) = []) /\
  exists blocks,
    (forall story,
       add_formatted_content_to_story db w self content story = story ++ blocks) /\
    Forall (fun b => b <> PageBreak /\ forall text, b <> Paragraph text code_style)
           blocks.
Proof.
  destruct (format_lines_blocks db w self (split [nl] content))
    as (idx & blocks & Hf & Hb & _).
  split; [intros story; rewrite Hf; reflexivity |].
  destruct (fold_images_slots w (drop idx (default [] (current_article_images self))))
    as (blocks' & Hf' & Hb' & _).
  exists (blocks ++ blocks'). split.
  - intros story. unfold add_formatted_content_to_story. cbv zeta.
    rewrite Hf. cbn [fmt_code fmt_index fmt_story add_code_block_to_story].
    rewrite Hf', app_assoc. reflexivity.
  - apply Forall_forall. intros b Hin. apply flow_block_spec.
    assert (H : forallb is_flow_block (blocks ++ blocks') = true)
      by (rewrite forallb_app, Hb, Hb'; reflexivity).
    rewrite forallb_forall in H. apply H, list_elem_of_In, Hin.
Qed.

(** X8: every image stored for the article gets its slot in the story, the
    picture or the line that says it failed, in the order the images were
    found; and when no line of the content is a markdown image line, these
    are all the image slots added, each image having exactly one. *)
Theorem add_formatted_content_image_slots (db : unicode_db) (w : world)
    (self : converter) (content : list N) :
  exists blocks,
    (forall story,
       add_formatted_content_to_story db w self content story = story ++ blocks) /\
    sublist (image_slot w <$> default [] (current_article_images self))
            (List.filter is_image_slot blocks) /\
    (forallb (fun line => negb (md_image_line line)) (split [nl] content) = true ->
     List.filter is_image_slot blocks =
     image_slot w <$> default [] (current_article_images self)).
Proof.
  destruct (format_lines_blocks db w self (split [nl] content))
    as (idx & blocks & Hf & _ & Hsub & Heq).
  destruct (fold_images_slots w (drop idx (default [] (current_article_images self))))
    as (blocks' & Hf' & _ & Hs').
  exists (blocks ++ blocks'). split; [| split].
  - intros story. unfold add_formatted_content_to_story. cbv zeta.
    rewrite Hf. cbn [fmt_code fmt_index fmt_story add_code_block_to_story].
    rewrite Hf', app_assoc. reflexivity.
  - rewrite List.filter_app, Hs'.
    rewrite <- (take_drop idx (default [] (current_article_images self))) at 1.
    rewrite fmap_app. apply sublist_app; [exact Hsub | reflexivity].
  - intros H. rewrite List.filter_app, Hs', (Heq H), <- fmap_app, take_drop.
    reflexivity.
Qed.

(** ** Feed health: the alternative URLs *)

Lemma lstrip_char_parts (a : N) (s : list N) :
  exists k, s = replicate k a ++ lstrip_char a s.
Proof.
  induction s as [|c s [k Hk]]; [exists O; reflexivity |]. simpl.
  destruct (c =? a) eqn:Hc; [| exists O; reflexivity].
  apply N.eqb_eq in Hc as ->. exists (S k). simpl. congruence.
Qed.

Lemma rev_replicate (a : N) (k : nat) : rev (replicate k a) = replicate k a.
Proof.
  induction k as [|k IH]; [reflexivity |].
  simpl. rewrite IH. symmetry. apply replicate_cons_app.
Qed.

Lemma rstrip_char_parts (a : N) (s : list N) :
  exists k, s = rstrip_char a s ++ replicate k a.
Proof.
  unfold rstrip_char. destruct (lstrip_char_parts a (rev s)) as [k Hk].
  exists k. rewrite <- (rev_involutive s) at 1.
  rewrite Hk at 1. rewrite rev_app_distr, rev_replicate. reflexivity.
Qed.

Lemma endswith_spec (suffix s : list N) :
  endswith suffix s = true ->
  s = take (length s - length suffix) s ++ suffix.
Proof.
  unfold endswith. intros H. apply startswith_spec in H as [b Hb].
  assert (Hs : s = rev b ++ suffix).
  { rewrite <- (rev_involutive s), Hb, rev_app_distr, rev_involutive. reflexivity. }
  rewrite Hs at 2 3. rewrite length_app, Nat.add_sub, take_app_length. exact Hs.
Qed.

Lemma remove_suffix_parts (suffixes : list (list N)) (base_url : list N) :
  exists suffix,
    suffix ∈ [] :: suffixes /\
    base_url = remove_suffix suffixes base_url ++ suffix.
Proof.
  induction suffixes as [|suffix rest (sfx & Hin & Hs)]; simpl.
  - exists []. split; [apply list_elem_of_here | rewrite app_nil_r; reflexivity].
  - destruct (endswith suffix base_url) eqn:He.
    + exists suffix. split; [| apply endswith_spec, He].
      apply list_elem_of_further, list_elem_of_here.
    + exists sfx. split; [| exact Hs].
      apply elem_of_cons in Hin as [-> | Hin]; [apply list_elem_of_here |].
      do 2 apply list_elem_of_further. exact Hin.
Qed.

(** The URL is the base the suggestions are built on, one of the feed
    suffixes or none, and slashes. *)
Lemma suggestion_base_parts (original_url : list N) :
  exists suffix k,
    suffix ∈ [] :: feed_suffixes /\
    original_url =
      remove_suffix feed_suffixes (rstrip_char slash original_url) ++
      suffix ++ replicate k slash.
Proof.
  destruct (rstrip_char_parts slash original_url) as [k Hk].
  destruct (remove_suffix_parts feed_suffixes (rstrip_char slash original_url))
    as (suffix & Hin & Hs).
  exists suffix, k. split; [exact Hin |].
  rewrite app_assoc, <- Hs. exact Hk.
Qed.

(** No URL built on the base with a discovery pattern is the URL asked
    about. *)
Lemma discovery_pattern_differs (base_url pattern suffix : list N) (k : nat) :
  pattern ∈ [str "/blog/feed"; str "/news/feed"; str "/articles/feed"] ->
  suffix ∈ [] :: feed_suffixes ->
  base_url ++ pattern <> base_url ++ suffix ++ replicate k slash.
Proof.
  intros Hp Hs Heq. apply app_inv_head in Heq.
  destruct k as [|k].
  - rewrite app_nil_r in Heq. subst suffix. unfold feed_suffixes in Hs.
    rewrite !elem_of_cons, elem_of_nil in Hp.
    rewrite !elem_of_cons, elem_of_nil in Hs.
    repeat (destruct Hp as [-> | Hp]; [intuition discriminate |]).
    destruct Hp.
  - rewrite replicate_S_end, app_assoc in Heq.
    rewrite !elem_of_cons, elem_of_nil in Hp.
    repeat (destruct Hp as [-> | Hp];
            [match type of Heq with
             | str ?t = _ =>
                 change (str t) with (removelast (str t) ++ [100]) in Heq
             end;
             apply app_inj_tail in Heq as [_ Heq]; discriminate |]).
    destruct Hp.
Qed.

Lemma filter_bool_differs (x : list N) (l : list (list N)) :
  x ∉ List.filter (fun s => negb (str_eqb s x)) l.
Proof.
  intros Hin. apply filter_bool_elem in Hin as [_ Hne].
  unfold str_eqb in Hne. rewrite bool_decide_eq_true_2 in Hne by reflexivity.
  discriminate.
Qed.

(** X9: the URL asked about is never among the alternatives suggested for
    it, the discovery URLs added for blog and news feeds included. *)
Theorem suggest_alternative_feeds_not_original (original_url : list N) :
  original_url ∉ suggest_alternative_feeds original_url.
Proof.
  unfold suggest_alternative_feeds. cbv zeta.
  destruct (occurs (str "blog") original_url || occurs (str "news") original_url);
    [| apply filter_bool_differs].
  rewrite elem_of_app. intros [Hin | Hin]; [exact (filter_bool_differs _ _ Hin) |].
  destruct (suggestion_base_parts original_url) as (suffix & k & Hs & Hu).
  set (base_url := remove_suffix feed_suffixes (rstrip_char slash original_url)) in *.
  rewrite !elem_of_cons, elem_of_nil in Hin.
  assert (Hd : forall pattern,
             pattern ∈ [str "/blog/feed"; str "/news/feed"; str "/articles/feed"] ->
             original_url <> base_url ++ pattern).
  { intros pattern Hp Heq. rewrite Hu in Heq at 1. symmetry in Heq.
    exact (discovery_pattern_differs _ _ _ _ Hp Hs Heq). }
  destruct Hin as [Hin | [Hin | [Hin | []]]];
    (eapply Hd in Hin; [exact Hin | rewrite !elem_of_cons; auto]).
Qed.

Lemma filter_bool_all {A} (f : A -> bool) (l : list A) :
  (forall x, x ∈ l -> f x = true) -> List.filter f l = l.
Proof.
  induction l as [|y l IH]; intros H; [reflexivity |]. simpl.
  rewrite (H y) by apply list_elem_of_here. f_equal.
  apply IH. intros x Hx. apply H, list_elem_of_further, Hx.
Qed.

(** Among texts that differ from each other at most one is the text
    [x]. *)
Lemma filter_differs_length (x : list N) (l : list (list N)) :
  NoDup l ->
  (length l <= S (length (List.filter (fun s => negb (str_eqb s x)) l)))%nat.
Proof.
  induction 1 as [|y l Hy Hl IH]; [simpl; lia |]. simpl.
  unfold str_eqb at 1. case_bool_decide as Hyx; simpl; [| lia].
  subst y. rewrite filter_bool_all; [lia |].
  intros z Hz. unfold str_eqb. rewrite bool_decide_eq_false_2; [reflexivity |].
  intros ->. exact (Hy Hz).
Qed.

Lemma common_patterns_NoDup : NoDup common_patterns.
Proof.
  unfold common_patterns. repeat constructor;
    rewrite ?not_elem_of_cons; repeat split; try discriminate; apply not_elem_of_nil.
Qed.

Lemma map_app_NoDup (base_url : list N) (l : list (list N)) :
  NoDup l -> NoDup (List.map (fun pattern => base_url ++ pattern) l).
Proof.
  induction 1 as [|y l Hy Hl IH]; simpl; constructor; [| exact IH].
  rewrite list_elem_of_In, in_map_iff. intros (z & Hz & Hin).
  apply app_inv_head in Hz as ->. apply Hy, list_elem_of_In, Hin.
Qed.

(** X10: every alternative suggested is a common feed pattern put after
    one base, the URL asked about being that base, one of the feed
    suffixes or none, and slashes; and there are always between eleven and
    fifteen suggestions, so the health check never runs out of them. *)
Theorem suggest_alternative_feeds_shape (original_url : list N) :
  (exists suffix k,
     suffix ∈ [] :: feed_suffixes /\
     original_url =
       remove_suffix feed_suffixes (rstrip_char slash original_url) ++
       suffix ++ replicate k slash) /\
  Forall (fun suggestion =>
            exists pattern,
              pattern ∈ common_patterns /\
              suggestion =
                remove_suffix feed_suffixes (rstrip_char slash original_url) ++
                pattern)
         (suggest_alternative_feeds original_url) /\
  (11 <= length (suggest_alternative_feeds original_url) <= 15)%nat.
Proof.
  split; [apply suggestion_base_parts |].
  unfold suggest_alternative_feeds. cbv zeta.
  set (base_url := remove_suffix feed_suffixes (rstrip_char slash original_url)).
  set (made := List.map (fun pattern => base_url ++ pattern) common_patterns).
  assert (Hmade : Forall (fun suggestion =>
                            exists pattern,
                              pattern ∈ common_patterns /\
                              suggestion = base_url ++ pattern) made).
  { apply Forall_forall. intros s Hs.
    apply list_elem_of_In, in_map_iff in Hs as (pattern & <- & Hin).
    exists pattern. split; [apply list_elem_of_In, Hin | reflexivity]. }
  assert (Hkept : Forall (fun suggestion =>
                            exists pattern,
                              pattern ∈ common_patterns /\
                              suggestion = base_url ++ pattern)
                         (List.filter (fun s => negb (str_eqb s original_url)) made)).
  { rewrite Forall_forall in *. intros s Hs. apply Hmade.
    apply filter_bool_elem in Hs. apply Hs. }
  assert (Hlen : (11 <= length (List.filter (fun s => negb (str_eqb s original_url)) made)
                  <= 12)%nat).
  { assert (Hm : length made = 12%nat) by reflexivity. split.
    - pose proof (filter_differs_length original_url made
                    (map_app_NoDup base_url _ common_patterns_NoDup)) as H.
      rewrite Hm in H. lia.
    - pose proof (List.filter_length_le
                    (fun s => negb (str_eqb s original_url)) made) as H.
      rewrite Hm in H. exact H. }
  destruct (occurs (str "blog") original_url || occurs (str "news") original_url).
  - split.
    + apply Forall_app. split; [exact Hkept |].
      repeat constructor; eexists; (split; [| reflexivity]);
        unfold common_patterns; rewrite !elem_of_cons; tauto.
    + rewrite length_app. cbn [length]. lia.
  - split; [exact Hkept | lia].
Qed.

(** ** Document Assembler: the style of a heading *)







(** ** Document Assembler: the quote marker *)




(** ** Document Assembler: the cap on the articles *)

(** X13: the articles processed are always a prefix of the entries of the
    feed, in the feed's order: the first [m] of them, or all when there
    are fewer, for a positive cap [m], and all but the last [-m] for a
    negative one. *)
Theorem cap_articles_prefix (max_articles : option Z) (articles : list article) :
  cap_articles max_articles articles `prefix_of` articles /\
  (forall m, max_articles = Some m -> (0 < m)%Z ->
     length (cap_articles max_articles articles) =
     Nat.min (Z.to_nat m) (length articles)) /\
  (forall m, max_articles = Some m -> (m < 0)%Z ->
     length (cap_articles max_articles articles) =
     (length articles - Z.to_nat (- m))%nat).
Proof.
  split; [| split].
  - unfold cap_articles, slice_to.
    destruct max_articles as [m |]; [| reflexivity].
    destruct (m =? 0)%Z; [reflexivity |].
    destruct (0 <=? m)%Z; apply prefix_take.
  - intros m -> Hm. unfold cap_articles, slice_to.
    destruct (Z.eqb_spec m 0); [lia |].
    destruct (Z.leb_spec 0 m); [| lia]. apply length_take.
  - intros m -> Hm. unfold cap_articles, slice_to.
    destruct (Z.eqb_spec m 0); [lia |].
    destruct (Z.leb_spec 0 m); [lia |]. rewrite length_take. lia.
Qed.

Lemma cap_articles_prefix_witness :
  cap_articles (Some (-1)%Z) (fetch_rss_feed demo_world (str "feed"))
    `prefix_of` fetch_rss_feed demo_world (str "feed") /\
  length (cap_articles (Some 1%Z) (fetch_rss_feed demo_world (str "feed"))) = 1%nat /\
  length (cap_articles (Some (-1)%Z) (fetch_rss_feed demo_world (str "feed"))) = 1%nat.
Proof.
  split; [| split].
  - apply (cap_articles_prefix (Some (-1)%Z)).
  - exact (proj1 (proj2 (cap_articles_prefix (Some 1%Z)
                           (fetch_rss_feed demo_world (str "feed"))))
                 1%Z eq_refl eq_refl).
  - exact (proj2 (proj2 (cap_articles_prefix (Some (-1)%Z)
                           (fetch_rss_feed demo_world (str "feed"))))
                 (-1)%Z eq_refl eq_refl).
Defined.

(** X14: a negative cap that reaches past the start of a feed that has
    entries leaves no article to process: a document is still built, of the
    title page alone, which says that it holds no article and ends with a
    page break. *)
Theorem create_pdf_negative_cap (db : unicode_db) (w : world) (self : converter)
    (feed_url : list N) (m : Z) :
  fetch_rss_feed w feed_url <> [] ->
  (m < 0)%Z ->
  (length (fetch_rss_feed w feed_url) <= Z.to_nat (- m))%nat ->
  create_pdf db w self feed_url (Some m) = Some (title_page w feed_url 0) /\
  last (title_page w feed_url 0) = Some PageBreak.
Proof.
  intros Hfeed Hm Hlen. split; [| reflexivity].
  rewrite create_pdf_story by exact Hfeed.
  assert (cap_articles (Some m) (fetch_rss_feed w feed_url) = []) as ->.
  { unfold cap_articles, slice_to.
    destruct (Z.eqb_spec m 0); [lia |]. destruct (Z.leb_spec 0 m); [lia |].
    replace (length (fetch_rss_feed w feed_url) - Z.to_nat (- m))%nat with O by lia.
    reflexivity. }
  reflexivity.
Qed.

Lemma create_pdf_negative_cap_witness :
  create_pdf ascii_db demo_world (Converter None) (str "feed") (Some (-2)%Z)
    = Some (title_page demo_world (str "feed") 0) /\
  last (title_page demo_world (str "feed") 0) = Some PageBreak.
Proof.
  apply (create_pdf_negative_cap ascii_db demo_world (Converter None) (str "feed")
           (-2)%Z); [discriminate | lia | simpl; lia].
Defined.

(** X8 at work: the content of the first article of the small world has no
    markdown image line, and its one stored image gets the one image
    slot. *)
Lemma add_formatted_content_image_slots_witness :
  exists blocks,
    (forall story,
       add_formatted_content_to_story ascii_db demo_world
         (Converter (Some [(str "http://host/a.png?w=100", [])]))
         (str "All the news.") story = story ++ blocks) /\
    List.filter is_image_slot blocks = [Image (str "http://host/a.png?w=100")].
Proof.
  destruct (add_formatted_content_image_slots ascii_db demo_world
              (Converter (Some [(str "http://host/a.png?w=100", [])]))
              (str "All the news.")) as (blocks & Hf & _ & Heq).
  exists blocks. split; [exact Hf |]. rewrite Heq; reflexivity.
Defined.

(** ** Content Extractor: the fragment of the URL *)

Lemma hd_cons_head (c : N) (parts : list (list N)) :
  hd [] (cons_head c parts) = c :: hd [] parts.
Proof. destruct parts; reflexivity. Qed.

Lemma hd_split_char (c : N) (u : list N) :
  c ∉ u ->
  hd [] (split [c] u) = u /\
  forall rest, hd [] (split [c] (u ++ c :: rest)) = u.
Proof.
  unfold split. induction u as [|d u IH]; intros Hc.
  - split; [reflexivity |]. intros rest. simpl. rewrite N.eqb_refl. reflexivity.
  - apply not_elem_of_cons in Hc as [Hcd Hc]. destruct (IH Hc) as [IH1 IH2].
    assert (Hs : forall s, startswith [c] (d :: s) = false).
    { intros s. simpl. rewrite andb_true_r. apply N.eqb_neq. exact Hcd. }
    split; [| intros rest]; cbn [split_from app]; rewrite Hs, hd_cons_head;
      f_equal; [exact IH1 | apply IH2].
Qed.

(** X15: what follows the first [#] of an article URL takes no part in the
    extraction: the page is asked for without it, and the result and the
    images stored are those of the URL without the fragment. *)
Theorem extract_article_content_ignores_fragment (db : unicode_db) (w : world)
    (self : converter) (url fragment : list N) :
  hash ∉ url ->
  extract_article_content db w self (url ++ [hash] ++ fragment) =
  extract_article_content db w self url.
Proof.
  intros Hu. unfold extract_article_content. cbv zeta.
  destruct (hd_split_char hash url Hu) as [H1 H2].
  change (str "#") with [hash]. change (url ++ [hash] ++ fragment)
    with (url ++ hash :: fragment).
  rewrite H1, H2. reflexivity.
Qed.

Lemma extract_article_content_ignores_fragment_witness :
  extract_article_content ascii_db demo_world (Converter None)
    (str "http://host/one" ++ [hash] ++ str "top") =
  extract_article_content ascii_db demo_world (Converter None)
    (str "http://host/one").
Proof.
  apply (extract_article_content_ignores_fragment ascii_db demo_world
           (Converter None) (str "http://host/one") (str "top")).
  intros Hin. apply list_elem_of_In in Hin. simpl in Hin.
  repeat (destruct Hin as [Hin | Hin]; [discriminate |]). exact Hin.
Defined.

(** ** Content Extractor: scripts and styles stay out *)

(** What [find_first] finds in a tree with no [r] below its root is free
    of [r]. *)
Lemma find_first_free (p r : node -> bool) (n : node) :
  forall q e, find_first p n = Some (q, e) -> find_all r n = [] -> free_of r e.
Proof.
  induction n as [t c a ch IH | t | t] using node_children_ind;
    [| discriminate ..].
  cbn [find_first find_all]. generalize O.
  induction IH as [|x ch Hx _ IHch]; intros i q e Hfind Hall; [discriminate |].
  apply app_eq_nil in Hall as [Hrx Hall]. apply app_eq_nil in Hall as [Hfx Hall].
  destruct (p x).
  - injection Hfind as <- <-. split; [| exact Hfx].
    destruct (r x); [discriminate | reflexivity].
  - destruct (find_first p x) as [[q' y] |] eqn:Hy.
    + injection Hfind as <- <-. exact (Hx _ _ eq_refl Hfx).
    + exact (IHch _ _ _ Hfind Hall).
Qed.

Lemma update_at_shallow (r : node -> bool) (e n : node) (q : path) :
  shallow r -> r e = false -> r n = false ->
  r (update_at (fun _ => e) n q) = false.
Proof.
  intros Hr He Hn.
  destruct n as [t c a ch | t | t], q as [|i q]; cbn [update_at];
    try assumption.
  rewrite <- Hn. apply Hr.
Qed.

(** Putting a node free of [r] in the place of another brings no [r] into
    the tree. *)
Lemma update_at_free (r : node -> bool) (e : node) (q : path) :
  shallow r -> free_of r e ->
  forall n, find_all r n = [] -> find_all r (update_at (fun _ => e) n q) = [].
Proof.
  intros Hr [He Hfe]. induction q as [|i q IH]; intros n Hn;
    [destruct n; exact Hfe |].
  destruct n as [t c a ch | t | t]; [| exact Hn ..].
  cbn [update_at find_all] in *. revert i.
  induction ch as [|x ch IHch]; intros i; [reflexivity |].
  apply app_eq_nil in Hn as [Hrx Hn]. apply app_eq_nil in Hn as [Hfx Hn].
  assert (Hx : r x = false) by (destruct (r x); [discriminate | reflexivity]).
  destruct i as [|i]; cbn [alter list_alter].
  - rewrite (update_at_shallow r e x q Hr He Hx), (IH x Hfx), Hn. reflexivity.
  - rewrite Hx, Hfx. apply (IHch Hn i).
Qed.

Lemma decompose_all_free (r q : node -> bool) (n : node) :
  shallow r -> free_of r n -> free_of r (decompose_all q n).
Proof.
  intros Hr [Hn Hf]. split.
  - rewrite shallow_decompose_all by exact Hr. exact Hn.
  - apply find_all_decompose_other; assumption.
Qed.

(** The selection loop keeps a tree with no [r] in it that way, and the
    element it goes with. *)
Lemma try_selectors_free (r : node -> bool) (selectors : list (list N)) :
  shallow r ->
  forall st,
    find_all r (sel_soup st) = [] ->
    (forall e, sel_elem st = Some e -> free_of r e) ->
    find_all r (sel_soup (try_selectors selectors st)) = [] /\
    (forall e, sel_elem (try_selectors selectors st) = Some e -> free_of r e).
Proof.
  intros Hr. induction selectors as [|selector rest IH]; intros st Hsoup Helem;
    [split; assumption |].
  cbn [try_selectors]. unfold select_one.
  destruct (find_first (selector_matches selector) (sel_soup st))
    as [[q elem] |] eqn:Hfind.
  - cbv zeta.
    assert (Hfree : free_of r (strip_boilerplate elem)).
    { unfold strip_boilerplate. do 2 (apply decompose_all_free; [exact Hr |]).
      exact (find_first_free _ r _ _ _ Hfind Hsoup). }
    pose proof (update_at_free r _ q Hr Hfree _ Hsoup) as Hsoup'.
    destruct (500 <? length (get_text (strip_boilerplate elem)))%nat.
    + cbn [sel_soup sel_elem]. split; [exact Hsoup' |]. intros e [= <-]. exact Hfree.
    + apply IH; cbn [sel_soup sel_elem]; [exact Hsoup' |]. intros e [= <-]. exact Hfree.
  - apply IH; cbn [sel_soup sel_elem]; [exact Hsoup | discriminate].
Qed.

(** X16: no [script], [style] or [noscript] element reaches the markdown
    conversion.  Once they are removed from the page, the element the
    selection ends with, be it found by a selector of the table or the
    body, is none of them and has none of them below it, whatever was
    stripped and replaced in the tree on the way. *)
Theorem select_content_script_free (soup elem : node) :
  sel_elem (select_content
              (decompose_all (has_tag [str "script"; str "style"; str "noscript"])
                             soup)) = Some elem ->
  has_tag [str "script"; str "style"; str "noscript"] elem = false /\
  find_all (has_tag [str "script"; str "style"; str "noscript"]) elem = [].
Proof.
  set (r := has_tag [str "script"; str "style"; str "noscript"]).
  assert (Hr : shallow r) by apply has_tag_shallow.
  unfold select_content, body_fallback.
  destruct (try_selectors_free r content_selectors Hr
              (Selection (decompose_all r soup) None None None))
    as [Hsoup Helem];
    [apply find_all_decompose_all, Hr | discriminate |].
  destruct (truthy _); [apply Helem |].
  destruct (find_first _ _) as [[q body] |] eqn:Hfind; [| apply Helem].
  cbn [sel_elem]. intros [= <-].
  apply decompose_all_free; [exact Hr |].
  exact (find_first_free _ r _ _ _ Hfind Hsoup).
Qed.

Lemma select_content_script_free_witness :
  has_tag [str "script"; str "style"; str "noscript"]
    (Element (str "article") [] []
       [ Element (str "p") [] []
           [TextNode (concat (replicate 60 (str "All the news. ")))];
         Element (str "img") []
           [(str "src", str "http://host/a.png?w=100"); (str "alt", str "")] [];
         Element (str "img") []
           [(str "src", str "http://host/a.png?w=800"); (str "alt", str "")] [] ])
    = false /\
  find_all (has_tag [str "script"; str "style"; str "noscript"])
    (Element (str "article") [] []
       [ Element (str "p") [] []
           [TextNode (concat (replicate 60 (str "All the news. ")))];
         Element (str "img") []
           [(str "src", str "http://host/a.png?w=100"); (str "alt", str "")] [];
         Element (str "img") []
           [(str "src", str "http://host/a.png?w=800"); (str "alt", str "")] [] ])
    = [].
Proof.
  apply (select_content_script_free demo_page). vm_compute. reflexivity.
Defined.

(** ** Line Classifier and Document Assembler: a heading from end to end *)









Lemma head_out_rev_app (p : N -> bool) (pre text : list N) :
  text <> [] -> head_out p (rev text) = true ->
  head_out p (rev (pre ++ text)) = true.
Proof.
  intros Hne H. rewrite rev_app_distr.
  destruct (rev text) as [|d l] eqn:Hr; [| exact H].
  apply (f_equal (@rev N)) in Hr. rewrite rev_involutive in Hr. contradiction.
Qed.


(** A line the loop takes for a heading is handed to
    [add_heading_to_story], the image counter untouched. *)
Lemma format_line_as_heading (db : unicode_db) (w : world) (self : converter)
    (idx : nat) (story : list block) (line : list N) :
  strip line = line -> line <> [] ->
  startswith code_block_marker line = false -> is_heading db line = true ->
  format_line db w self (Fmt [] idx story) line =
  Fmt [] idx (add_heading_to_story line story).
Proof.
  intros Hs Hne Hm Hh. unfold format_line. cbv zeta. rewrite Hs.
  destruct line as [|c l]; [congruence |].
  rewrite Hm, Hh. reflexivity.
Qed.





(** ** Line Classifier and Document Assembler: a sentence taken for a heading *)

Lemma upper_facts (c : N) :
  is_ascii_upper c = true ->
  is_space c = false /\ (hash =? c) = false /\ c <> 58.
Proof.
  unfold is_ascii_upper, is_space, in_range, hash. intros H.
  repeat bool_arith. lia.
Qed.

Lemma letter_or_blank_facts (d : N) :
  is_ascii_alpha d || is_space d = true -> d <> 58.
Proof.
  unfold is_ascii_alpha, is_ascii_upper, is_ascii_lower, is_space, in_range.
  intros H. repeat bool_arith. lia.
Qed.

Lemma strip_sentence (c : N) (body : list N) :
  is_ascii_upper c = true -> strip (c :: body ++ str ".") = c :: body ++ str ".".
Proof.
  intros Hc. destruct (upper_facts c Hc) as (Hs & _).
  apply strip_id; [simpl; rewrite Hs; reflexivity |].
  change (c :: body ++ str ".") with ((c :: body) ++ str ".").
  apply head_out_rev_app; [discriminate | reflexivity].
Qed.

Lemma is_heading_sentence (db : unicode_db) (c : N) (body : list N) :
  is_ascii_upper c = true -> body <> [] ->
  forallb (fun d => is_ascii_alpha d || is_space d) body = true ->
  is_heading db (c :: body ++ str ".") = true.
Proof.
  intros Hc Hne Hbody. unfold is_heading. cbv zeta.
  rewrite strip_sentence by exact Hc.
  destruct (is_some (re_match re_md_heading _)); [reflexivity |].
  destruct (is_some (re_match re_faq _)); [reflexivity |].
  destruct (isupper db _ && _ && _); [reflexivity |].
  assert (Hm : is_some (re_match (re_title_line (str "."))
                          (c :: body ++ str ".")) = true).
  { unfold re_match, match_at, re_title_line, Plus.
    cbn [rmatch m_prev m_rest m_caps]. rewrite Hc.
    pose proof (span_run (fun d => is_ascii_alpha d || is_space d)
                  body (str ".") Hbody eq_refl) as Hspan.
    destruct (rep_greedy_max (fun d => is_ascii_alpha d || is_space d)
                (fun pv s' => rmatch (Seq (Lit (str ".")) Eos)
                                (MState pv s' []) Some)
                (body ++ str ".") 1 (Some c)) as [pv Hpv].
    - rewrite Hspan. destruct body; [congruence | simpl; lia].
    - intros pv. rewrite Hspan, drop_app_length. discriminate.
    - cbn [rmatch m_prev m_rest m_caps] in Hpv. cbn [rmatch m_prev m_rest m_caps].
      rewrite Hpv, Hspan, drop_app_length. reflexivity. }
  unfold heading_patterns. cbn [existsb]. rewrite Hm, !orb_true_r. reflexivity.
Qed.

(** X18: a sentence is taken for a heading.  A line made of a capital
    letter, then letters and blanks, then a full stop is classified as a
    heading by the last of the heading patterns, and the formatting loop
    adds it, as it stands, in the section style with a spacer after it,
    not as a paragraph of the text. *)
Theorem format_line_sentence_heading (db : unicode_db) (w : world)
    (self : converter) (idx : nat) (story : list block) (c : N) (body : list N) :
  is_ascii_upper c = true -> body <> [] ->
  forallb (fun d => is_ascii_alpha d || is_space d) body = true ->
  format_line db w self (Fmt [] idx story) (c :: body ++ str ".") =
  Fmt [] idx
      (story ++ [Paragraph (c :: body ++ str ".") section_style; Spacer 1 8]).
Proof.
  intros Hc Hne Hbody. destruct (upper_facts c Hc) as (Hs & Hh & Hcolon).
  rewrite format_line_as_heading.
  - unfold add_heading_to_story. rewrite strip_sentence by exact Hc.
    cbn [startswith str]. rewrite Hh. cbn [andb]. cbv zeta.
    rewrite strip_sentence by exact Hc.
    change (startswith (str "###") (c :: body ++ str "."))
      with ((hash =? c) && startswith (str "##") (body ++ str ".")).
    change (startswith (str "##") (c :: body ++ str "."))
      with ((hash =? c) && startswith (str "#") (body ++ str ".")).
    rewrite Hh. reflexivity.
  - apply strip_sentence, Hc.
  - discriminate.
  - apply not_true_is_false. intros Hm.
    apply startswith_spec in Hm as [b Hb].
    assert (Hall : Forall (fun d => d <> 58) (c :: body ++ str ".")).
    { constructor; [exact Hcolon |]. apply Forall_app. split.
      - apply Forall_forall. intros d Hd. apply letter_or_blank_facts.
        rewrite forallb_forall in Hbody. apply Hbody, list_elem_of_In, Hd.
      - repeat constructor. discriminate. }
    rewrite Hb in Hall. apply Forall_app in Hall as [Hall _].
    rewrite Forall_forall in Hall. apply (Hall 58); [| reflexivity].
    unfold code_block_marker. apply list_elem_of_In. simpl. tauto.
  - apply is_heading_sentence; assumption.
Qed.

Lemma format_line_sentence_heading_witness :
  format_line ascii_db demo_world (Converter None) (Fmt [] 0 [])
    (65 :: str "ll is well" ++ str ".") =
  Fmt [] 0 ([] ++ [Paragraph (65 :: str "ll is well" ++ str ".") section_style;
                   Spacer 1 8]).
Proof.
  apply (format_line_sentence_heading ascii_db demo_world (Converter None) 0 []
           65 (str "ll is well")); [reflexivity | discriminate | reflexivity].
Defined.

(** ** Document Assembler: the bullet of a list item *)





(** ** Document Assembler: counting the page breaks *)

Lemma join_page_breaks (parts : list (list block)) :
  Forall (fun section => Forall (fun b => is_page_break b = false) section) parts ->
  length (List.filter is_page_break (join [PageBreak] parts)) = Nat.pred (length parts).
Proof.
  assert (Hnone : forall section,
             Forall (fun b => is_page_break b = false) section ->
             List.filter is_page_break section = []).
  { intros section H. induction H as [|b l Hb _ IH]; [reflexivity |].
    simpl. rewrite Hb. exact IH. }
  induction 1 as [|p parts Hp Hparts IH]; [reflexivity |].
  destruct parts as [|p' parts].
  - simpl. rewrite (Hnone p Hp). reflexivity.
  - change (join [PageBreak] (p :: p' :: parts))
      with (p ++ [PageBreak] ++ join [PageBreak] (p' :: parts)).
    rewrite !List.filter_app, (Hnone p Hp), !length_app, IH. reflexivity.
Qed.

(** X20: the number on the title page and the page breaks go with the
    articles.  A feed that has entries gives a document whose title page
    states the number of article sections that follow it, at most the
    number of entries, and the document holds one page break per section,
    or the one of the title page when there is no section. *)
Theorem create_pdf_counts (db : unicode_db) (w : world) (self : converter)
    (feed_url : list N) (max_articles : option Z) :
  fetch_rss_feed w feed_url <> [] ->
  exists secs story,
    create_pdf db w self feed_url max_articles = Some story /\
    story = title_page w feed_url (length secs) ++ join [PageBreak] secs /\
    (length secs <= length (fetch_rss_feed w feed_url))%nat /\
    length (List.filter is_page_break story) = Nat.max 1 (length secs).
Proof.
  intros Hfeed.
  exists (sections db w self (cap_articles max_articles (fetch_rss_feed w feed_url))).
  eexists. split; [apply create_pdf_story, Hfeed |].
  rewrite sections_length. split; [reflexivity |]. split.
  - unfold cap_articles, slice_to. destruct max_articles as [m |]; [| lia].
    destruct (m =? 0)%Z; [lia |].
    destruct (0 <=? m)%Z; rewrite length_take; lia.
  - rewrite List.filter_app, length_app, join_page_breaks by apply sections_no_break.
    rewrite sections_length. cbn [title_page List.filter is_page_break length].
    lia.
Qed.

Lemma create_pdf_counts_witness :
  exists secs story,
    create_pdf ascii_db demo_world (Converter None) (str "feed") (Some 1%Z)
      = Some story /\
    story = title_page demo_world (str "feed") (length secs)
            ++ join [PageBreak] secs /\
    (length secs <= length (fetch_rss_feed demo_world (str "feed")))%nat /\
    length (List.filter is_page_break story) = Nat.max 1 (length secs).
Proof.
  apply (create_pdf_counts ascii_db demo_world (Converter None) (str "feed")
           (Some 1%Z)). discriminate.
Defined.

(** ** Content Extractor: [structure_content] twice *)

Lemma startswith_blank_line (c : N) (s : list N) :
  startswith [nl; nl] (c :: s) =
  is_char nl c && negb (head_out (is_char nl) s).
Proof.
  destruct s as [|d s]; simpl; unfold is_char.
  - rewrite andb_false_r. reflexivity.
  - rewrite andb_true_r, negb_involutive. reflexivity.
Qed.

Lemma split_from_first (s : list N) (d : N) :
  head (hd [] (split_from [nl; nl] s 0)) = Some d -> head s = Some d.
Proof.
  destruct s as [|c s]; [discriminate |]. cbn [split_from].
  destruct (startswith [nl; nl] (c :: s)); [discriminate |].
  rewrite hd_cons_head. exact (fun H => H).
Qed.

(** No part of a split at blank lines holds a blank line. *)
Lemma split_from_no_adj (s : list N) :
  forall skip, Forall (fun p => no_adj (is_char nl) p = true)
                      (split_from [nl; nl] s skip).
Proof.
  induction s as [|c s IH]; intros skip; [repeat constructor |].
  cbn [split_from]. destruct skip as [|n]; [| apply IH].
  destruct (startswith [nl; nl] (c :: s)) eqn:Hs;
    [constructor; [reflexivity | apply IH] |].
  pose proof (IH O) as Hparts. pose proof (split_from_first s) as Hfirst.
  destruct (split_from [nl; nl] s 0) as [|p rest]; [repeat constructor |].
  apply Forall_cons in Hparts as [Hp Hrest]. constructor; [| exact Hrest].
  rewrite no_adj_cons, Hp, andb_true_r.
  rewrite startswith_blank_line in Hs.
  destruct p as [|d p]; [rewrite andb_false_r; reflexivity |].
  specialize (Hfirst d eq_refl). destruct s as [|e s]; [discriminate |].
  injection Hfirst as ->. apply negb_true_iff. exact Hs.
Qed.

Lemma paragraph_text_tail (c : N) (p : list N) :
  paragraph_text (c :: p) -> paragraph_text p.
Proof.
  intros [Hadj Hlast]. split; [exact (no_adj_tail _ _ _ Hadj) |].
  simpl in Hlast. destruct (rev p) as [|d l]; [reflexivity | exact Hlast].
Qed.

Lemma paragraph_text_start (c : N) (p rest : list N) :
  paragraph_text (c :: p) ->
  startswith [nl; nl] (c :: p ++ [nl; nl] ++ rest) = false /\
  startswith [nl; nl] (c :: p) = false.
Proof.
  intros [Hadj Hlast]. rewrite !startswith_blank_line.
  rewrite no_adj_cons in Hadj. apply andb_true_iff in Hadj as [Hadj _].
  destruct (is_char nl c) eqn:Hc; [| split; reflexivity].
  destruct p as [|d p];
    [cbn [rev app head_out] in Hlast; rewrite Hc in Hlast; discriminate |].
  cbn [app head_out andb] in *.
  destruct (is_char nl d); [discriminate | split; reflexivity].
Qed.

(** Cutting at the blank lines what was joined by blank lines gives the
    paragraphs back. *)
Lemma split_paragraph (p : list N) :
  paragraph_text p ->
  split_from [nl; nl] p 0 = [p] /\
  forall rest, split_from [nl; nl] (p ++ [nl; nl] ++ rest) 0 =
               p :: split_from [nl; nl] rest 0.
Proof.
  induction p as [|c p IH]; intros Hp.
  - split; [reflexivity |]. intros rest. destruct rest; reflexivity.
  - destruct (paragraph_text_start c p [] Hp) as [_ H1].
    destruct (IH (paragraph_text_tail c p Hp)) as [IH1 IH2].
    split.
    + cbn [split_from]. rewrite H1, IH1. reflexivity.
    + intros rest. destruct (paragraph_text_start c p rest Hp) as [H2 _].
      change ((c :: p) ++ [nl; nl] ++ rest) with (c :: p ++ [nl; nl] ++ rest).
      cbn [split_from]. rewrite H2, IH2. reflexivity.
Qed.

Lemma split_join_paragraphs (parts : list (list N)) :
  parts <> [] -> Forall paragraph_text parts ->
  split [nl; nl] (join [nl; nl] parts) = parts.
Proof.
  unfold split. intros Hne Hparts. induction Hparts as [|p parts Hp Hparts IH];
    [congruence |].
  destruct parts as [|p' parts]; [apply (split_paragraph p Hp) |].
  change (join [nl; nl] (p :: p' :: parts))
    with (p ++ [nl; nl] ++ join [nl; nl] (p' :: parts)).
  rewrite (proj2 (split_paragraph p Hp)), IH by discriminate. reflexivity.
Qed.

Lemma map_fixed {A} (f : A -> A) (l : list A) :
  Forall (fun x => f x = x) l -> List.map f l = l.
Proof. induction 1 as [|x l Hx _ IH]; simpl; [| rewrite Hx, IH]; reflexivity. Qed.

Lemma strip_strip (s : list N) : strip (strip s) = strip s.
Proof. apply strip_id; [apply strip_head | apply strip_last]. Qed.

(** X21: [structure_content] is idempotent.  What it returns is made of
    paragraphs longer than twenty characters, with no white space at
    their ends and no blank line inside, joined by blank lines; cut again
    at the blank lines it gives the same paragraphs, so a second pass
    returns it as it is. *)
Theorem structure_content_idempotent (content : list N) :
  structure_content (structure_content content) = structure_content content.
Proof.
  unfold structure_content at 2 3.
  destruct content as [|c0 content0]; [reflexivity |].
  set (keep := fun paragraph : list N =>
                 negb (str_eqb paragraph []) && (20 <? length paragraph)%nat).
  set (kept := List.filter keep (List.map strip (split [nl; nl] (c0 :: content0)))).
  assert (Hkept : Forall (fun p => keep p = true /\ strip p = p /\ paragraph_text p)
                         kept).
  { apply Forall_forall. intros p Hp. apply filter_bool_elem in Hp as [Hp Hk].
    apply list_elem_of_In, in_map_iff in Hp as (q & <- & Hq).
    split; [exact Hk |]. split; [apply strip_strip |]. split.
    - apply strip_no_adj.
      pose proof (split_from_no_adj (c0 :: content0) 0) as H.
      rewrite Forall_forall in H. apply H, list_elem_of_In, Hq.
    - pose proof (strip_last q) as Hl.
      destruct (rev (strip q)) as [|d l]; [reflexivity |]. cbn [head_out] in *.
      destruct (is_char nl d) eqn:Hd; [| reflexivity].
      apply N.eqb_eq in Hd. subst d. discriminate Hl. }
  unfold structure_content.
  destruct (join [nl; nl] kept) as [|c r] eqn:Hjoin; [reflexivity |].
  rewrite <- Hjoin. f_equal. fold keep.
  rewrite split_join_paragraphs.
  - rewrite map_fixed
      by (eapply Forall_impl; [exact Hkept | intros x (_ & H & _); exact H]).
    apply filter_bool_all. intros p Hp. rewrite Forall_forall in Hkept.
    apply (Hkept p Hp).
  - intros ->. discriminate.
  - eapply Forall_impl; [exact Hkept | intros x (_ & _ & H); exact H].
Qed.
